(** * agent-bridge: queue, workspace manager and orchestrator

    A shallow embedding of the TypeScript sources [workspace.ts],
    [bridge.ts], [callback.ts], [http.ts], [pusher.ts], [config.ts] and
    [providers/claude-code.ts], with the properties the specification
    states about them and further properties read off the code.

    JavaScript strings are sequences of UTF-16 code units; effects
    (child processes, the file system, the clock, the provider, the
    network) are calls to a host, recorded in a trace. *)

From Stdlib Require Import String Ascii.
From Stdlib Require Import List NArith ZArith QArith Bool Lia.
Import ListNotations.

Set Implicit Arguments.
Close Scope Q_scope.

(* ================================================================== *)
(** * JavaScript strings *)
(* ================================================================== *)

Module Js.

(** A string is the list of its UTF-16 code units. *)
Definition jsstring := list N.

Local Open Scope N_scope.

(** The code units of an ASCII literal. *)
Fixpoint lit (s : string) : jsstring :=
  match s with
  | EmptyString => []
  | String c r => N_of_ascii c :: lit r
  end.

(** The double quote, which the literals of this file cannot hold. *)
Definition dq : jsstring := [34].
(** Line feed. *)
Definition LF : N := 10.

Fixpoint seqb (a b : jsstring) : bool :=
  match a, b with
  | [], [] => true
  | x :: a', y :: b' => (x =? y) && seqb a' b'
  | _, _ => false
  end.

(** [WhiteSpace] and [LineTerminator] of ECMAScript, the code units that
    [String.prototype.trim] removes. *)
Definition isWhiteSpace (c : N) : bool :=
  ((9 <=? c) && (c <=? 13)) || (c =? 32) || (c =? 160) || (c =? 5760)
  || ((8192 <=? c) && (c <=? 8202)) || (c =? 8232) || (c =? 8233)
  || (c =? 8239) || (c =? 8287) || (c =? 12288) || (c =? 65279).

Fixpoint trimStart (s : jsstring) : jsstring :=
  match s with
  | c :: r => if isWhiteSpace c then trimStart r else s
  | [] => []
  end.

Definition trimEnd (s : jsstring) : jsstring := rev (trimStart (rev s)).

(** [s.trim()] *)
Definition trim (s : jsstring) : jsstring := trimEnd (trimStart s).

(** [s.startsWith(p)], returning what follows the prefix. *)
Fixpoint stripPrefix (p s : jsstring) : option jsstring :=
  match p, s with
  | [], _ => Some s
  | x :: p', y :: s' => if N.eqb x y then stripPrefix p' s' else None
  | _ :: _, [] => None
  end.

Definition startsWith (p s : jsstring) : bool :=
  match stripPrefix p s with Some _ => true | None => false end.

(** [s.includes(p)] *)
Fixpoint includes (p s : jsstring) : bool :=
  startsWith p s || match s with [] => false | _ :: s' => includes p s' end.

(** [s.split(sep)] for a separator of one code unit: the pieces between
    the separators, [[""]] for the empty string. *)
Fixpoint split1 (sep : N) (s : jsstring) : list jsstring :=
  match s with
  | [] => [[]]
  | c :: r =>
      if N.eqb c sep then [] :: split1 sep r
      else match split1 sep r with
           | [] => [[c]]
           | p :: ps => (c :: p) :: ps
           end
  end.

(** The truthiness of a string: [Boolean(s)]. *)
Definition truthy (s : jsstring) : bool :=
  match s with [] => false | _ :: _ => true end.

(** [xs.join(sep)] *)
Fixpoint joinWith (sep : jsstring) (xs : list jsstring) : jsstring :=
  match xs with
  | [] => []
  | [x] => x
  | x :: rest => x ++ sep ++ joinWith sep rest
  end.

(** [s.replace(pat, by)] for a string pattern: the first occurrence only. *)
Fixpoint replaceFirst (pat by_ s : jsstring) : jsstring :=
  match stripPrefix pat s with
  | Some rest => by_ ++ rest
  | None => match s with
            | [] => []
            | c :: s' => c :: replaceFirst pat by_ s'
            end
  end.

(** ** Numbers in a radix: [n.toString(radix)] for a non-negative integer *)

(** The digit [d] (below 36) as a code unit: [0-9] then [a-z]. *)
Definition digitChar (d : N) : N :=
  if d <? 10 then 48 + d else 97 + (d - 10).

(** Most significant digit first; [fuel] bounds the number of digits. *)
Fixpoint digitsFuel (fuel : nat) (radix n : N) : list N :=
  match fuel with
  | O => [n]
  | S f =>
      if n <? radix then [n]
      else digitsFuel f radix (n / radix) ++ [n mod radix]
  end.

(** A number below [2^k] has at most [k] digits in any radix from 2. *)
Definition digits (radix n : N) : list N :=
  digitsFuel (N.to_nat (N.size n)) radix n.

Definition toStringRadix (radix n : N) : jsstring :=
  map digitChar (digits radix n).

(** [String(n)] / template interpolation of a non-negative integer. *)
Definition toString10 (n : N) : jsstring := toStringRadix 10 n.
(** [n.toString(36)] *)
Definition toString36 (n : N) : jsstring := toStringRadix 36 n.

End Js.
Import Js.

Arguments lit : simpl never.
Arguments trim : simpl never.
Arguments toString10 : simpl never.
Arguments toString36 : simpl never.

(* ================================================================== *)
(** * Regular expressions (the fragment [repoSlug] uses) *)
(* ================================================================== *)

Module Regex.

(** A backtracking matcher in the order ECMAScript prescribes: a greedy
    quantifier tries the longest repetition first, a lazy one the
    shortest, an optional group tries its body before skipping it. *)
Inductive regex : Type :=
| RChars (s : jsstring)                 (* literal characters *)
| RPlus (lazy : bool) (cls : N -> bool) (* [cls]+ and [cls]+? *)
| ROpt (r : regex)                      (* (?: r )? *)
| RSeq (r1 r2 : regex)
| RGroup (r : regex)                    (* the capturing group 1 *)
| REnd.                                 (* $ *)

Section Matcher.
Variable R : Type.

Fixpoint plusGreedy (cls : N -> bool) (s : jsstring)
         (k : jsstring -> option R) : option R :=
  match s with
  | c :: r =>
      if cls c then
        match plusGreedy cls r k with
        | Some x => Some x
        | None => k r
        end
      else None
  | [] => None
  end.

Fixpoint plusLazy (cls : N -> bool) (s : jsstring)
         (k : jsstring -> option R) : option R :=
  match s with
  | c :: r =>
      if cls c then
        match k r with
        | Some x => Some x
        | None => plusLazy cls r k
        end
      else None
  | [] => None
  end.

(** [run r s cap k]: match [r] at the front of [s], then continue with
    [k] on the rest; [cap] is the text of group 1 so far. *)
Fixpoint run (r : regex) (s : jsstring) (cap : option jsstring)
         (k : jsstring -> option jsstring -> option R) : option R :=
  match r with
  | RChars p =>
      match stripPrefix p s with
      | Some rest => k rest cap
      | None => None
      end
  | RPlus lazy cls =>
      if lazy then plusLazy cls s (fun rest => k rest cap)
      else plusGreedy cls s (fun rest => k rest cap)
  | ROpt r1 =>
      match run r1 s cap k with
      | Some x => Some x
      | None => k s cap
      end
  | RSeq r1 r2 => run r1 s cap (fun rest cap' => run r2 rest cap' k)
  | RGroup r1 =>
      run r1 s cap
          (fun rest _ =>
             k rest (Some (firstn (length s - length rest) s)))
  | REnd =>
      match s with
      | [] => k s cap
      | _ :: _ => None
      end
  end.
End Matcher.

(** [s.match(r)] without the [g] flag: the leftmost match; the result is
    the text of group 1 ([None] inside when the group did not take part). *)
Fixpoint search (r : regex) (s : jsstring) : option (option jsstring) :=
  match run r s None (fun _ cap => Some cap) with
  | Some cap => Some cap
  | None => match s with
            | [] => None
            | _ :: t => search r t
            end
  end.

End Regex.
Import Regex.

(* ================================================================== *)
(** * workspace.ts: repoSlug *)
(* ================================================================== *)

Definition slash : N := 47%N.
Definition dot : N := 46%N.

(** [/(?:github\.com\/)?([^/]+\/[^/.]+?)(?:\.git)?$/] *)
Definition repoRegex : regex :=
  RSeq (ROpt (RChars (lit "github.com/")))
  (RSeq (RGroup
           (RSeq (RPlus false (fun c => negb (N.eqb c slash)))
           (RSeq (RChars [slash])
                 (RPlus true (fun c => negb (N.eqb c slash || N.eqb c dot))))))
  (RSeq (ROpt (RChars (lit ".git")))
        REnd)).

(** A thrown JavaScript [Error], by its message. *)
Definition exn := jsstring.

(** The result of a call that may throw. *)
Inductive result (A : Type) : Type :=
| Ok (a : A)
| Throw (e : exn).
Arguments Ok {A} a.
Arguments Throw {A} e.

Definition repoSlug (repo : jsstring) : result jsstring :=
  match search repoRegex repo with
  | Some (Some m1) => Ok (replaceFirst [slash] (lit "--") m1)
  | _ => Throw (lit "Invalid repository: " ++ repo)
  end.

(* ================================================================== *)
(** * node:path (POSIX): join, normalize, dirname *)
(* ================================================================== *)

Module Path.

Definition dotdot : jsstring := [dot; dot].

(** One segment of [normalizeString]; [stack] holds the segments kept so
    far, the last one first. *)
Definition pushSegment (allowAboveRoot : bool) (stack : list jsstring)
           (seg : jsstring) : list jsstring :=
  if seqb seg [] || seqb seg [dot] then stack
  else if seqb seg dotdot then
    match stack with
    | top :: below =>
        if seqb top dotdot
        then (if allowAboveRoot then dotdot :: stack else stack)
        else below
    | [] => if allowAboveRoot then [dotdot] else []
    end
  else seg :: stack.

Definition endsWithSlash (p : jsstring) : bool :=
  match rev p with c :: _ => N.eqb c slash | [] => false end.

Definition normalize (path : jsstring) : jsstring :=
  match path with
  | [] => [dot]
  | c :: _ =>
      let isAbsolute := N.eqb c slash in
      let trailing := endsWithSlash path in
      let segs := rev (fold_left (pushSegment (negb isAbsolute))
                                 (split1 slash path) []) in
      match joinWith [slash] segs with
      | [] => if isAbsolute then [slash]
              else if trailing then [dot; slash] else [dot]
      | p => (if isAbsolute then [slash] else []) ++ p
             ++ (if trailing then [slash] else [])
      end
  end.

(** [join(a, b)]: the non-empty arguments joined by a slash, normalized. *)
Definition join (a b : jsstring) : jsstring :=
  match a, b with
  | [], [] => [dot]
  | [], _ => normalize b
  | _, [] => normalize a
  | _, _ => normalize (a ++ [slash] ++ b)
  end.

Fixpoint dropWhile (f : N -> bool) (s : jsstring) : jsstring :=
  match s with
  | c :: r => if f c then dropWhile f r else s
  | [] => []
  end.

(** [dirname(p)] *)
Definition dirname (p : jsstring) : jsstring :=
  match p with
  | [] => [dot]
  | c :: tl =>
      let hasRoot := N.eqb c slash in
      let isSlash := fun x => N.eqb x slash in
      let back := dropWhile isSlash (rev tl) in
      match dropWhile (fun x => negb (isSlash x)) back with
      | [] => if hasRoot then [slash] else [dot]
      | _ :: before =>
          match before with
          | [] => if hasRoot then [slash; slash] else [c]
          | _ => c :: rev before
          end
      end
  end.

End Path.

Arguments Path.join : simpl never.
Arguments Path.dirname : simpl never.

(* ================================================================== *)
(** * JSON values, as [JSON.parse] returns them *)
(* ================================================================== *)

Set Warnings "-register-all".

Inductive JsValue : Type :=
| JUndefined
| JNull
| JBool (b : bool)
| JNum (q : Q)
| JStr (s : jsstring)
| JArr (xs : list JsValue)
| JObj (fields : list (jsstring * JsValue)).

(** A string-keyed object as the list of its own properties. *)
Definition JsObject := list (jsstring * JsValue).

(** [o[k]], [None] for [undefined]. *)
Fixpoint getProp (o : JsObject) (k : jsstring) : option JsValue :=
  match o with
  | [] => None
  | (k', v) :: rest => if seqb k' k then Some v else getProp rest k
  end.

(** Property access [v.k] on a value that is neither [null] nor
    [undefined]; this file only reads the names [type], [prompt] and the
    like, which arrays, strings, numbers and booleans do not have. *)
Definition field (v : JsValue) (k : jsstring) : JsValue :=
  match v with
  | JObj o => match getProp o k with Some x => x | None => JUndefined end
  | _ => JUndefined
  end.

(** [Boolean(v)] *)
Definition jsTruthy (v : JsValue) : bool :=
  match v with
  | JUndefined | JNull => false
  | JBool b => b
  | JNum q => negb (Qeq_bool q 0%Q)
  | JStr s => truthy s
  | JArr _ | JObj _ => true
  end.

(** [{...a, ...b}]: the properties of [a], overridden and followed by
    those of [b]. *)
Definition spread (a b : JsObject) : JsObject :=
  filter (fun kv => match getProp b (fst kv) with
                    | Some _ => false | None => true end) a ++ b.

(* ================================================================== *)
(** * types.ts, providers/types.ts, config.ts: the data *)
(* ================================================================== *)

(** [types.ts]: [GitWorkspace] and [TempDirWorkspace].  The third
    constructor is an object whose [type] is neither ["git"] nor
    ["tempdir"], which [setupWorkspace] expects to meet (its last line
    reads [(workspace as { type: string }).type]); [None] is a missing
    [type] field. *)
Inductive Workspace : Type :=
| WsGit (repo : jsstring) (branch : option jsstring) (overlays : option bool)
| WsTempdir (seedFiles : option (list (jsstring * jsstring)))
| WsOther (type : option jsstring).

(** [types.ts], [AgentConfig]: these are the fields that the
    orchestrator reads; the others travel to the provider unread, in
    [passthrough].  [timeoutMs] is a whole number of milliseconds. *)
Record AgentConfig : Type := {
  agent_provider : option jsstring;
  agent_model : option jsstring;
  agent_mcpServers : option JsObject;
  agent_timeoutMs : option N;            (* limits?.timeoutMs *)
  agent_passthrough : JsValue
}.

(** [types.ts], [ExecutionRequest]. *)
Record ExecutionRequest : Type := {
  req_id : jsstring;
  req_prompt : jsstring;
  req_callbackUrl : option jsstring;
  req_workspace : option Workspace;
  req_agent : option AgentConfig;
  req_metadata : option JsObject
}.

Inductive Status : Type := StSuccess | StError.

(** The usage counters are JavaScript numbers that the orchestrator only
    copies; rationals carry them. *)
Record Usage : Type := {
  totalCostUsd : Q;
  inputTokens : Q;
  outputTokens : Q;
  numTurns : Q
}.

Definition zeroUsage : Usage :=
  {| totalCostUsd := 0%Q; inputTokens := 0%Q; outputTokens := 0%Q;
     numTurns := 0%Q |}.

Record ProviderResult : Type := {
  pr_status : Status;
  pr_output : option jsstring;
  pr_error : option jsstring;
  pr_usage : Usage
}.

(** [types.ts], [CallbackPayload]. *)
Record CallbackPayload : Type := {
  cb_id : jsstring;
  cb_status : Status;
  cb_durationMs : Z;
  cb_usage : Usage;        (* totalCostUsd, inputTokens, outputTokens, numTurns *)
  cb_result : option jsstring;
  cb_error : option jsstring;
  cb_metadata : option JsObject
}.

Record ProviderContext : Type := {
  ctx_cwd : jsstring;
  ctx_prompt : jsstring;
  ctx_agent : option AgentConfig;        (* [None] is the empty object *)
  ctx_mcpServers : JsObject;
  ctx_executionId : jsstring;
  ctx_memoryUserId : option jsstring
}.

Record BridgeConfig : Type := {
  cfg_baseDir : jsstring;
  cfg_reposDir : jsstring;
  cfg_worktreesDir : jsstring;
  cfg_overlaysDir : jsstring;
  cfg_timeout : N;
  cfg_maxConcurrent : N;
  cfg_defaultProvider : jsstring
}.

(** The cleanup closures that [setupWorkspace] returns, by the variables
    they capture. *)
Inductive Cleanup : Type :=
| CleanNothing                                          (* async () => {} *)
| CleanWorktree (barePath worktreePath : jsstring)
| CleanTempdir (dir : jsstring).

Record WorkspaceResult : Type := {
  ws_cwd : jsstring;
  ws_cleanup : Cleanup
}.

(* ================================================================== *)
(** * The host and the trace *)
(* ================================================================== *)

(** How [Promise.race([providerPromise, timeoutPromise])] settles. *)
Inductive RaceOutcome : Type :=
| ProviderResolved (r : ProviderResult)
| ProviderRejected (e : exn)
| TimerFired.

(** How [fetch] settles: a rejection, or a response with [response.ok],
    its status and its body text. *)
Inductive FetchOutcome : Type :=
| FetchRejected (e : exn)
| FetchResponse (ok : bool) (status : N) (body : jsstring).

(** The calls of [node:fs] that write: [mkdirSync] (recursive),
    [mkdtempSync], [writeFileSync], [rmSync] (recursive, force) and
    [cpSync] (recursive).  The calls that read ([existsSync],
    [readdirSync], [readFileSync]) are answers of the host and leave no
    event. *)
Inductive FsCall : Type :=
| MkdirRecursive (path : jsstring)
| Mkdtemp (prefix : jsstring)
| WriteFile (path content : jsstring)
| RmRecursiveForce (path : jsstring)
| CpRecursive (src dst : jsstring).

(** What the program asks of its environment.  [W] is the state of the
    world; a call returns its result and the next state. *)
Class Host (W : Type) : Type := {
  dateNow : W -> N * W;
  processCwd : W -> jsstring;
  osTmpdir : W -> jsstring;
  (** [promisify(child_process.exec)(cmd, {cwd})]: stdout, or a rejection *)
  exec : jsstring -> option jsstring -> W -> result jsstring * W;
  (** the writing calls of [node:fs]; the string is the directory that
      [mkdtempSync] made *)
  fsCall : FsCall -> W -> result jsstring * W;
  existsSync : jsstring -> W -> bool;
  readdirSync : jsstring -> W -> result (list jsstring);
  readFileSync : jsstring -> W -> result jsstring;
  jsonParse : jsstring -> result JsValue;
  (** [config.ts]: the configuration read from the environment; the
      clock readings of its cache are not of this world's clock *)
  loadBridgeConfig : W -> BridgeConfig;
  (** [providers/registry.ts]: the names registered *)
  providerNames : W -> list jsstring;
  (** [provider.run(ctx)] raced against a timer of [timeout] ms *)
  providerRace : jsstring -> ProviderContext -> N -> W -> RaceOutcome * W;
  fetchPost : jsstring -> CallbackPayload -> W -> FetchOutcome * W
}.

Inductive Console : Type := Log | Warn | Err.

(** The calls that the properties count. *)
Inductive Call : Type :=
| CallSetupWorkspace (ws : option Workspace)
| CallVerifyGitPush (cwd branch : jsstring)
| CallSendCallback (url : jsstring) (payload : CallbackPayload)
| CallCleanup (c : Cleanup).

Inductive Event : Type :=
| EConsole (c : Console) (msg : jsstring)
| EExec (cmd : jsstring) (cwd : option jsstring)
| EFs (c : FsCall)
| ERun (provider : jsstring) (ctx : ProviderContext) (timeoutMs : N)
| EClearTimeout
| EFetch (url : jsstring) (payload : CallbackPayload)
| ECall (c : Call).

(* ================================================================== *)
(** * The monad: world, trace, exceptions *)
(* ================================================================== *)

Section Monad.

(** [S] is the state a computation threads: the world, or the world with
    the local variables of a function. *)
Variable S : Type.

Record Out (A : Type) : Type := mkOut {
  res : result A;
  st : S;
  trace : list Event
}.

Definition M (A : Type) : Type := S -> Out A.

Definition ret {A} (a : A) : M A := fun s => mkOut (Ok a) s [].

Definition throw {A} (e : exn) : M A := fun s => mkOut (Throw e) s [].

Definition bind {A B} (m : M A) (f : A -> M B) : M B :=
  fun s =>
    let o := m s in
    match res o with
    | Ok a => let o' := f a (st o) in
              mkOut (res o') (st o') (trace o ++ trace o')
    | Throw e => mkOut (Throw e) (st o) (trace o)
    end.

(** [try { m } catch (e) { h e }] *)
Definition tryCatch {A} (m : M A) (h : exn -> M A) : M A :=
  fun s =>
    let o := m s in
    match res o with
    | Ok _ => o
    | Throw e => let o' := h e (st o) in
                 mkOut (res o') (st o') (trace o ++ trace o')
    end.

(** [try { m } finally { f }]: [f] runs on both exits; its own exception
    replaces the outcome of [m]. *)
Definition tryFinally {A} (m : M A) (f : M unit) : M A :=
  fun s =>
    let o := m s in
    let o' := f (st o) in
    match res o' with
    | Ok _ => mkOut (res o) (st o') (trace o ++ trace o')
    | Throw e => mkOut (Throw e) (st o') (trace o ++ trace o')
    end.

Definition emit (e : Event) : M unit := fun s => mkOut (Ok tt) s [e].

Definition liftResult {A} (r : result A) : M A :=
  match r with Ok a => ret a | Throw e => throw e end.

(** A call of one of the counted functions. *)
Definition call {A} (c : Call) (body : M A) : M A :=
  bind (emit (ECall c)) (fun _ => body).

Definition console (c : Console) (msg : jsstring) : M unit :=
  emit (EConsole c msg).

(** [for (const x of xs) { f x }] *)
Fixpoint forEach {A} (xs : list A) (f : A -> M unit) : M unit :=
  match xs with
  | [] => ret tt
  | x :: rest => bind (f x) (fun _ => forEach rest f)
  end.

End Monad.

Arguments mkOut {S A} res st trace.
Arguments res {S A} o.
Arguments st {S A} o.
Arguments trace {S A} o.
Arguments ret {S A} a.
Arguments throw {S A} e.
Arguments bind {S A B} m f.
Arguments tryCatch {S A} m h.
Arguments tryFinally {S A} m f.
Arguments emit {S} e.
Arguments liftResult {S A} r.
Arguments call {S A} c body.
Arguments console {S} c msg.
Arguments forEach {S A} xs f.

Section HostCalls.

Context {W : Type} {host : Host W}.

Definition now : M W N :=
  fun w => let (t, w') := dateNow w in mkOut (Ok t) w' [].

Definition execM (cmd : jsstring) (cwd : option jsstring) : M W jsstring :=
  fun w => let (r, w') := exec cmd cwd w in mkOut r w' [EExec cmd cwd].

Definition fsM (c : FsCall) : M W jsstring :=
  fun w => let (r, w') := fsCall c w in mkOut r w' [EFs c].

Definition readWorld {A} (f : W -> A) : M W A := fun w => mkOut (Ok (f w)) w [].

Definition readResult {A} (f : W -> result A) : M W A :=
  fun w => mkOut (f w) w [].

End HostCalls.

Declare Scope prog_scope.
Delimit Scope prog_scope with prog.
Notation "x <- m ;; k" := (bind m (fun x => k))
  (at level 61, m at next level, right associativity) : prog_scope.
Notation "m ;; k" := (bind m (fun _ => k))
  (at level 61, right associativity) : prog_scope.

Local Open Scope prog_scope.

(* ================================================================== *)
(** * workspace.ts *)
(* ================================================================== *)

Section WorkspaceManager.

Context {W : Type} {host : Host W}.

Definition gitFetchCmd : jsstring :=
  lit "git fetch origin '+refs/heads/*:refs/heads/*' --prune".

Definition ensureBareClone (repo reposDir : jsstring) : M W jsstring :=
  slug <- liftResult (repoSlug repo) ;;
  let barePath := Path.join reposDir (slug ++ lit ".git") in
  fsM (MkdirRecursive reposDir) ;;
  let repoUrl :=
    if includes (lit "github.com") repo then repo
    else lit "https://github.com/" ++ repo ++ lit ".git" in
  present <- readWorld (existsSync barePath) ;;
  (if present : bool then
     console Log (lit "[Workspace] Fetching latest for " ++ slug ++ lit "...") ;;
     execM gitFetchCmd (Some barePath)
   else
     console Log (lit "[Workspace] Cloning " ++ repoUrl ++ lit " (bare)...") ;;
     execM (lit "git clone --bare " ++ repoUrl ++ lit " " ++ barePath) None) ;;
  ret barePath.

Definition worktreeAddCmd (worktreePath ref : jsstring) : jsstring :=
  lit "git worktree add --detach " ++ worktreePath ++ lit " " ++ ref.

Definition fallbackLine (branch : jsstring) : jsstring :=
  lit "[Workspace] Branch " ++ dq ++ branch ++ dq
  ++ lit " not found, creating from main (detached)...".

(** The path of a worktree made at clock reading [t]. *)
Definition worktreePathAt (worktreesDir : jsstring) (t : N) : jsstring :=
  Path.join worktreesDir (lit "wt-" ++ toString36 t).

(** [branch] is [None] when the caller passes [undefined]; the parameter
    then takes its default, ["main"]. *)
Definition createWorktree (barePath worktreesDir : jsstring)
           (branch_ : option jsstring) : M W (jsstring * Cleanup) :=
  let branch := match branch_ with Some b => b | None => lit "main" end in
  t <- now ;;
  let worktreePath := worktreePathAt worktreesDir t in
  fsM (MkdirRecursive worktreesDir) ;;
  console Log (lit "[Workspace] Creating worktree at " ++ worktreePath
               ++ lit " (branch: " ++ branch ++ lit ")...") ;;
  execM (lit "git worktree prune") (Some barePath) ;;
  tryCatch
    (execM (worktreeAddCmd worktreePath branch) (Some barePath))
    (fun _ =>
       console Log (fallbackLine branch) ;;
       execM (worktreeAddCmd worktreePath (lit "main")) (Some barePath)) ;;
  ret (worktreePath, CleanWorktree barePath worktreePath).

(** The bodies of the cleanup closures. *)
Definition runCleanup (c : Cleanup) : M W unit :=
  match c with
  | CleanNothing => ret tt
  | CleanWorktree barePath worktreePath =>
      console Log (lit "[Workspace] Cleaning up worktree " ++ worktreePath
                   ++ lit "...") ;;
      tryCatch
        (execM (lit "git worktree remove --force " ++ worktreePath)
               (Some barePath) ;;
         ret tt)
        (fun _ =>
           fsM (RmRecursiveForce worktreePath) ;;
           execM (lit "git worktree prune") (Some barePath) ;;
           ret tt)
  | CleanTempdir dir =>
      console Log (lit "[Workspace] Cleaning up tempdir " ++ dir ++ lit "...") ;;
      fsM (RmRecursiveForce dir) ;;
      ret tt
  end.

Definition injectOverlays (worktreePath repo overlaysDir : jsstring) : M W unit :=
  slug <- liftResult (repoSlug repo) ;;
  let overlayDir := Path.join overlaysDir slug in
  present <- readWorld (existsSync overlayDir) ;;
  if negb present then
    console Log (lit "[Workspace] No overlays found for " ++ slug)
  else
    console Log (lit "[Workspace] Injecting overlays from " ++ overlayDir
                 ++ lit "...") ;;
    entries <- readResult (readdirSync overlayDir) ;;
    forEach entries
      (fun entry =>
         fsM (CpRecursive (Path.join overlayDir entry)
                          (Path.join worktreePath entry)) ;;
         ret tt).

Definition unsupportedType (type : option jsstring) : exn :=
  lit "Unsupported workspace type: "
  ++ match type with Some t => t | None => lit "undefined" end.

Definition setupWorkspace (workspace : option Workspace)
           (config : BridgeConfig) : M W WorkspaceResult :=
  match workspace with
  | None =>
      cwd <- readWorld processCwd ;;
      ret {| ws_cwd := cwd; ws_cleanup := CleanNothing |}
  | Some (WsGit repo branch overlays) =>
      barePath <- ensureBareClone repo (cfg_reposDir config) ;;
      wt <- createWorktree barePath (cfg_worktreesDir config) branch ;;
      (match overlays with
       | Some false => ret tt
       | _ => injectOverlays (fst wt) repo (cfg_overlaysDir config)
       end) ;;
      execM (lit "git config user.name " ++ dq ++ lit "Agent Bridge" ++ dq)
            (Some (fst wt)) ;;
      execM (lit "git config user.email " ++ dq
             ++ lit "bridge@agent-bridge.local" ++ dq)
            (Some (fst wt)) ;;
      ret {| ws_cwd := fst wt; ws_cleanup := snd wt |}
  | Some (WsTempdir seedFiles) =>
      tmp <- readWorld osTmpdir ;;
      dir <- fsM (Mkdtemp (Path.join tmp (lit "bridge-"))) ;;
      console Log (lit "[Workspace] Created tempdir: " ++ dir) ;;
      (match seedFiles with
       | Some files =>
           forEach files
             (fun f =>
                let fullPath := Path.join dir (fst f) in
                fsM (MkdirRecursive (Path.dirname fullPath)) ;;
                fsM (WriteFile fullPath (snd f)) ;;
                ret tt) ;;
           console Log (lit "[Workspace] Seeded "
                        ++ toString10 (N.of_nat (List.length files))
                        ++ lit " file(s)")
       | None => ret tt
       end) ;;
      ret {| ws_cwd := dir; ws_cleanup := CleanTempdir dir |}
  | Some (WsOther type) => throw (unsupportedType type)
  end.

(** [raw.mcpServers ?? {}]; reading a property of [null] throws. *)
Definition loadMcpServers (cwd : jsstring) : M W JsValue :=
  let mcpPath := Path.join cwd (lit ".mcp.json") in
  present <- readWorld (existsSync mcpPath) ;;
  if negb present then ret (JObj [])
  else
    text <- readResult (readFileSync mcpPath) ;;
    raw <- liftResult (jsonParse text) ;;
    match raw with
    | JNull | JUndefined =>
        throw (lit "Cannot read properties of null (reading 'mcpServers')")
    | _ => match field raw (lit "mcpServers") with
           | JUndefined | JNull => ret (JObj [])
           | v => ret v
           end
    end.

Record PushCheck : Type := {
  pushed : bool;
  unpushedCommits : list jsstring
}.

Definition gitLogCmd (branch : jsstring) : jsstring :=
  lit "git log --oneline origin/" ++ branch
  ++ lit "..HEAD 2>/dev/null || echo " ++ dq ++ dq.

Definition lsRemoteCmd (branch : jsstring) : jsstring :=
  lit "git ls-remote --heads origin " ++ branch.

Definition branchNotOnRemote : jsstring := lit "(branch not on remote)".
Definition verificationError : jsstring := lit "(verification error)".

(** [logOutput.trim().split("\n").filter(Boolean)] *)
Definition commitLines (logOutput : jsstring) : list jsstring :=
  filter truthy (split1 LF (trim logOutput)).

Definition verifyGitPush (cwd branch : jsstring) : M W PushCheck :=
  tryCatch
    (logOutput <- execM (gitLogCmd branch) (Some cwd) ;;
     let unpushed := commitLines logOutput in
     if (0 <? List.length unpushed)%nat then
       console Warn
         (lit "[Verify] Branch " ++ dq ++ branch ++ dq ++ lit " has "
          ++ toString10 (N.of_nat (List.length unpushed))
          ++ lit " unpushed commit(s):" ++ [LF]
          ++ joinWith [LF] (map (fun c => lit "  " ++ c) unpushed)) ;;
       ret {| pushed := false; unpushedCommits := unpushed |}
     else
       remoteRef <- execM (lsRemoteCmd branch) (Some cwd) ;;
       if negb (truthy (trim remoteRef)) then
         console Warn (lit "[Verify] Branch " ++ dq ++ branch ++ dq
                       ++ lit " does not exist on remote") ;;
         ret {| pushed := false; unpushedCommits := [branchNotOnRemote] |}
       else
         console Log (lit "[Verify] Branch " ++ dq ++ branch ++ dq
                      ++ lit " verified on remote") ;;
         ret {| pushed := true; unpushedCommits := [] |})
    (fun err =>
       console Warn (lit "[Verify] Git push verification failed: " ++ err) ;;
       ret {| pushed := false; unpushedCommits := [verificationError] |}).

End WorkspaceManager.

(* ================================================================== *)
(** * callback.ts *)
(* ================================================================== *)

Section CallbackReporter.

Context {W : Type} {host : Host W}.

(** [await fetch(url, { method: "POST", body: JSON.stringify(payload) })],
    with the 10 s abort left to the host. *)
Definition fetchM (url : jsstring) (payload : CallbackPayload) : M W FetchOutcome :=
  fun w =>
    let (o, w') := fetchPost url payload w in
    match o with
    | FetchRejected e => mkOut (Throw e) w' [EFetch url payload]
    | _ => mkOut (Ok o) w' [EFetch url payload]
    end.

Definition sendCallback (url : jsstring) (payload : CallbackPayload) : M W unit :=
  tryCatch
    (response <- fetchM url payload ;;
     match response with
     | FetchResponse true status _ =>
         console Log (lit "[Callback] POST to " ++ url ++ lit " succeeded ("
                      ++ toString10 status ++ lit ")")
     | FetchResponse false status body =>
         console Err (lit "[Callback] POST to " ++ url ++ lit " returned "
                      ++ toString10 status ++ lit ": " ++ firstn 500 body)
     | FetchRejected _ => ret tt
     end)
    (fun err =>
       console Err (lit "[Callback] POST to " ++ url ++ lit " failed: " ++ err)).

End CallbackReporter.

(* ================================================================== *)
(** * bridge.ts: the orchestrator *)
(* ================================================================== *)

Section Orchestrator.

Context {W : Type} {host : Host W}.

(** The state of [executeRequest]: the world and the local variable
    [cleanup], [None] while it is [undefined].  The other locals are
    bound once and appear as [let]s.

    Of the console output of [bridge.ts] the trace keeps the
    [console.error] lines; the [console.log] lines, which print the
    configuration as JSON and costs in fixed point, are left out: they
    call nothing and cannot throw on values of the declared types. *)
Definition Frame : Type := (W * option Cleanup)%type.

Definition lift {A} (m : M W A) : M Frame A :=
  fun s => let o := m (fst s) in mkOut (res o) (st o, snd s) (trace o).

(** [cleanup = c] *)
Definition setCleanup (c : Cleanup) : M Frame unit :=
  fun s => mkOut (Ok tt) (fst s, Some c) [].

Definition getCleanup : M Frame (option Cleanup) :=
  fun s => mkOut (Ok (snd s)) s [].

(** Run a function body from its initial frame. *)
Definition inFrame {A} (m : M Frame A) : M W A :=
  fun w => let o := m (w, None) in mkOut (res o) (fst (st o)) (trace o).

Definition buildErrorPayload (request : ExecutionRequest) (err : jsstring)
           (startMs : N) : M W CallbackPayload :=
  t <- now ;;
  ret {| cb_id := req_id request;
         cb_status := StError;
         cb_durationMs := (Z.of_N t - Z.of_N startMs)%Z;
         cb_usage := zeroUsage;
         cb_result := None;
         cb_error := Some err;
         cb_metadata := req_metadata request |}.

(** [if (request.callbackUrl)]: present and not the empty string. *)
Definition callbackTarget (request : ExecutionRequest) : option jsstring :=
  match req_callbackUrl request with
  | Some url => if truthy url then Some url else None
  | None => None
  end.

(** [!request.prompt || request.prompt.trim() === ""] *)
Definition emptyPrompt (request : ExecutionRequest) : bool :=
  negb (truthy (req_prompt request)) || seqb (trim (req_prompt request)) [].

(** [getProvider(name)], returning the provider's name. *)
Definition getProvider (name : jsstring) : M W jsstring :=
  names <- readWorld providerNames ;;
  if existsb (seqb name) names then ret name
  else throw (lit "Unknown provider " ++ dq ++ name ++ dq
              ++ lit ". Available: " ++ joinWith (lit ", ") names).

(** The rejection of the timer; [Math.round(timeout / 60_000)] rounds
    halves up. *)
Definition timeoutMessage (timeoutMs : N) (id : jsstring) : exn :=
  lit "Bridge timeout: agent exceeded " ++ toString10 timeoutMs
  ++ lit "ms (" ++ toString10 ((timeoutMs + 30000) / 60000)%N
  ++ lit "min) for request " ++ id.

(** [await Promise.race([provider.run(ctx), timeoutPromise])] *)
Definition raceM (provider : jsstring) (ctx : ProviderContext)
           (timeoutMs : N) (id : jsstring) : M W ProviderResult :=
  fun w =>
    let (o, w') := providerRace provider ctx timeoutMs w in
    mkOut (match o with
           | ProviderResolved r => Ok r
           | ProviderRejected e => Throw e
           | TimerFired => Throw (timeoutMessage timeoutMs id)
           end) w' [ERun provider ctx timeoutMs].

(** [request.metadata?.expectBranchPush === true] *)
Definition expectBranchPush (request : ExecutionRequest) : bool :=
  match req_metadata request with
  | Some o => match getProp o (lit "expectBranchPush") with
              | Some (JBool true) => true
              | _ => false
              end
  | None => false
  end.

(** The condition of lines 101-106; the result is the branch to verify. *)
Definition pushCheckBranch (request : ExecutionRequest) : option jsstring :=
  match req_workspace request with
  | Some (WsGit _ (Some branch) _) =>
      if truthy branch && negb (seqb branch (lit "main"))
         && expectBranchPush request
      then Some branch else None
  | _ => None
  end.

Definition pushVerificationError (branch : jsstring) (v : PushCheck) : jsstring :=
  lit "Git push verification failed: branch " ++ dq ++ branch ++ dq
  ++ lit " has unpushed changes: " ++ joinWith (lit ", ") (unpushedCommits v).

(** Lines 92-141: what follows the settled race. *)
Definition report (request : ExecutionRequest) (startMs : N) (cwd : jsstring)
           (providerResult : ProviderResult) : M W unit :=
  t <- now ;;
  let durationMs := (Z.of_N t - Z.of_N startMs)%Z in
  pushVerificationError_ <-
    match pushCheckBranch request with
    | Some branch =>
        verification <- call (CallVerifyGitPush cwd branch)
                             (verifyGitPush cwd branch) ;;
        if negb (pushed verification) then
          let msg := pushVerificationError branch verification in
          console Err (lit "[Bridge] " ++ msg) ;;
          ret (Some msg)
        else ret None
    | None => ret None
    end ;;
  match callbackTarget request with
  | Some url =>
      let payload :=
        {| cb_id := req_id request;
           cb_status := match pushVerificationError_ with
                        | Some _ => StError | None => StSuccess end;
           cb_durationMs := durationMs;
           cb_usage := pr_usage providerResult;
           cb_result := pr_output providerResult;
           cb_error := pushVerificationError_;
           cb_metadata := req_metadata request |} in
      call (CallSendCallback url payload) (sendCallback url payload)
  | None => ret tt
  end.

(** Lines 34-141: from the MCP merge to the callback. *)
Definition runAgent (request : ExecutionRequest) (config : BridgeConfig)
           (startMs : N) (cwd : jsstring) : M W unit :=
  overlayMcp <- loadMcpServers cwd ;;
  let requestMcp :=
    match req_agent request with
    | Some a => match agent_mcpServers a with Some o => o | None => [] end
    | None => []
    end in
  let mcpServers :=
    spread (match overlayMcp with JObj o => o | _ => [] end) requestMcp in
  let providerName :=
    match req_agent request with
    | Some {| agent_provider := Some p |} => p
    | _ => cfg_defaultProvider config
    end in
  provider <- getProvider providerName ;;
  let timeoutMs :=
    match req_agent request with
    | Some {| agent_timeoutMs := Some t |} => t
    | _ => cfg_timeout config
    end in
  let ctx :=
    {| ctx_cwd := cwd;
       ctx_prompt := req_prompt request;
       ctx_agent := req_agent request;
       ctx_mcpServers := mcpServers;
       ctx_executionId := req_id request;
       ctx_memoryUserId :=
         match req_metadata request with
         | Some o => match getProp o (lit "userId") with
                     | Some (JStr u) => Some u
                     | _ => None
                     end
         | None => None
         end |} in
  providerResult <-
    tryFinally (raceM provider ctx timeoutMs (req_id request))
               (emit EClearTimeout) ;;
  report request startMs cwd providerResult.

(** The [catch] block, lines 142-149. *)
Definition reportError (request : ExecutionRequest) (startMs : N)
           (errorMsg : exn) : M W unit :=
  now ;;
  console Err (lit "[Bridge] Error: " ++ errorMsg) ;;
  match callbackTarget request with
  | Some url =>
      payload <- buildErrorPayload request errorMsg startMs ;;
      call (CallSendCallback url payload) (sendCallback url payload)
  | None => ret tt
  end.

(** The [finally] block: [await cleanup?.()] *)
Definition finallyCleanup : M Frame unit :=
  c <- getCleanup ;;
  match c with
  | Some c => lift (call (CallCleanup c) (runCleanup c))
  | None => ret tt
  end.

Definition executeRequest (request : ExecutionRequest) : M W unit :=
  inFrame
    (startMs <- lift now ;;
     config <- lift (readWorld loadBridgeConfig) ;;
     if emptyPrompt request then
       let errorMsg := lit "Empty prompt received for request "
                       ++ req_id request in
       lift (console Err (lit "[Bridge] " ++ errorMsg)) ;;
       match callbackTarget request with
       | Some url =>
           payload <- lift (buildErrorPayload request errorMsg startMs) ;;
           lift (call (CallSendCallback url payload) (sendCallback url payload))
       | None => ret tt
       end
     else
       tryFinally
         (tryCatch
            (workspaceResult <-
               lift (call (CallSetupWorkspace (req_workspace request))
                          (setupWorkspace (req_workspace request) config)) ;;
             let cwd := ws_cwd workspaceResult in
             setCleanup (ws_cleanup workspaceResult) ;;
             lift (runAgent request config startMs cwd))
            (fun errorMsg => lift (reportError request startMs errorMsg)))
         finallyCleanup).

End Orchestrator.

(* ================================================================== *)
(** * http.ts: POST /execute *)
(* ================================================================== *)

Module Http.

Local Open Scope N_scope.

(** [Buffer.from(s)]: the UTF-8 bytes of a string; a surrogate without
    its pair becomes U+FFFD. *)
Fixpoint utf8 (s : jsstring) : list N :=
  match s with
  | [] => []
  | c :: r =>
      if c <? 128 then c :: utf8 r
      else if c <? 2048 then [192 + c / 64; 128 + c mod 64] ++ utf8 r
      else if (55296 <=? c) && (c <=? 56319) then
        match r with
        | d :: r' =>
            if (56320 <=? d) && (d <=? 57343) then
              let cp := 65536 + (c - 55296) * 1024 + (d - 56320) in
              [240 + cp / 262144; 128 + (cp / 4096) mod 64;
               128 + (cp / 64) mod 64; 128 + cp mod 64] ++ utf8 r'
            else [239; 191; 189] ++ utf8 r
        | [] => [239; 191; 189]
        end
      else if (56320 <=? c) && (c <=? 57343) then [239; 191; 189] ++ utf8 r
      else [224 + c / 4096; 128 + (c / 64) mod 64; 128 + c mod 64] ++ utf8 r
  end.

(** [timingSafeEqual(a, b)] throws on buffers of different lengths. *)
Definition timingSafeEqual (a b : list N) : result bool :=
  if Nat.eqb (List.length a) (List.length b) then Ok (seqb a b)
  else Throw (lit "Input buffers must have the same byte length").

Definition verifyBearerToken (authorization : option jsstring)
           (expected : jsstring) : result bool :=
  match authorization with
  | None => Ok false
  | Some auth =>
      match stripPrefix (lit "Bearer ") auth with
      | None => Ok false
      | Some token =>
          if negb (Nat.eqb (List.length token) (List.length expected))
          then Ok false
          else timingSafeEqual (utf8 token) (utf8 expected)
      end
  end.

Definition VALID_WORKSPACE_TYPES : list jsstring := [lit "git"; lit "tempdir"].

(** The fields of the configuration that the transport reads. *)
Record HttpConfig : Type := {
  httpNoAuth : bool;
  httpBearerToken : option jsstring
}.

Record HttpRequest : Type := {
  http_method : jsstring;
  http_pathname : jsstring;
  http_authorization : option jsstring;
  (** [readBody]: the text, or the rejection of a body over 1 MB *)
  http_body : result jsstring
}.

Record HttpResponse : Type := {
  http_status : N;
  http_json : JsObject
}.

(** The object that the handler gives to [queue.submit]; [workspace] and
    [agent] are the parsed values, cast without a check. *)
Record Submitted : Type := {
  sub_id : jsstring;
  sub_prompt : jsstring;
  sub_callbackUrl : option jsstring;
  sub_workspace : JsValue;
  sub_agent : JsValue;
  sub_metadata : option JsObject
}.

Definition json (status : N) (body : JsObject) : HttpResponse :=
  {| http_status := status; http_json := body |}.

Definition errorBody (msg : jsstring) : JsObject := [(lit "error", JStr msg)].

(** [!data.prompt || typeof data.prompt !== "string" ||
    data.prompt.trim() === ""], negated; the prompt when it is valid. *)
Definition validPrompt (data : JsValue) : option jsstring :=
  match field data (lit "prompt") with
  | JStr s => if truthy s && negb (seqb (trim s) []) then Some s else None
  | _ => None
  end.

(** Lines 119-125: the workspace is an object that is not an array, its
    [type] is not [undefined] and not one of the valid types. *)
Definition invalidWorkspaceType (data : JsValue) : bool :=
  match field data (lit "workspace") with
  | JObj ws =>
      match getProp ws (lit "type") with
      | None | Some JUndefined => false
      | Some (JStr t) => negb (existsb (seqb t) VALID_WORKSPACE_TYPES)
      | Some _ => true
      end
  | _ => false
  end.

Definition invalidTypeMessage : jsstring :=
  lit "Invalid workspace.type: must be one of "
  ++ joinWith (lit ", ") VALID_WORKSPACE_TYPES.

Definition stringField (data : JsValue) (k : jsstring) : option jsstring :=
  match field data k with JStr s => Some s | _ => None end.

(** Lines 112-144, on the parsed body. *)
Definition accept (uuid : jsstring) (data : JsValue)
  : result (HttpResponse * option Submitted) :=
  match data with
  | JNull | JUndefined =>
      Throw (lit "Cannot read properties of null (reading 'prompt')")
  | _ =>
      match validPrompt data with
      | None =>
          Ok (json 400 (errorBody (lit
                "Field 'prompt' is required and must be a non-empty string")),
              None)
      | Some prompt =>
          if invalidWorkspaceType data
          then Ok (json 400 (errorBody invalidTypeMessage), None)
          else
            let id := match stringField data (lit "id") with
                      | Some i => i | None => uuid end in
            let request :=
              {| sub_id := id;
                 sub_prompt := prompt;
                 sub_callbackUrl := stringField data (lit "callbackUrl");
                 sub_workspace := field data (lit "workspace");
                 sub_agent := field data (lit "agent");
                 sub_metadata :=
                   match field data (lit "metadata") with
                   | JObj m => Some m
                   | _ => None
                   end |} in
            Ok (json 202 [(lit "id", JStr id);
                          (lit "status", JStr (lit "accepted"))],
                Some request)
      end
  end.

(** Lines 87-92: [Ok false] answers 401. *)
Definition authorize (cfg : HttpConfig) (req : HttpRequest) : result bool :=
  if httpNoAuth cfg then Ok true
  else match httpBearerToken cfg with
       | Some token =>
           if truthy token
           then verifyBearerToken (http_authorization req) token
           else Ok false
       | None => Ok false
       end.

(** The request handler; [parse] is [JSON.parse], [uuid] the value of
    [randomUUID()], [health] the body of the health answer. *)
Definition handle (cfg : HttpConfig) (parse : jsstring -> result JsValue)
           (uuid : jsstring) (health : JsObject) (req : HttpRequest)
  : result (HttpResponse * option Submitted) :=
  if seqb (http_method req) (lit "GET")
     && seqb (http_pathname req) (lit "/health")
  then Ok (json 200 health, None)
  else if seqb (http_method req) (lit "POST")
          && seqb (http_pathname req) (lit "/execute")
  then
    match authorize cfg req with
    | Throw e => Throw e
    | Ok false => Ok (json 401 (errorBody (lit "Unauthorized")), None)
    | Ok true =>
        match http_body req with
        | Throw _ => Ok (json 413 (errorBody (lit "Request body too large")), None)
        | Ok rawBody =>
            match parse rawBody with
            | Throw _ => Ok (json 400 (errorBody (lit "Invalid JSON")), None)
            | Ok data => accept uuid data
            end
        end
    end
  else Ok (json 404 (errorBody (lit "Not found")), None).

(** ** The typed view of what was submitted *)

Definition optionalString (v : JsValue) : option (option jsstring) :=
  match v with
  | JUndefined => Some None
  | JStr s => Some (Some s)
  | _ => None
  end.

Definition optionalBool (v : JsValue) : option (option bool) :=
  match v with
  | JUndefined => Some None
  | JBool b => Some (Some b)
  | _ => None
  end.

Fixpoint stringMap (o : JsObject) : option (list (jsstring * jsstring)) :=
  match o with
  | [] => Some []
  | (k, JStr s) :: rest =>
      match stringMap rest with
      | Some m => Some ((k, s) :: m)
      | None => None
      end
  | _ => None
  end.

(** The [Workspace] that a parsed value is when the orchestrator reads
    it: [Some None] for a falsy value, [None] when a field has a value
    outside its declared type. *)
Definition asWorkspace (v : JsValue) : option (option Workspace) :=
  if negb (jsTruthy v) then Some None
  else
    match field v (lit "type") with
    | JStr t =>
        if seqb t (lit "git") then
          match field v (lit "repo"),
                optionalString (field v (lit "branch")),
                optionalBool (field v (lit "overlays")) with
          | JStr repo, Some branch, Some overlays =>
              Some (Some (WsGit repo branch overlays))
          | _, _, _ => None
          end
        else if seqb t (lit "tempdir") then
          match field v (lit "seedFiles") with
          | JUndefined => Some (Some (WsTempdir None))
          | JObj files =>
              match stringMap files with
              | Some m => Some (Some (WsTempdir (Some m)))
              | None => None
              end
          | _ => None
          end
        else Some (Some (WsOther (Some t)))
    | JUndefined => Some (Some (WsOther None))
    | _ => None
    end.

(** [r] is a typed reading of the submitted object [s]. *)
Definition represents (s : Submitted) (r : ExecutionRequest) : Prop :=
  req_id r = sub_id s /\
  req_prompt r = sub_prompt s /\
  req_callbackUrl r = sub_callbackUrl s /\
  asWorkspace (sub_workspace s) = Some (req_workspace r) /\
  req_metadata r = sub_metadata s.

End Http.

(* ================================================================== *)
(** * queue.ts: the request queue *)
(* ================================================================== *)

Module Queue.

Section Model.

(** The requests. *)
Variable R : Type.

(** Modelled from the spec: [queue.ts] is not among the sources.  The
    state is the one of section 3 (active count, FIFO backlog,
    configured maximum), with the requests started so far; the
    operations are those of section 4.1. *)
Record State : Type := {
  active : nat;
  queued : list R;
  maxConcurrent : nat;
  started : list R
}.

Definition init (max : nat) : State :=
  {| active := 0; queued := []; maxConcurrent := max; started := [] |}.

(** Modelled from the spec: the queue of [queue.ts]; starting an
    execution increments the active count. *)
Definition start (r : R) (s : State) : State :=
  {| active := S (active s); queued := queued s;
     maxConcurrent := maxConcurrent s; started := started s ++ [r] |}.

(** Modelled from the spec: the queue of [queue.ts]; [submit] begins the
    execution when the active count is below the maximum and appends
    the request to the backlog otherwise. *)
Definition submit (r : R) (s : State) : State :=
  if active s <? maxConcurrent s then start r s
  else {| active := active s; queued := queued s ++ [r];
          maxConcurrent := maxConcurrent s; started := started s |}.

(** Modelled from the spec: the queue of [queue.ts]; a completion
    decrements the active count, *)
Definition release (s : State) : State :=
  {| active := active s - 1; queued := queued s;
     maxConcurrent := maxConcurrent s; started := started s |}.

(** Modelled from the spec: the queue of [queue.ts]; and then, if the
    backlog is not empty, dequeues its head and starts it. *)
Definition promote (s : State) : State :=
  match queued s with
  | [] => s
  | r :: rest =>
      start r {| active := active s; queued := rest;
                 maxConcurrent := maxConcurrent s; started := started s |}
  end.

(** How an execution ended; the queue does not look. *)
Inductive Outcome : Type := Fulfilled | Rejected.

Definition complete (o : Outcome) (s : State) : State := promote (release s).

Inductive Action : Type :=
| Submit (r : R)
| Complete (o : Outcome).

(** The states that one action goes through, the last one last. *)
Definition instants (a : Action) (s : State) : list State :=
  match a with
  | Submit r => [submit r s]
  | Complete o => [release s; complete o s]
  end.

Definition apply (a : Action) (s : State) : State :=
  match a with
  | Submit r => submit r s
  | Complete o => complete o s
  end.

(** Every state observed while the actions run from [s]. *)
Fixpoint observed (s : State) (actions : list Action) : list State :=
  match actions with
  | [] => []
  | a :: rest => instants a s ++ observed (apply a s) rest
  end.

(** Only an execution that is running completes. *)
Fixpoint feasible (s : State) (actions : list Action) : Prop :=
  match actions with
  | [] => True
  | a :: rest =>
      match a with Complete _ => 0 < active s | Submit _ => True end
      /\ feasible (apply a s) rest
  end.

End Model.

Arguments init {R} max.
Arguments Submit {R} r.
Arguments Complete {R} o.

End Queue.

(* ================================================================== *)
(** * A simulated host, for running the program on concrete inputs *)
(* ================================================================== *)

Module Sim.

Record World : Type := {
  clock : N;                    (* the next reading of [Date.now()] *)
  tick : N;                     (* what a reading adds to the clock *)
  branches : list jsstring;     (* the heads of the bare stores *)
  headBranch : jsstring;        (* the default branch, where HEAD points *)
  tracking : list jsstring;     (* the [b] for which [origin/b] resolves *)
  unpushed : list jsstring;     (* what [git log origin/b..HEAD] lists *)
  remote : list jsstring;       (* the heads [ls-remote] finds on origin *)
  paths : list jsstring;        (* the paths that exist *)
  race : RaceOutcome;
  response : FetchOutcome;
  config : BridgeConfig
}.

Definition setClock (t : N) (w : World) : World :=
  {| clock := t; tick := tick w; branches := branches w;
     headBranch := headBranch w;
     tracking := tracking w; unpushed := unpushed w; remote := remote w;
     paths := paths w; race := race w; response := response w;
     config := config w |}.

Definition setPaths (ps : list jsstring) (w : World) : World :=
  {| clock := clock w; tick := tick w; branches := branches w;
     headBranch := headBranch w;
     tracking := tracking w; unpushed := unpushed w; remote := remote w;
     paths := ps; race := race w; response := response w;
     config := config w |}.

Definition mem (x : jsstring) (xs : list jsstring) : bool := existsb (seqb x) xs.

Definition remove (x : jsstring) (xs : list jsstring) : list jsstring :=
  filter (fun y => negb (seqb x y)) xs.

Definition stripSuffix (suffix s : jsstring) : option jsstring :=
  match stripPrefix (rev suffix) (rev s) with
  | Some r => Some (rev r)
  | None => None
  end.

Definition space : N := 32%N.

(** A revision that [git worktree add] can check out: a head of the
    store, or [HEAD], which is the default branch. *)
Definition resolves (ref : jsstring) (w : World) : bool :=
  mem ref (branches w)
  || (seqb ref (lit "HEAD") && mem (headBranch w) (branches w)).

(** The [git] binary, on the commands this program issues. *)
Definition git (cmd : jsstring) (w : World) : result jsstring * World :=
  if seqb cmd (lit "git worktree prune") then (Ok [], w)
  else if seqb cmd gitFetchCmd then (Ok [], w)
  else if startsWith (lit "git config ") cmd then (Ok [], w)
  else
  match stripPrefix (lit "git worktree add --detach ") cmd with
  | Some args =>
      match split1 space args with
      | [path; ref] =>
          if resolves ref w && negb (mem path (paths w))
          then (Ok [], setPaths (path :: paths w) w)
          else (Throw (lit "fatal: invalid reference: " ++ ref), w)
      | _ => (Throw (lit "usage: git worktree add"), w)
      end
  | None =>
  match stripPrefix (lit "git worktree remove --force ") cmd with
  | Some path =>
      if mem path (paths w) then (Ok [], setPaths (remove path (paths w)) w)
      else (Throw (lit "fatal: not a working tree: " ++ path), w)
  | None =>
  match stripPrefix (lit "git clone --bare ") cmd with
  | Some args =>
      match split1 space args with
      | [_; path] => (Ok [], setPaths (path :: paths w) w)
      | _ => (Throw (lit "usage: git clone"), w)
      end
  | None =>
  match stripPrefix (lit "git ls-remote --heads origin ") cmd with
  | Some b =>
      (Ok (if mem b (remote w)
           then lit "0a1b2c3d" ++ [9%N] ++ lit "refs/heads/" ++ b ++ [LF]
           else []), w)
  | None =>
  match stripPrefix (lit "git log --oneline origin/") cmd with
  | Some range =>
      match stripSuffix (lit "..HEAD") range with
      | Some b =>
          if mem b (tracking w)
          then (Ok (concat (map (fun l => l ++ [LF]) (unpushed w))), w)
          else (Throw (lit "fatal: ambiguous argument: unknown revision"), w)
      | None => (Throw (lit "usage: git log"), w)
      end
  | None => (Throw (lit "git: not a git command"), w)
  end end end end end.

(** The words that end the [git log] line of [verifyGitPush]. *)
Definition orEcho : jsstring := lit " 2>/dev/null || echo " ++ dq ++ dq.

(** [/bin/sh -c cmd]: [c || echo ""] prints an empty line when [c]
    fails and succeeds. *)
Definition sh (cmd : jsstring) (w : World) : result jsstring * World :=
  match stripSuffix orEcho cmd with
  | Some c =>
      match git c w with
      | (Ok out, w') => (Ok out, w')
      | (Throw _, w') => (Ok [LF], w')
      end
  | None => git cmd w
  end.

Definition fs (c : FsCall) (w : World) : result jsstring * World :=
  match c with
  | MkdirRecursive p => (Ok [], setPaths (p :: paths w) w)
  | Mkdtemp prefix =>
      let dir := prefix ++ toString36 (clock w) in
      (Ok dir, setPaths (dir :: paths w) w)
  | WriteFile p _ => (Ok [], setPaths (p :: paths w) w)
  | RmRecursiveForce p => (Ok [], setPaths (remove p (paths w)) w)
  | CpRecursive _ dst => (Ok [], setPaths (dst :: paths w) w)
  end.

#[global] Instance host : Host World := {
  dateNow := fun w => (clock w, setClock (clock w + tick w)%N w);
  processCwd := fun _ => lit "/srv/bridge";
  osTmpdir := fun _ => lit "/tmp";
  exec := fun cmd _ w => sh cmd w;
  fsCall := fs;
  existsSync := fun p w => mem p (paths w);
  readdirSync := fun _ _ => Ok [];
  readFileSync := fun p _ => Throw (lit "ENOENT: no such file, open " ++ p);
  jsonParse := fun _ => Throw (lit "Unexpected token");
  loadBridgeConfig := config;
  providerNames := fun _ => [lit "claude-code"];
  providerRace := fun _ _ _ w => (race w, w);
  fetchPost := fun _ _ w => (response w, w)
}.

Definition defaultConfig : BridgeConfig :=
  {| cfg_baseDir := lit "/tmp/agent-bridge";
     cfg_reposDir := lit "/tmp/agent-bridge/repos";
     cfg_worktreesDir := lit "/tmp/agent-bridge/worktrees";
     cfg_overlaysDir := lit "/srv/bridge/.overlays";
     cfg_timeout := 1800000%N;
     cfg_maxConcurrent := 3%N;
     cfg_defaultProvider := lit "claude-code" |}.

Definition okResult : ProviderResult :=
  {| pr_status := StSuccess; pr_output := Some (lit "done");
     pr_error := None;
     pr_usage := {| totalCostUsd := (1 # 4)%Q; inputTokens := 1200%Q;
                    outputTokens := 340%Q; numTurns := 3%Q |} |}.

(** A world with a bare store whose heads are [heads], the first of them
    the default branch. *)
Definition worldWith (heads : list jsstring) (outcome : RaceOutcome) : World :=
  {| clock := 1730000000000%N; tick := 1%N;
     branches := heads; headBranch := hd (lit "main") heads;
     tracking := []; unpushed := []; remote := heads;
     paths := []; race := outcome;
     response := FetchResponse true 200%N [];
     config := defaultConfig |}.

End Sim.

(* ================================================================== *)
(** * Reading traces *)
(* ================================================================== *)

(** The counted calls of a trace that satisfy [p], in order. *)
Fixpoint calls (p : Call -> bool) (tr : list Event) : list Call :=
  match tr with
  | [] => []
  | ECall c :: rest => if p c then c :: calls p rest else calls p rest
  | _ :: rest => calls p rest
  end.

Definition isCleanup (c : Call) : bool :=
  match c with CallCleanup _ => true | _ => false end.
Definition isSetup (c : Call) : bool :=
  match c with CallSetupWorkspace _ => true | _ => false end.
Definition isVerify (c : Call) : bool :=
  match c with CallVerifyGitPush _ _ => true | _ => false end.
Definition isSend (c : Call) : bool :=
  match c with CallSendCallback _ _ => true | _ => false end.

(** The commands given to [exec], in order. *)
Fixpoint commands (tr : list Event) : list jsstring :=
  match tr with
  | [] => []
  | EExec cmd _ :: rest => cmd :: commands rest
  | _ :: rest => commands rest
  end.

(** The lines written to the console, in order. *)
Fixpoint consoleLines (tr : list Event) : list jsstring :=
  match tr with
  | [] => []
  | EConsole _ msg :: rest => msg :: consoleLines rest
  | _ :: rest => consoleLines rest
  end.

(** The computation [m] makes none of the calls [p]. *)
Definition silent {S A : Type} (p : Call -> bool) (m : M S A) : Prop :=
  forall s, calls p (trace (m s)) = [].

(** The trace has no command of [exec] and no writing file-system
    call. *)
Definition untouched (tr : list Event) : Prop :=
  forall e, In e tr ->
    match e with EExec _ _ | EFs _ => False | _ => True end.

(* ================================================================== *)
(** * The vocabulary of the properties *)
(* ================================================================== *)

(** What [executeRequest] tests before it verifies a push (bridge.ts
    97-102): the workspace is git-backed, the branch [b] was requested,
    is not the empty string and is not the name [main] -- the literal,
    whatever the default branch of the repository is -- and
    [metadata.expectBranchPush] is exactly [true]. *)
Definition verificationRequested (request : ExecutionRequest) (b : jsstring) : Prop :=
  exists repo overlays meta,
    req_workspace request = Some (WsGit repo (Some b) overlays) /\
    b <> [] /\ b <> lit "main" /\
    req_metadata request = Some meta /\
    getProp meta (lit "expectBranchPush") = Some (JBool true).

Definition notPushed (commits : list jsstring) : PushCheck :=
  {| pushed := false; unpushedCommits := commits |}.

(** The race never settles with a result: the provider rejects or the
    timer fires first. *)
Definition neverResolves (W : Type) {host : Host W} : Prop :=
  forall prov ctx t (w : W) r,
    fst (providerRace prov ctx t w) <> ProviderResolved r.

Arguments neverResolves W {host}.

(** The invariant of the queue. *)
Definition bounded {R : Type} (s : Queue.State R) : Prop :=
  Queue.active s <= Queue.maxConcurrent s.


Definition notSlash (c : N) : bool := negb (N.eqb c slash).

(** A name that [normalize] keeps as it is: not empty, without a slash,
    neither [.] nor [..]. *)
Definition plainSegment (seg : jsstring) : Prop :=
  seg <> [] /\ forallb notSlash seg = true /\
  seqb seg [dot] = false /\ seqb seg Path.dotdot = false.

Fixpoint takeWhile (f : N -> bool) (s : jsstring) : jsstring :=
  match s with
  | c :: r => if f c then c :: takeWhile f r else []
  | [] => []
  end.

(** What follows the last slash of a path. *)
Definition lastSegment (p : jsstring) : jsstring :=
  rev (takeWhile notSlash (rev p)).

(** [q] is empty or ends with a slash. *)
Definition slashEnded (q : jsstring) : Prop :=
  q = [] \/ exists x, q = x ++ [slash].

(* ================================================================== *)
(** * Concrete inputs *)
(* ================================================================== *)

Module PushExamples.

Definition cwd : jsstring := lit "/tmp/agent-bridge/worktrees/wt-1".
Definition feature : jsstring := lit "feature-x".

(** A worktree in which [origin/feature-x] does not resolve, so that
    [git log] fails; the remote has no such branch either. *)
Definition noTracking : Sim.World := Sim.worldWith [lit "main"] TimerFired.

(** The same worktree when the remote has the branch. *)
Definition onRemote : Sim.World :=
  Sim.worldWith [lit "main"; feature] TimerFired.

End PushExamples.

Module WorktreeExamples.

Definition bare : jsstring := lit "/tmp/agent-bridge/repos/owner--repo.git".
Definition dir : jsstring := lit "/tmp/agent-bridge/worktrees".


(** A store whose only and default branch is [master]. *)
Definition masterOnly : Sim.World := Sim.worldWith [lit "master"] TimerFired.

(** A store with [main], without the branch that is asked for. *)
Definition mainOnly : Sim.World := Sim.worldWith [lit "main"] TimerFired.

Definition path1 : jsstring := lit "/tmp/agent-bridge/worktrees/wt-m2r1bz7k".

End WorktreeExamples.

Module Examples.

Definition url : jsstring := lit "https://caller.example/callback".

(** A request for a git workspace on [feature-x] that asks for the push
    to be verified. *)
Definition pushRequest : ExecutionRequest :=
  {| req_id := lit "req-7";
     req_prompt := lit "fix the failing test and push";
     req_callbackUrl := Some url;
     req_workspace :=
       Some (WsGit (lit "owner/repo") (Some (lit "feature-x")) None);
     req_agent := None;
     req_metadata := Some [(lit "expectBranchPush", JBool true)] |}.

(** A store and a remote that both have [main] and [feature-x]. *)
Definition pushedWorld : Sim.World :=
  Sim.worldWith [lit "main"; lit "feature-x"] (ProviderResolved Sim.okResult).

(** The branch was never pushed: the remote has [main] only. *)
Definition unpushedWorld : Sim.World :=
  {| Sim.clock := 1730000000000%N; Sim.tick := 1%N;
     Sim.branches := [lit "main"; lit "feature-x"];
     Sim.headBranch := lit "main";
     Sim.tracking := []; Sim.unpushed := []; Sim.remote := [lit "main"];
     Sim.paths := []; Sim.race := ProviderResolved Sim.okResult;
     Sim.response := FetchResponse true 200%N [];
     Sim.config := Sim.defaultConfig |}.

Definition worktree : jsstring := lit "/tmp/agent-bridge/worktrees/wt-m2r1bz7l".

Definition blankRequest : ExecutionRequest :=
  {| req_id := lit "req-8";
     req_prompt := [32%N; 9%N; 10%N; 160%N];
     req_callbackUrl := Some url;
     req_workspace := Some (WsTempdir None);
     req_agent := None;
     req_metadata := None |}.

(** [{ "prompt": "say hello", "workspace": { "repo": "owner/repo" } }] *)
Definition untypedBody : JsValue :=
  JObj [(lit "prompt", JStr (lit "say hello"));
        (lit "workspace", JObj [(lit "repo", JStr (lit "owner/repo"))])].

Definition post : Http.HttpRequest :=
  {| Http.http_method := lit "POST";
     Http.http_pathname := lit "/execute";
     Http.http_authorization := None;
     Http.http_body := Ok (lit "{...}") |}.

Definition openConfig : Http.HttpConfig :=
  {| Http.httpNoAuth := true; Http.httpBearerToken := None |}.

Definition burst : list (Queue.Action nat) :=
  [Queue.Submit 1; Queue.Submit 2; Queue.Submit 3; Queue.Submit 4;
   Queue.Complete Queue.Fulfilled; Queue.Complete Queue.Rejected;
   Queue.Submit 5; Queue.Complete Queue.Fulfilled].

End Examples.

(* ================================================================== *)
(** * More vocabulary: one run of a program, and the events of a trace *)
(* ================================================================== *)

(** [wp m s Q]: the outcome of [m] from the state [s] satisfies [Q]. *)
Definition wp {S A : Type} (m : M S A) (s : S) (Q : Out S A -> Prop) : Prop :=
  Q (m s).

(** The outcome [o] after the events [tr]. *)
Definition after {S A : Type} (tr : list Event) (o : Out S A) : Out S A :=
  mkOut (res o) (st o) (tr ++ trace o).

(** The computation [m] emits no event that [q] selects. *)
Definition avoids {S A : Type} (q : Event -> bool) (m : M S A) : Prop :=
  forall s, filter q (trace (m s)) = [].

Definition isExec (e : Event) : bool :=
  match e with EExec _ _ => true | _ => false end.
Definition isFs (e : Event) : bool :=
  match e with EFs _ => true | _ => false end.
Definition isTouch (e : Event) : bool := isExec e || isFs e.
Definition isFetch (e : Event) : bool :=
  match e with EFetch _ _ => true | _ => false end.
Definition isRun (e : Event) : bool :=
  match e with ERun _ _ _ => true | _ => false end.
Definition isClearTimeout (e : Event) : bool :=
  match e with EClearTimeout => true | _ => false end.
Definition isCopy (e : Event) : bool :=
  match e with EFs (CpRecursive _ _) => true | _ => false end.

(** The file-system calls of a trace, in order. *)
Fixpoint fsCalls (tr : list Event) : list FsCall :=
  match tr with
  | [] => []
  | EFs c :: rest => c :: fsCalls rest
  | _ :: rest => fsCalls rest
  end.

(** The code units that are neither a slash nor a dot: [[^/.]]. *)
Definition notSlashDot (c : N) : bool := negb (N.eqb c slash || N.eqb c dot).

(** [repoRegex] after its optional host prefix. *)
Definition repoTail : regex :=
  RSeq (RGroup
          (RSeq (RPlus false (fun c => negb (N.eqb c slash)))
          (RSeq (RChars [slash])
                (RPlus true (fun c => negb (N.eqb c slash || N.eqb c dot))))))
  (RSeq (ROpt (RChars (lit ".git"))) REnd).

(** The continuation of [search]: the match ends, the capture is kept. *)
Definition capture : jsstring -> option jsstring -> option (option jsstring) :=
  fun _ cap => Some cap.

(** The lines written with [console.error], in order. *)
Fixpoint errorLines (tr : list Event) : list jsstring :=
  match tr with
  | [] => []
  | EConsole Err msg :: rest => msg :: errorLines rest
  | _ :: rest => errorLines rest
  end.

(** The commands given to [exec] with their working directories. *)
Fixpoint execs (tr : list Event) : list (jsstring * option jsstring) :=
  match tr with
  | [] => []
  | EExec cmd cwd :: rest => (cmd, cwd) :: execs rest
  | _ :: rest => execs rest
  end.

Definition removeCmd (worktreePath : jsstring) : jsstring :=
  lit "git worktree remove --force " ++ worktreePath.

(** An event that removes a workspace: [git worktree remove] or
    [rmSync]. *)
Definition isRemoval (e : Event) : bool :=
  match e with
  | EExec cmd _ => startsWith (lit "git worktree remove") cmd
  | EFs (RmRecursiveForce _) => true
  | _ => false
  end.

(** Every call of [node:fs] succeeds. *)
Definition fsReliable (W : Type) {host : Host W} : Prop :=
  forall c (w : W), exists x w', fsCall c w = (Ok x, w').

Arguments fsReliable W {host}.

(** The URL that [ensureBareClone] clones. *)
Definition cloneUrl (repo : jsstring) : jsstring :=
  if includes (lit "github.com") repo then repo
  else lit "https://github.com/" ++ repo ++ lit ".git".

Definition cloneCmd (repo barePath : jsstring) : jsstring :=
  lit "git clone --bare " ++ cloneUrl repo ++ lit " " ++ barePath.

Definition configNameCmd : jsstring :=
  lit "git config user.name " ++ dq ++ lit "Agent Bridge" ++ dq.
Definition configEmailCmd : jsstring :=
  lit "git config user.email " ++ dq ++ lit "bridge@agent-bridge.local" ++ dq.

(** The two calls that write one seed file of a temporary directory. *)
Definition seedCalls (dir : jsstring) (f : jsstring * jsstring) : list FsCall :=
  [MkdirRecursive (Path.dirname (Path.join dir (fst f)));
   WriteFile (Path.join dir (fst f)) (snd f)].

(** What an execution delivers: one POST to the callback URL, carrying
    the id and the metadata of the request, when the URL is truthy; no
    POST at all otherwise. *)
Definition posted (request : ExecutionRequest) (tr : list Event) : Prop :=
  match callbackTarget request with
  | Some url =>
      exists p, filter isFetch tr = [EFetch url p] /\
                cb_id p = req_id request /\
                cb_metadata p = req_metadata request
  | None => filter isFetch tr = []
  end.

(** [request.agent?.provider ?? config.defaultProvider] *)
Definition effectiveProvider (request : ExecutionRequest)
           (config : BridgeConfig) : jsstring :=
  match req_agent request with
  | Some a => match agent_provider a with
              | Some p => p
              | None => cfg_defaultProvider config
              end
  | None => cfg_defaultProvider config
  end.

(** [request.agent?.limits?.timeoutMs ?? config.timeout] *)
Definition effectiveTimeout (request : ExecutionRequest)
           (config : BridgeConfig) : N :=
  match req_agent request with
  | Some a => match agent_timeoutMs a with
              | Some t => t
              | None => cfg_timeout config
              end
  | None => cfg_timeout config
  end.

(** The provider context that [runAgent] builds from the request. *)
Definition contextOf (request : ExecutionRequest) (cwd : jsstring)
           (ctx : ProviderContext) : Prop :=
  ctx_cwd ctx = cwd /\
  ctx_prompt ctx = req_prompt request /\
  ctx_executionId ctx = req_id request /\
  ctx_agent ctx = req_agent request.

(** [request.agent?.mcpServers ?? {}] *)
Definition requestMcp (request : ExecutionRequest) : JsObject :=
  match req_agent request with
  | Some a => match agent_mcpServers a with Some o => o | None => [] end
  | None => []
  end.

(** A string of ASCII code units. *)
Definition ascii7 (s : jsstring) : bool := forallb (fun c => (c <? 128)%N) s.

(* ================================================================== *)
(** * http.ts: readBody *)
(* ================================================================== *)

(** The events of the request stream that [readBody] listens to. *)
Inductive StreamEvent : Type :=
| SData (chunk : list N)                 (* "data", with a Buffer *)
| SEnd                                   (* "end" *)
| SError (e : exn).                      (* "error" *)

(** The locals [size] and [chunks] of [readBody], and its promise:
    [None] while it is pending. *)
Record BodyState : Type := {
  body_size : N;
  body_chunks : list (list N);
  body_settled : option (result (list N))
}.

Definition MAX_BODY_BYTES : N := 1048576%N.

(** [resolve] and [reject] settle a pending promise and do nothing to a
    settled one. *)
Definition settle (r : result (list N)) (s : BodyState) : BodyState :=
  match body_settled s with
  | Some _ => s
  | None => {| body_size := body_size s; body_chunks := body_chunks s;
               body_settled := Some r |}
  end.

(** The three listeners.  The body is kept as the bytes of
    [Buffer.concat(chunks)]; their decoding is left out. *)
Definition onStreamEvent (s : BodyState) (ev : StreamEvent) : BodyState :=
  match ev with
  | SData chunk =>
      let size := (body_size s + N.of_nat (List.length chunk))%N in
      if (MAX_BODY_BYTES <? size)%N
      then settle (Throw (lit "Body too large"))
                  {| body_size := size; body_chunks := body_chunks s;
                     body_settled := body_settled s |}
      else {| body_size := size; body_chunks := body_chunks s ++ [chunk];
              body_settled := body_settled s |}
  | SEnd => settle (Ok (concat (body_chunks s))) s
  | SError e => settle (Throw e) s
  end.

(** How the promise of [readBody] stands after the events. *)
Definition readBody (events : list StreamEvent) : option (result (list N)) :=
  body_settled
    (fold_left onStreamEvent events
               {| body_size := 0; body_chunks := []; body_settled := None |}).

(** While the promise is pending, [size] is the number of bytes kept,
    and it is within the limit. *)
Definition pendingInv (s : BodyState) : Prop :=
  match body_settled s with
  | None =>
      body_size s = N.of_nat (List.length (concat (body_chunks s))) /\
      (body_size s <= MAX_BODY_BYTES)%N
  | Some (Ok body) => (N.of_nat (List.length body) <= MAX_BODY_BYTES)%N
  | Some (Throw _) => True
  end.

(* ================================================================== *)
(** * pusher.ts *)
(* ================================================================== *)

Module Pusher.

(** [v && typeof v === "object" && !Array.isArray(v)] *)
Definition plainObject (v : JsValue) : option JsObject :=
  match v with JObj o => Some o | _ => None end.

(** [if (sdk.k) target.k2 = sdk.k] on an object that has no [k2] yet. *)
Definition copyTruthy (sdk : JsValue) (k k2 : jsstring) (target : JsObject)
  : JsObject :=
  if jsTruthy (field sdk k) then target ++ [(k2, field sdk k)] else target.

(** [if (sdk.k !== undefined) target.k = sdk.k] *)
Definition copyDefined (sdk : JsValue) (k : jsstring) (target : JsObject)
  : JsObject :=
  match field sdk k with
  | JUndefined => target
  | v => target ++ [(k, v)]
  end.

(** [if (Object.keys(o).length > 0) target.k = o] *)
Definition attach (k : jsstring) (o : JsObject) (target : JsObject) : JsObject :=
  match o with
  | [] => target
  | _ :: _ => target ++ [(k, JObj o)]
  end.

(** Lines 42-67: the agent made from [sdkOptions]; [undefined] when it
    stays empty. *)
Definition legacyAgent (sdk : JsValue) : JsValue :=
  let agent :=
    copyTruthy sdk (lit "env") (lit "env")
      (copyTruthy sdk (lit "disallowedTools") (lit "disallowedTools")
         (copyTruthy sdk (lit "outputFormat") (lit "outputFormat")
            (copyTruthy sdk (lit "systemPrompt") (lit "systemPrompt")
               (copyTruthy sdk (lit "model") (lit "model") [])))) in
  let limits :=
    copyDefined sdk (lit "maxBudgetUsd")
      (copyDefined sdk (lit "maxTurns") []) in
  let agent := attach (lit "limits") limits agent in
  let providerConfig :=
    copyTruthy sdk (lit "allowedTools") (lit "allowedTools")
      (copyDefined sdk (lit "maxThinkingTokens")
         (copyTruthy sdk (lit "permissionMode") (lit "permissionMode") [])) in
  let agent := attach (lit "providerConfig") providerConfig agent in
  match agent with
  | [] => JUndefined
  | _ :: _ => JObj agent
  end.

(** [{ type: "git", repo, branch, overlays: true }] *)
Definition legacyWorkspace (repo : jsstring) (branch : option jsstring) : JsValue :=
  JObj [(lit "type", JStr (lit "git"));
        (lit "repo", JStr repo);
        (lit "branch", match branch with Some b => JStr b | None => JUndefined end);
        (lit "overlays", JBool true)].

(** [normalizeRequest(data)]; [uuid] is the value of [randomUUID()].
    The cast [data.prompt as string] is read on string prompts, the
    only ones that the handler lets through. *)
Definition normalizeRequest (uuid : jsstring) (data : JsObject)
  : Http.Submitted :=
  let d := JObj data in
  let id := match Http.stringField d (lit "id") with
            | Some i => i | None => uuid end in
  let prompt := match field d (lit "prompt") with JStr s => s | _ => [] end in
  let callbackUrl := Http.stringField d (lit "callbackUrl") in
  let metadata := plainObject (field d (lit "metadata")) in
  if jsTruthy (field d (lit "workspace")) || jsTruthy (field d (lit "agent"))
  then {| Http.sub_id := id; Http.sub_prompt := prompt;
          Http.sub_callbackUrl := callbackUrl;
          Http.sub_workspace := field d (lit "workspace");
          Http.sub_agent := field d (lit "agent");
          Http.sub_metadata := metadata |}
  else
    let repo := Http.stringField d (lit "repo") in
    let branch := Http.stringField d (lit "branch") in
    {| Http.sub_id := id; Http.sub_prompt := prompt;
       Http.sub_callbackUrl := callbackUrl;
       Http.sub_workspace :=
         match repo with
         | Some r => if truthy r then legacyWorkspace r branch else JUndefined
         | None => JUndefined
         end;
       Http.sub_agent :=
         match plainObject (field d (lit "sdkOptions")) with
         | Some sdk => legacyAgent (JObj sdk)
         | None => JUndefined
         end;
       Http.sub_metadata := metadata |}.

(** The handler of the run event: what it gives to [queue.submit],
    [None] when it skips the event. *)
Definition onRunEvent (uuid : jsstring) (data : JsObject)
  : option Http.Submitted :=
  match field (JObj data) (lit "prompt") with
  | JStr s => if truthy s then Some (normalizeRequest uuid data) else None
  | _ => None
  end.

End Pusher.

(* ================================================================== *)
(** * providers/claude-code.ts *)
(* ================================================================== *)

Module ClaudeCode.

(** [[...new Set(xs)]]: the first occurrence of each element, in order. *)
Fixpoint dedupe (xs : list jsstring) : list jsstring :=
  match xs with
  | [] => []
  | x :: rest => x :: filter (fun y => negb (seqb x y)) (dedupe rest)
  end.

(** [options.disallowedTools]; [callerDisallowed] is
    [agent.disallowedTools ?? []]. *)
Definition disallowedTools (nonInteractiveDisallowed callerDisallowed
                            : list jsstring) : list jsstring :=
  dedupe (nonInteractiveDisallowed ++ callerDisallowed).

(** [v ?? 0] on the counters of a result message, which the SDK
    declares as numbers. *)
Definition numberOr0 (v : JsValue) : Q :=
  match v with JNum q => q | _ => 0%Q end.

Section Run.

(** [JSON.stringify] *)
Variable stringify : JsValue -> jsstring.

Definition initialResult : ProviderResult :=
  {| pr_status := StSuccess; pr_output := None; pr_error := None;
     pr_usage := zeroUsage |}.

(** The result built from a message of type [result]. *)
Definition resultOf (r : JsValue) : ProviderResult :=
  {| pr_status := StSuccess;
     pr_output :=
       if jsTruthy (field r (lit "structured_output"))
       then Some (stringify (field r (lit "structured_output")))
       else match field r (lit "result") with
            | JStr s => if truthy s then Some s else None
            | _ => None
            end;
     pr_error := None;
     pr_usage :=
       {| totalCostUsd := numberOr0 (field r (lit "total_cost_usd"));
          inputTokens :=
            numberOr0 (field (field r (lit "usage")) (lit "input_tokens"));
          outputTokens :=
            numberOr0 (field (field r (lit "usage")) (lit "output_tokens"));
          numTurns := numberOr0 (field r (lit "num_turns")) |} |}.

Definition isResult (message : JsValue) : bool :=
  match field message (lit "type") with
  | JStr t => seqb t (lit "result")
  | _ => false
  end.

(** The loop over the messages of [query]; the log lines are left out. *)
Definition collect (messages : list JsValue) : ProviderResult :=
  fold_left (fun result message =>
               if isResult message then resultOf message else result)
            messages initialResult.

End Run.

End ClaudeCode.

(* ================================================================== *)
(** * config.ts: the cache of the environment *)
(* ================================================================== *)

Module Config.

Record CacheEntry : Type := {
  entry_value : option jsstring;
  expiresAt : N
}.

Definition EnvCache : Type := list (jsstring * CacheEntry).

Definition ENV_CACHE_TTL : N := 60000%N.

(** [envCache.get(key)] *)
Fixpoint get (cache : EnvCache) (key : jsstring) : option CacheEntry :=
  match cache with
  | [] => None
  | (k, e) :: rest => if seqb k key then Some e else get rest key
  end.

(** [envCache.set(key, e)] *)
Definition set (key : jsstring) (e : CacheEntry) (cache : EnvCache) : EnvCache :=
  (key, e) :: filter (fun kv => negb (seqb (fst kv) key)) cache.

(** [v ?? fallback] *)
Definition orElse (v fallback : option jsstring) : option jsstring :=
  match v with Some x => Some x | None => fallback end.

(** [envCached(key, fallback)] at the clock reading [now], with
    [process.env] as [env]. *)
Definition envCached (env : jsstring -> option jsstring) (now : N)
           (key : jsstring) (fallback : option jsstring) (cache : EnvCache)
  : option jsstring * EnvCache :=
  let refresh :=
    (orElse (env key) fallback,
     set key {| entry_value := env key;
                expiresAt := (now + ENV_CACHE_TTL)%N |} cache) in
  match get cache key with
  | Some cached =>
      if (now <? expiresAt cached)%N
      then (orElse (entry_value cached) fallback, cache)
      else refresh
  | None => refresh
  end.

Definition clearEnvCache (cache : EnvCache) : EnvCache := [].

(** The cache has nothing to serve for [key] at [now]. *)
Definition stale (cache : EnvCache) (key : jsstring) (now : N) : Prop :=
  match get cache key with
  | Some cached => (expiresAt cached <= now)%N
  | None => True
  end.

End Config.

(* ================================================================== *)
(** * More concrete inputs *)
(* ================================================================== *)

Module MoreExamples.

Definition reposDir : jsstring := lit "/tmp/agent-bridge/repos".

(** One seed file in a sub-directory. *)
Definition seedFiles : list (jsstring * jsstring) :=
  [(lit "notes/todo.md", lit "- ship it")].

Definition tempdir : jsstring := lit "/tmp/bridge-m2r1bz7k".

(** A request that brings an MCP server of its own. *)
Definition mcpRequest : ExecutionRequest :=
  {| req_id := lit "req-9";
     req_prompt := lit "list the open issues";
     req_callbackUrl := None;
     req_workspace := None;
     req_agent :=
       Some {| agent_provider := None; agent_model := None;
               agent_mcpServers :=
                 Some [(lit "tracker",
                        JObj [(lit "type", JStr (lit "http"));
                              (lit "url", JStr (lit "https://tracker.example/mcp"))])];
               agent_timeoutMs := Some 60000%N;
               agent_passthrough := JObj [] |};
     req_metadata := None |}.

Definition mcpContext : ProviderContext :=
  {| ctx_cwd := lit "/srv/bridge";
     ctx_prompt := lit "list the open issues";
     ctx_agent := req_agent mcpRequest;
     ctx_mcpServers :=
       [(lit "tracker",
         JObj [(lit "type", JStr (lit "http"));
               (lit "url", JStr (lit "https://tracker.example/mcp"))])];
     ctx_executionId := lit "req-9";
     ctx_memoryUserId := None |}.

Definition world : Sim.World := Sim.worldWith [] (ProviderResolved Sim.okResult).

(** A token checked against [s3cret]. *)
Definition secret : jsstring := lit "s3cret".

(** [{ "prompt": "say hello", "workspace": { "repo": "owner/repo" } }]
    as the orchestrator reads it. *)
Definition untypedRequest : ExecutionRequest :=
  {| req_id := lit "0b7e";
     req_prompt := lit "say hello";
     req_callbackUrl := None;
     req_workspace := Some (WsOther None);
     req_agent := None;
     req_metadata := None |}.

(** A legacy event: [repo], [branch] and [sdkOptions]. *)
Definition legacyEvent : JsObject :=
  [(lit "prompt", JStr (lit "bump the version"));
   (lit "repo", JStr (lit "owner/repo"));
   (lit "branch", JStr (lit "release"));
   (lit "sdkOptions",
    JObj [(lit "model", JStr (lit "sonnet"));
          (lit "maxTurns", JNum 5%Q)])].

(** An event whose prompt is a space and a tab. *)
Definition blankEvent : JsObject := [(lit "prompt", JStr [32%N; 9%N])].

(** [BRIDGE_TIMEOUT] before and after a change of the environment. *)
Definition envBefore (key : jsstring) : option jsstring :=
  if seqb key (lit "BRIDGE_TIMEOUT") then Some (lit "1000") else None.
Definition envAfter (key : jsstring) : option jsstring :=
  if seqb key (lit "BRIDGE_TIMEOUT") then Some (lit "2000") else None.

End MoreExamples.

(* ================================================================== *)
(** * More vocabulary: how an execution reaches its provider *)
(* ================================================================== *)

(** The context that [runAgent] hands to the provider (bridge.ts 63-73),
    for the working directory [cwd] and the value [overlayMcp] that
    [loadMcpServers] returned. *)
Definition providerContext (request : ExecutionRequest) (cwd : jsstring)
           (overlayMcp : JsValue) : ProviderContext :=
  {| ctx_cwd := cwd;
     ctx_prompt := req_prompt request;
     ctx_agent := req_agent request;
     ctx_mcpServers :=
       spread (match overlayMcp with JObj o => o | _ => [] end)
              (requestMcp request);
     ctx_executionId := req_id request;
     ctx_memoryUserId :=
       match req_metadata request with
       | Some o => match getProp o (lit "userId") with
                   | Some (JStr u) => Some u
                   | _ => None
                   end
       | None => None
       end |}.

(** The execution of [request] from the world [w] passes the prompt
    guard, [setupWorkspace] returns [handle], [loadMcpServers] returns,
    the provider is a registered one, and the race between
    [provider.run(ctx)] and the timer settles as [o], leaving the world
    [w3].  These are the host's answers, in the order in which
    [executeRequest] asks for them. *)
Definition settles {W : Type} {host : Host W} (request : ExecutionRequest)
           (w : W) (handle : WorkspaceResult) (o : RaceOutcome) (w3 : W)
  : Prop :=
  emptyPrompt request = false /\
  let w1 := snd (dateNow w) in
  let config := loadBridgeConfig w1 in
  let o1 := setupWorkspace (req_workspace request) config w1 in
  res o1 = Ok handle /\
  exists overlayMcp,
    res (loadMcpServers (ws_cwd handle) (st o1)) = Ok overlayMcp /\
    existsb (seqb (effectiveProvider request config)) (providerNames (st o1))
    = true /\
    providerRace (effectiveProvider request config)
                 (providerContext request (ws_cwd handle) overlayMcp)
                 (effectiveTimeout request config) (st o1)
    = (o, w3).


(* ================================================================== *)
(** * Scenarios *)
(* ================================================================== *)

Module Scenarios.

Definition url : jsstring := lit "https://caller.example/callback".

(** A request without a workspace that asks for a callback. *)
Definition plainRequest : ExecutionRequest :=
  {| req_id := lit "req-1";
     req_prompt := lit "summarise the changelog";
     req_callbackUrl := Some url;
     req_workspace := None;
     req_agent := None;
     req_metadata := None |}.

(** The provider does not settle within the timeout. *)
Definition slowWorld : Sim.World := Sim.worldWith [] TimerFired.


(** The bare store of [owner/repo] has [main] and [feature-x], and so
    has the remote.  The store is a bare clone: it has no
    remote-tracking references, so [origin/feature-x] does not resolve
    in its worktrees.  [commits] are what the agent committed in the
    worktree and did not push. *)
Definition ahead (commits : list jsstring) : Sim.World :=
  {| Sim.clock := 1730000000000%N; Sim.tick := 1%N;
     Sim.branches := [lit "main"; lit "feature-x"];
     Sim.headBranch := lit "main";
     Sim.tracking := []; Sim.unpushed := commits;
     Sim.remote := [lit "main"; lit "feature-x"];
     Sim.paths := []; Sim.race := ProviderResolved Sim.okResult;
     Sim.response := FetchResponse true 200%N [];
     Sim.config := Sim.defaultConfig |}.

Definition featureWorkspace : Workspace :=
  WsGit (lit "owner/repo") (Some (lit "feature-x")) None.

(** A repository whose default and only branch is [master], and a
    request to work on [master] and have the push verified. *)
Definition masterWorld : Sim.World :=
  Sim.worldWith [lit "master"] (ProviderResolved Sim.okResult).

Definition masterRequest : ExecutionRequest :=
  {| req_id := lit "req-10";
     req_prompt := lit "update the changelog and push";
     req_callbackUrl := Some url;
     req_workspace := Some (WsGit (lit "owner/repo") (Some (lit "master")) None);
     req_agent := None;
     req_metadata := Some [(lit "expectBranchPush", JBool true)] |}.

(** A repository whose default branch is [develop] and that also has a
    branch [main], and a request to work on [main] and have the push
    verified. *)
Definition developWorld : Sim.World :=
  Sim.worldWith [lit "develop"; lit "main"] (ProviderResolved Sim.okResult).

Definition mainRequest : ExecutionRequest :=
  {| req_id := lit "req-11";
     req_prompt := lit "update the changelog and push";
     req_callbackUrl := Some url;
     req_workspace := Some (WsGit (lit "owner/repo") (Some (lit "main")) None);
     req_agent := None;
     req_metadata := Some [(lit "expectBranchPush", JBool true)] |}.

(** The worktree that a setup makes at the first clock reading, and at
    the second. *)
Definition worktree0 : jsstring := lit "/tmp/agent-bridge/worktrees/wt-m2r1bz7k".
Definition worktree1 : jsstring := lit "/tmp/agent-bridge/worktrees/wt-m2r1bz7l".

(** Two seed files, the second with a path that leaves the directory. *)
Definition seedFiles : list (jsstring * jsstring) :=
  [(lit "notes/todo.md", lit "- ship it");
   (lit "../bridge-escape/e.txt", lit "outside")].

End Scenarios.

(* ================================================================== *)
(** * Properties: repoSlug *)
(* ================================================================== *)

(** C9: [repoSlug("owner/repo")] is ["owner--repo"], and so is
    [repoSlug("https://github.com/owner/repo.git")]. *)
Theorem repoSlug_examples :
  repoSlug (lit "owner/repo") = Ok (lit "owner--repo") /\
  repoSlug (lit "https://github.com/owner/repo.git") = Ok (lit "owner--repo").
Proof. split; vm_compute; reflexivity. Qed.

(* ================================================================== *)
(** * Properties: traces *)
(* ================================================================== *)


Lemma calls_app p tr1 tr2 : calls p (tr1 ++ tr2) = calls p tr1 ++ calls p tr2.
Proof.
  induction tr1 as [|e tr1 IH]; simpl; [reflexivity|].
  destruct e; try exact IH.
  destruct (p c); simpl; now rewrite IH.
Qed.

Lemma commands_app tr1 tr2 : commands (tr1 ++ tr2) = commands tr1 ++ commands tr2.
Proof.
  induction tr1 as [|e tr1 IH]; simpl; [reflexivity|].
  destruct e; simpl; now rewrite IH.
Qed.

Lemma consoleLines_app tr1 tr2 :
  consoleLines (tr1 ++ tr2) = consoleLines tr1 ++ consoleLines tr2.
Proof.
  induction tr1 as [|e tr1 IH]; simpl; [reflexivity|].
  destruct e; simpl; now rewrite IH.
Qed.

(** ** Computations that make none of the calls [p] *)

Section Silent.

Variable S : Type.
Variable p : Call -> bool.

Lemma silent_ret A (a : A) : silent (S:=S) p (ret a).
Proof. intro s; reflexivity. Qed.

Lemma silent_throw A e : silent (S:=S) p (@throw S A e).
Proof. intro s; reflexivity. Qed.

Lemma silent_bind A B (m : M S A) (f : A -> M S B) :
  silent (S:=S) p m -> (forall a, silent (S:=S) p (f a)) -> silent (S:=S) p (bind m f).
Proof.
  intros Hm Hf s. unfold bind.
  destruct (res (m s)) eqn:E; simpl; [|apply Hm].
  rewrite calls_app, Hm, Hf. reflexivity.
Qed.

Lemma silent_tryCatch A (m : M S A) h :
  silent (S:=S) p m -> (forall e, silent (S:=S) p (h e)) -> silent (S:=S) p (tryCatch m h).
Proof.
  intros Hm Hh s. unfold tryCatch.
  destruct (res (m s)) eqn:E; simpl; [apply Hm|].
  rewrite calls_app, Hm, Hh. reflexivity.
Qed.

Lemma silent_tryFinally A (m : M S A) f :
  silent (S:=S) p m -> silent (S:=S) p f -> silent (S:=S) p (tryFinally m f).
Proof.
  intros Hm Hf s. unfold tryFinally.
  destruct (res (f (st (m s)))); simpl; rewrite calls_app, Hm, Hf; reflexivity.
Qed.

Lemma silent_console c msg : silent (S:=S) p (console c msg).
Proof. intro s; reflexivity. Qed.

Lemma silent_emit e :
  match e with ECall c => p c = false | _ => True end -> silent (S:=S) p (emit e).
Proof.
  intros H s. destruct e; try reflexivity. simpl. now rewrite H.
Qed.

Lemma silent_call A c (body : M S A) :
  p c = false -> silent (S:=S) p body -> silent (S:=S) p (call c body).
Proof.
  intros Hc Hb. unfold call. apply silent_bind; [|intros _; exact Hb].
  now apply silent_emit.
Qed.

Lemma silent_liftResult A (r : result A) : silent (S:=S) p (liftResult r).
Proof. destruct r; intro s; reflexivity. Qed.

Lemma silent_forEach A (xs : list A) f :
  (forall x, silent (S:=S) p (f x)) -> silent (S:=S) p (forEach xs f).
Proof.
  intro Hf. induction xs as [|x xs IH]; simpl.
  - apply silent_ret.
  - apply silent_bind; [apply Hf | intros _; exact IH].
Qed.

End Silent.

Section SilentHost.

Context {W : Type} {host : Host W}.
Variable p : Call -> bool.

Lemma silent_now : silent p now.
Proof. intro w. unfold now. destruct (dateNow w). reflexivity. Qed.

Lemma silent_execM cmd cwd : silent p (execM cmd cwd).
Proof. intro w. unfold execM. destruct (exec cmd cwd w). reflexivity. Qed.

Lemma silent_fsM c : silent p (fsM c).
Proof. intro w. unfold fsM. destruct (fsCall c w). reflexivity. Qed.

Lemma silent_readWorld A (f : W -> A) : silent p (readWorld f).
Proof. intro w. reflexivity. Qed.

Lemma silent_readResult A (f : W -> result A) : silent p (readResult f).
Proof. intro w. reflexivity. Qed.

Lemma silent_fetchM url payload : silent p (fetchM url payload).
Proof.
  intro w. unfold fetchM. destruct (fetchPost url payload w) as [[]]; reflexivity.
Qed.

Lemma silent_raceM prov ctx t id : silent p (raceM prov ctx t id).
Proof.
  intro w. unfold raceM. destruct (providerRace prov ctx t w). reflexivity.
Qed.

End SilentHost.

Create HintDb silent.
#[global] Hint Resolve silent_ret silent_throw silent_console silent_liftResult
  silent_now silent_execM silent_fsM silent_readWorld silent_readResult
  silent_fetchM silent_raceM : silent.

(** Walk down a program, leaving the calls it makes as goals. *)
Ltac silence :=
  repeat first
    [ solve [auto with silent]
    | apply silent_bind
    | apply silent_tryCatch
    | apply silent_tryFinally
    | apply silent_forEach
    | apply silent_call
    | apply silent_emit
    | match goal with
      | |- forall _, _ => intro
      | |- silent _ (match ?x with _ => _ end) => destruct x
      | |- silent _ (if ?b then _ else _) => destruct b
      | |- _ = false => reflexivity
      | |- True => exact I
      end ].

Section SilentPrograms.

Context {W : Type} {host : Host W}.
Variable p : Call -> bool.

Lemma silent_runCleanup c : silent p (runCleanup c).
Proof. unfold runCleanup. silence. Qed.

Lemma silent_setupWorkspace ws config : silent p (setupWorkspace ws config).
Proof.
  unfold setupWorkspace, ensureBareClone, createWorktree, injectOverlays.
  silence.
Qed.

Lemma silent_loadMcpServers cwd : silent p (loadMcpServers cwd).
Proof. unfold loadMcpServers. silence. Qed.

Lemma silent_verifyGitPush cwd branch : silent p (verifyGitPush cwd branch).
Proof. unfold verifyGitPush. silence. Qed.

Lemma silent_sendCallback url payload : silent p (sendCallback url payload).
Proof. unfold sendCallback. silence. Qed.

Lemma silent_getProvider name : silent p (getProvider name).
Proof. unfold getProvider. silence. Qed.

Lemma silent_buildErrorPayload request e startMs :
  silent p (buildErrorPayload request e startMs).
Proof. unfold buildErrorPayload. silence. Qed.

End SilentPrograms.

#[global] Hint Resolve silent_runCleanup silent_setupWorkspace
  silent_loadMcpServers silent_verifyGitPush silent_sendCallback
  silent_getProvider silent_buildErrorPayload : silent.

(* ================================================================== *)
(** * The orchestrator: cleanup *)
(* ================================================================== *)

Section SilentOrchestrator.

Context {W : Type} {host : Host W}.

Variable p : Call -> bool.

Lemma silent_lift A (m : M W A) : silent p m -> silent p (lift m).
Proof. intros Hm s. unfold lift. simpl. apply Hm. Qed.

Lemma silent_inFrame A (m : M (Frame (W:=W)) A) : silent p m -> silent p (inFrame m).
Proof. intros Hm w. unfold inFrame. simpl. apply Hm. Qed.

Lemma silent_setCleanup c : silent p (setCleanup (W:=W) c).
Proof. intro s. reflexivity. Qed.

Lemma silent_getCleanup : silent p (getCleanup (W:=W)).
Proof. intro s. reflexivity. Qed.

(** From here on [p] rejects the callback, and the push verification
    that [request] asks for. *)
Variable request : ExecutionRequest.
Hypothesis p_verify :
  forall cwd b, pushCheckBranch request = Some b ->
                p (CallVerifyGitPush cwd b) = false.
Hypothesis p_send : forall url payload, p (CallSendCallback url payload) = false.

Lemma silent_report startMs cwd r :
  silent p (report request startMs cwd r).
Proof.
  unfold report. destruct (pushCheckBranch request) eqn:E;
    silence; auto with silent.
Qed.

Lemma silent_runAgent config startMs cwd :
  silent p (runAgent request config startMs cwd).
Proof. unfold runAgent. silence; auto using silent_report with silent. Qed.

Lemma silent_reportError startMs e :
  silent p (reportError request startMs e).
Proof. unfold reportError. silence; auto with silent. Qed.

Hypothesis p_setup : forall ws, p (CallSetupWorkspace ws) = false.
Hypothesis p_cleanup : forall c, p (CallCleanup c) = false.

Lemma silent_executeRequest : silent p (executeRequest request).
Proof.
  unfold executeRequest, finallyCleanup.
  apply silent_inFrame.
  silence;
    auto using silent_lift, silent_setCleanup, silent_getCleanup,
      silent_runAgent, silent_reportError, silent_call with silent.
Qed.

End SilentOrchestrator.

Ltac count_calls := repeat first [rewrite calls_app | progress simpl].

(** C1: an execution that enters workspace setup (its prompt is not
    empty) calls [setupWorkspace] once; when that returns a handle, the
    handle's cleanup is invoked exactly once, whatever the provider, the
    timer, push verification, the callback and the cleanup itself do;
    when it throws, no cleanup is invoked. *)
Theorem cleanup_exactly_once {W : Type} {host : Host W}
        (request : ExecutionRequest) (w : W) :
  emptyPrompt request = false ->
  let o := executeRequest request w in
  let w1 := snd (dateNow w) in
  calls isSetup (trace o) = [CallSetupWorkspace (req_workspace request)] /\
  match res (setupWorkspace (req_workspace request) (loadBridgeConfig w1) w1) with
  | Ok handle => calls isCleanup (trace o) = [CallCleanup (ws_cleanup handle)]
  | Throw _ => calls isCleanup (trace o) = []
  end.
Proof.
  intros Hprompt o w1. subst o w1.
  unfold executeRequest, inFrame, bind, lift at 1 2, now, readWorld.
  simpl. destruct (dateNow w) as [startMs w1]. simpl. rewrite Hprompt.
  unfold tryFinally, tryCatch, bind, lift, call, emit, setCleanup,
    finallyCleanup, getCleanup, bind. simpl.
  set (config := loadBridgeConfig w1).
  set (o1 := setupWorkspace (req_workspace request) config w1).
  assert (S1 : forall p, calls p (trace o1) = [])
    by (intro; apply silent_setupWorkspace).
  assert (SA : forall p cwd s,
             p = isSetup \/ p = isCleanup ->
             calls p (trace (runAgent request config startMs cwd s)) = [])
    by (intros p cwd s [-> | ->]; apply silent_runAgent; reflexivity).
  assert (SE : forall p e s,
             p = isSetup \/ p = isCleanup ->
             calls p (trace (reportError request startMs e s)) = [])
    by (intros p e s [-> | ->]; apply silent_reportError; reflexivity).
  assert (SC : forall p c s, calls p (trace (runCleanup c s)) = [])
    by (intros; apply silent_runCleanup).
  destruct (res o1) as [handle|e] eqn:E1; simpl.
  - set (o2 := runAgent request config startMs (ws_cwd handle) (st o1)).
    destruct (res o2) as [[]|e] eqn:E2; simpl;
      match goal with
      | |- context [res (runCleanup ?c ?s)] => destruct (res (runCleanup c s))
      end;
      count_calls; subst o2; rewrite ?S1, ?SA, ?SE, ?SC by auto; auto.
  - count_calls. rewrite ?S1, ?SE by auto. auto.
Qed.

(* ================================================================== *)
(** * Strings: equality *)
(* ================================================================== *)

Lemma seqb_eq a b : seqb a b = true <-> a = b.
Proof.
  revert b. induction a as [|x a IH]; destruct b as [|y b]; simpl;
    try (split; [discriminate | congruence]); [tauto|].
  rewrite andb_true_iff, N.eqb_eq, IH. split; [intros [-> ->] | intros [= -> ->]]; auto.
Qed.

Lemma seqb_refl a : seqb a a = true.
Proof. now apply seqb_eq. Qed.

Lemma seqb_neq a b : seqb a b = false <-> a <> b.
Proof.
  rewrite <- seqb_eq. destruct (seqb a b); split; congruence.
Qed.

(* ================================================================== *)
(** * The orchestrator: the empty prompt *)
(* ================================================================== *)

Lemma untouched_sendCallback {W : Type} {host : Host W} url payload (w : W) :
  untouched (trace (sendCallback url payload w)).
Proof.
  unfold sendCallback, tryCatch, bind, fetchM, console, emit. simpl.
  destruct (fetchPost url payload w) as [[e|[] status body] w']; simpl;
    intros ev Hin; repeat (destruct Hin as [<- | Hin]; [exact I|]);
    destruct Hin.
Qed.

(* ================================================================== *)
(** * The orchestrator: push verification *)
(* ================================================================== *)

Lemma pushCheckBranch_spec request b :
  pushCheckBranch request = Some b <-> verificationRequested request b.
Proof.
  unfold pushCheckBranch, verificationRequested, expectBranchPush. split.
  - destruct (req_workspace request) as [[repo [b'|] ov| |]|]; try discriminate.
    destruct (truthy b') eqn:T; try discriminate.
    destruct (seqb b' (lit "main")) eqn:Em; try discriminate.
    destruct (req_metadata request) as [meta|]; try discriminate.
    destruct (getProp meta (lit "expectBranchPush")) as [[| |[]| | | |]|] eqn:G;
      try discriminate.
    simpl. intros [= <-]. exists repo, ov, meta. repeat split; auto.
    + intros ->. discriminate.
    + now apply seqb_neq.
  - intros (repo & ov & meta & -> & Hne & Hmain & -> & ->).
    apply seqb_neq in Hmain. rewrite Hmain.
    destruct b; [congruence | reflexivity].
Qed.

Lemma In_calls p c tr : In c (calls p tr) -> In (ECall c) tr /\ p c = true.
Proof.
  induction tr as [|e tr IH]; simpl; [tauto|].
  destruct e; try (intro H; destruct (IH H); auto).
  destruct (p c0) eqn:E.
  - intros [<- | H]; [auto | destruct (IH H); auto].
  - intro H; destruct (IH H); auto.
Qed.

Lemma calls_In p c tr : In (ECall c) tr -> p c = true -> In c (calls p tr).
Proof.
  intros Hin Hp. induction tr as [|e tr IH]; simpl in *; [tauto|].
  destruct Hin as [-> | Hin].
  - rewrite Hp. now left.
  - destruct e; auto. destruct (p c0); [right|]; auto.
Qed.

(** [verifyGitPush] returns on every path: its body is one [try] whose
    handler cannot throw. *)
Lemma verifyGitPush_total {W : Type} {host : Host W} cwd branch (w : W) :
  exists v, res (verifyGitPush cwd branch w) = Ok v.
Proof.
  unfold verifyGitPush, tryCatch, bind, execM, console, emit, ret. simpl.
  destruct (exec (gitLogCmd branch) (Some cwd) w) as [[out|e] w1]; simpl;
    [|eauto].
  destruct (0 <? List.length (commitLines out))%nat; simpl; [eauto|].
  destruct (exec (lsRemoteCmd branch) (Some cwd) w1) as [[ref|e] w2]; simpl;
    [|eauto].
  destruct (truthy (trim ref)); simpl; eauto.
Qed.

(** What [report] (bridge.ts 92-141) does about the push, taken alone:
    it verifies the branch that [pushCheckBranch] gives, once, and no
    branch when it gives none; an execution verifies no other branch.
    What a whole execution does is shown further on, from this. *)
Lemma verification_in_report {W : Type} {host : Host W}
        (request : ExecutionRequest) :
  (forall (w : W) cwd b,
     In (ECall (CallVerifyGitPush cwd b)) (trace (executeRequest request w)) ->
     verificationRequested request b) /\
  (forall startMs cwd r (w : W),
     let o := report request startMs cwd r w in
     (forall b, verificationRequested request b ->
                calls isVerify (trace o) = [CallVerifyGitPush cwd b]) /\
     ((forall b, ~ verificationRequested request b) -> calls isVerify (trace o) = []) /\
     (forall b v url,
        verificationRequested request b ->
        res (verifyGitPush cwd b (snd (dateNow w))) = Ok v ->
        pushed v = false ->
        callbackTarget request = Some url ->
        exists payload,
          calls isSend (trace o) = [CallSendCallback url payload] /\
          cb_status payload = StError /\
          cb_error payload = Some (pushVerificationError b v) /\
          cb_usage payload = pr_usage r)).
Proof.
  split.
  - intros w cwd b Hin.
    apply pushCheckBranch_spec.
    destruct (pushCheckBranch request) as [b0|] eqn:E.
    + destruct (seqb b b0) eqn:Eb; [apply seqb_eq in Eb; congruence|].
      exfalso.
      set (p := fun c => match c with
                         | CallVerifyGitPush _ b' => negb (seqb b' b0)
                         | _ => false
                         end).
      assert (S : silent p (executeRequest request)).
      { apply silent_executeRequest; try reflexivity.
        intros cwd' b' Hb'. rewrite E in Hb'. injection Hb' as <-.
        simpl. now rewrite seqb_refl. }
      assert (Hc : In (CallVerifyGitPush cwd b)
                      (calls p (trace (executeRequest request w)))).
      { apply calls_In; [exact Hin|]. simpl. now rewrite Eb. }
      rewrite S in Hc. destruct Hc.
    + exfalso.
      assert (S : silent isVerify (executeRequest request)).
      { apply silent_executeRequest; try reflexivity.
        intros cwd' b' Hb'. congruence. }
      assert (Hc : In (CallVerifyGitPush cwd b)
                      (calls isVerify (trace (executeRequest request w)))).
      { apply calls_In; [exact Hin | reflexivity]. }
      rewrite S in Hc. destruct Hc.
  - intros startMs cwd r w o. subst o.
    unfold report, bind, now. simpl.
    destruct (dateNow w) as [t w1]. simpl.
    destruct (pushCheckBranch request) as [b0|] eqn:E.
    + apply pushCheckBranch_spec in E as HE.
      assert (Huniq : forall b, verificationRequested request b -> b = b0).
      { intros b Hb. apply pushCheckBranch_spec in Hb. congruence. }
      unfold call, bind, emit. simpl.
      destruct (verifyGitPush_total cwd b0 w1) as [v Hv].
      pose proof (silent_verifyGitPush isVerify cwd b0 w1) as SV.
      pose proof (silent_verifyGitPush isSend cwd b0 w1) as SS.
      set (ov := verifyGitPush cwd b0 w1) in *.
      rewrite Hv. simpl.
      repeat split.
      * intros b Hb. apply Huniq in Hb as ->.
        destruct (pushed v); simpl;
          (destruct (callbackTarget request) as [url|]; simpl;
           [ unfold call, bind, emit; simpl;
             match goal with
             | |- context [sendCallback ?u ?pl ?s] =>
                 pose proof (silent_sendCallback isVerify u pl s) as SC;
                 destruct (res (sendCallback u pl s))
             end
           | ]);
          count_calls; rewrite ?SV, ?SC; reflexivity.
      * intros Hnone. destruct (Hnone b0 HE).
      * intros b v' url Hb Hv' Hpushed Hurl.
        apply Huniq in Hb as ->. simpl in Hv'. fold ov in Hv'.
        rewrite Hv in Hv'. injection Hv' as <-.
        rewrite Hpushed, Hurl. simpl.
        unfold call, bind, emit; simpl.
        match goal with
        | |- context [sendCallback ?u ?pl ?s] =>
            pose proof (silent_sendCallback isSend u pl s) as SC;
            exists pl; destruct (res (sendCallback u pl s))
        end;
          count_calls; rewrite ?SS, ?SC; repeat split; reflexivity.
    + repeat split.
      * intros b Hb. apply pushCheckBranch_spec in Hb. congruence.
      * intros _. simpl.
        destruct (callbackTarget request) as [url|]; simpl; [|reflexivity].
        unfold call, bind, emit; simpl.
        match goal with
        | |- context [sendCallback ?u ?pl ?s] =>
            pose proof (silent_sendCallback isVerify u pl s) as SC;
            destruct (res (sendCallback u pl s))
        end;
          count_calls; rewrite ?SC; reflexivity.
      * intros b v url Hb. apply pushCheckBranch_spec in Hb. congruence.
Qed.

(* ================================================================== *)
(** * workspace.ts: verifyGitPush *)
(* ================================================================== *)

(** [verifyGitPush], answer by answer of [exec]: it never raises; when the
    [git log] line prints commits it returns them with [pushed: false];
    when it prints none, which is also what the line does when
    [git log] fails, the answer is the one of [ls-remote]: the sentinel
    ["(branch not on remote)"] when that prints nothing, [pushed: true]
    otherwise; and every rejection of [exec], of either command line,
    gives exactly ["(verification error)"]. *)
Lemma verifyGitPush_cases {W : Type} {host : Host W}
        (cwd branch : jsstring) (w : W) :
  let r := res (verifyGitPush cwd branch w) in
  (exists v, r = Ok v) /\
  (forall out w1,
     exec (gitLogCmd branch) (Some cwd) w = (Ok out, w1) ->
     commitLines out <> [] ->
     r = Ok (notPushed (commitLines out))) /\
  (forall out w1 ref w2,
     exec (gitLogCmd branch) (Some cwd) w = (Ok out, w1) ->
     commitLines out = [] ->
     exec (lsRemoteCmd branch) (Some cwd) w1 = (Ok ref, w2) ->
     trim ref = [] ->
     r = Ok (notPushed [branchNotOnRemote])) /\
  (forall out w1 ref w2,
     exec (gitLogCmd branch) (Some cwd) w = (Ok out, w1) ->
     commitLines out = [] ->
     exec (lsRemoteCmd branch) (Some cwd) w1 = (Ok ref, w2) ->
     trim ref <> [] ->
     r = Ok {| pushed := true; unpushedCommits := [] |}) /\
  (forall e w1,
     exec (gitLogCmd branch) (Some cwd) w = (Throw e, w1) ->
     r = Ok (notPushed [verificationError])) /\
  (forall out w1 e w2,
     exec (gitLogCmd branch) (Some cwd) w = (Ok out, w1) ->
     commitLines out = [] ->
     exec (lsRemoteCmd branch) (Some cwd) w1 = (Throw e, w2) ->
     r = Ok (notPushed [verificationError])).
Proof.
  intro r. subst r. split; [apply verifyGitPush_total|].
  unfold verifyGitPush, tryCatch, bind, execM, console, emit, ret, notPushed.
  simpl. repeat split.
  - intros out w1 E Hne. rewrite E. simpl.
    destruct (commitLines out); [congruence | reflexivity].
  - intros out w1 ref w2 E Hnone E2 Href. rewrite E. simpl.
    rewrite Hnone. simpl. rewrite E2. simpl. rewrite Href. reflexivity.
  - intros out w1 ref w2 E Hnone E2 Href. rewrite E. simpl.
    rewrite Hnone. simpl. rewrite E2. simpl.
    destruct (trim ref); [congruence | reflexivity].
  - intros e w1 E. rewrite E. reflexivity.
  - intros out w1 e w2 E Hnone E2. rewrite E. simpl.
    rewrite Hnone. simpl. rewrite E2. reflexivity.
Qed.


(** Here the [git log] command itself fails, and the result is not the
    verification error: the shell line absorbs the failure, and the
    answer is the one of [ls-remote]. *)
Lemma verifyGitPush_git_error_absorbed :
  let git_log := lit "git log --oneline origin/feature-x..HEAD" in
  (exists e, fst (Sim.git git_log PushExamples.noTracking) = Throw e) /\
  res (verifyGitPush PushExamples.cwd PushExamples.feature
                     PushExamples.noTracking)
  = Ok (notPushed [branchNotOnRemote]) /\
  (exists e, fst (Sim.git git_log PushExamples.onRemote) = Throw e) /\
  res (verifyGitPush PushExamples.cwd PushExamples.feature
                     PushExamples.onRemote)
  = Ok {| pushed := true; unpushedCommits := [] |} /\
  ~ (forall w : Sim.World,
       (exists e, fst (Sim.git git_log w) = Throw e) ->
       res (verifyGitPush PushExamples.cwd PushExamples.feature w)
       = Ok (notPushed [verificationError])).
Proof.
  cbv zeta.
  assert (E1 : exists e, fst (Sim.git (lit "git log --oneline origin/feature-x..HEAD")
                                      PushExamples.noTracking) = Throw e)
    by (eexists; vm_compute; reflexivity).
  split; [|split; [|split; [|split]]].
  - exact E1.
  - vm_compute. reflexivity.
  - eexists; vm_compute; reflexivity.
  - vm_compute. reflexivity.
  - intro H. specialize (H PushExamples.noTracking E1).
    vm_compute in H. discriminate H.
Qed.

(* ================================================================== *)
(** * Numbers in a radix: reading the digits back *)
(* ================================================================== *)

Section Radix.

Local Open Scope N_scope.





Lemma digits_nonempty radix n : digits radix n <> [].
Proof.
  unfold digits. destruct (N.to_nat (N.size n)) as [|f]; simpl; [discriminate|].
  destruct (n <? radix); [discriminate|].
  intro H. apply app_eq_nil in H. destruct H as [_ H]. discriminate.
Qed.






End Radix.

(* ================================================================== *)
(** * Paths: the last segment of a join *)
(* ================================================================== *)

Section LastSegment.

Lemma takeWhile_all f s rest :
  forallb f s = true ->
  (rest = [] \/ exists c r, rest = c :: r /\ f c = false) ->
  takeWhile f (s ++ rest) = s.
Proof.
  intros Hs Hrest. induction s as [|c s IH]; simpl in *.
  - destruct Hrest as [-> | (c & r & -> & Hc)]; simpl; [reflexivity|].
    now rewrite Hc.
  - apply andb_true_iff in Hs as [Hc Hs]. rewrite Hc. f_equal. auto.
Qed.

Lemma forallb_rev (f : N -> bool) s : forallb f (rev s) = forallb f s.
Proof.
  induction s as [|c s IH]; simpl; [reflexivity|].
  rewrite forallb_app, IH. simpl. rewrite andb_true_r. apply andb_comm.
Qed.

Lemma lastSegment_app q seg :
  slashEnded q -> forallb notSlash seg = true -> lastSegment (q ++ seg) = seg.
Proof.
  intros Hq Hseg. unfold lastSegment. rewrite rev_app_distr.
  rewrite takeWhile_all.
  - apply rev_involutive.
  - now rewrite forallb_rev.
  - destruct Hq as [-> | [x ->]]; [now left | right].
    rewrite rev_app_distr. simpl. exists slash, (rev x). split; [reflexivity|].
    unfold notSlash. now rewrite N.eqb_refl.
Qed.

Lemma split1_nonempty sep s : split1 sep s <> [].
Proof.
  destruct s as [|c r]; simpl; [discriminate|].
  destruct (N.eqb c sep); [discriminate|].
  destruct (split1 sep r); discriminate.
Qed.

Lemma split1_app sep a b :
  split1 sep (a ++ sep :: b) = split1 sep a ++ split1 sep b.
Proof.
  induction a as [|c a IH]; simpl.
  - now rewrite N.eqb_refl.
  - destruct (N.eqb c sep); [now rewrite IH|].
    rewrite IH. pose proof (split1_nonempty sep a) as Hne.
    destruct (split1 sep a); [congruence | reflexivity].
Qed.

Lemma split1_plain seg :
  forallb notSlash seg = true -> split1 slash seg = [seg].
Proof.
  induction seg as [|c seg IH]; simpl; [reflexivity|].
  intro H. apply andb_true_iff in H as [Hc Hs].
  unfold notSlash in Hc. apply negb_true_iff in Hc. rewrite Hc.
  now rewrite IH.
Qed.

Lemma pushSegment_plain allow stack seg :
  plainSegment seg -> Path.pushSegment allow stack seg = seg :: stack.
Proof.
  intros (Hne & _ & Hdot & Hdd). unfold Path.pushSegment.
  rewrite Hdot, Hdd. destruct seg; [congruence | reflexivity].
Qed.

Lemma joinWith_snoc sep ys seg :
  joinWith sep (ys ++ [seg]) =
  match ys with [] => seg | _ => joinWith sep ys ++ sep ++ seg end.
Proof.
  induction ys as [|y ys IH]; simpl; [reflexivity|].
  destruct ys as [|y' ys]; simpl in *; [reflexivity|].
  rewrite IH. now rewrite <- !app_assoc.
Qed.

Lemma endsWithSlash_plain a seg :
  plainSegment seg -> Path.endsWithSlash (a ++ seg) = false.
Proof.
  intros (Hne & Hs & _). unfold Path.endsWithSlash.
  rewrite rev_app_distr. rewrite <- forallb_rev in Hs.
  destruct (rev seg) as [|c r] eqn:E.
  - apply (f_equal (@rev N)) in E. rewrite rev_involutive in E. now subst.
  - simpl in *. apply andb_true_iff in Hs as [Hc _].
    unfold notSlash in Hc. now apply negb_true_iff in Hc.
Qed.

(** Normalizing a path that ends with a plain name keeps the name at
    the end, after a slash or alone. *)
Lemma normalize_plain_last segs seg path :
  plainSegment seg ->
  path <> [] ->
  split1 slash path = segs ++ [seg] ->
  Path.endsWithSlash path = false ->
  exists q, slashEnded q /\ Path.normalize path = q ++ seg.
Proof.
  intros Hseg Hne Hsplit Htrail. unfold Path.normalize.
  destruct path as [|c path']; [congruence|].
  rewrite Hsplit, Htrail, fold_left_app. simpl.
  rewrite pushSegment_plain by exact Hseg. simpl.
  rewrite joinWith_snoc.
  set (stack := rev (fold_left (Path.pushSegment (negb (N.eqb c slash))) segs [])).
  destruct Hseg as (Hsne & _).
  destruct stack as [|y ys] eqn:Es.
  - destruct seg as [|s0 seg']; [congruence|].
    exists (if N.eqb c slash then [slash] else []). split.
    + destruct (N.eqb c slash); [right; now exists [] | now left].
    + now rewrite app_nil_r.
  - set (j := joinWith [slash] (y :: ys)).
    destruct (j ++ [slash] ++ seg) as [|z zs] eqn:Ej.
    { apply app_eq_nil in Ej as [_ Ej]. discriminate. }
    rewrite app_nil_r, <- Ej.
    exists ((if N.eqb c slash then [slash] else []) ++ j ++ [slash]). split.
    + right. exists ((if N.eqb c slash then [slash] else []) ++ j).
      now rewrite app_assoc.
    + now rewrite <- !app_assoc.
Qed.

Lemma join_plain_last dir seg :
  plainSegment seg ->
  exists q, slashEnded q /\ Path.join dir seg = q ++ seg.
Proof.
  intro Hseg. pose proof Hseg as (Hne & Hs & _).
  unfold Path.join.
  destruct dir as [|d dir'].
  - destruct seg as [|s0 seg'] eqn:E; [congruence|]. rewrite <- E in *.
    apply (@normalize_plain_last [] seg seg); auto.
    + now apply split1_plain.
    + now apply (endsWithSlash_plain []).
  - destruct seg as [|s0 seg'] eqn:E; [congruence|]. rewrite <- E in *.
    apply (@normalize_plain_last (split1 slash (d :: dir')) seg); auto.
    + discriminate.
    + change ((d :: dir') ++ [slash] ++ seg) with ((d :: dir') ++ slash :: seg).
      rewrite split1_app. now rewrite (@split1_plain seg).
    + rewrite app_assoc. now apply endsWithSlash_plain.
Qed.



End LastSegment.

(* ================================================================== *)
(** * workspace.ts: createWorktree *)
(* ================================================================== *)

Lemma stripPrefix_app p s : stripPrefix p (p ++ s) = Some s.
Proof.
  induction p as [|c p IH]; simpl; [now destruct s|].
  now rewrite N.eqb_refl.
Qed.


Section CreateWorktree.

Context {W : Type} {host : Host W}.

(** A worktree that is made is at the path of its clock reading. *)
Lemma createWorktree_path barePath dir branch (w : W) p c :
  res (createWorktree barePath dir branch w) = Ok (p, c) ->
  p = worktreePathAt dir (fst (dateNow w)) /\ c = CleanWorktree barePath p.
Proof.
  unfold createWorktree, bind, tryCatch, bind, now, fsM, execM, console,
    emit, ret. simpl.
  destruct (dateNow w) as [t w1]. simpl.
  destruct (fsCall (MkdirRecursive dir) w1) as [[x|e] w2]; simpl;
    [|discriminate].
  destruct (exec (lit "git worktree prune") (Some barePath) w2)
    as [[x3|e] w3]; simpl; [|discriminate].
  match goal with
  | |- context [exec (worktreeAddCmd ?pth ?b) ?cw w3] =>
      destruct (exec (worktreeAddCmd pth b) cw w3) as [[x4|e] w4]; simpl
  end.
  - intros [= <- <-]. auto.
  - match goal with
    | |- context [exec ?cmd ?cw w4] =>
        destruct (exec cmd cw w4) as [[x5|e5] w5]; simpl
    end; [|discriminate].
    intros [= <- <-]. auto.
Qed.


End CreateWorktree.





(** C5, as the code has it: when the first [git worktree add] fails, as
    it does for a branch that the bare store lacks, [createWorktree]
    logs the fallback and adds the worktree from the branch named
    [main], detached; it returns the worktree exactly when that second
    command succeeds, and throws its error otherwise. *)
Theorem createWorktree_falls_back_to_main {W : Type} {host : Host W}
        (barePath dir : jsstring) (branch_ : option jsstring) (w : W) :
  let branch := match branch_ with Some b => b | None => lit "main" end in
  let path := worktreePathAt dir (fst (dateNow w)) in
  let o := createWorktree barePath dir branch_ w in
  forall x w2 out w3 e w4,
    fsCall (MkdirRecursive dir) (snd (dateNow w)) = (Ok x, w2) ->
    exec (lit "git worktree prune") (Some barePath) w2 = (Ok out, w3) ->
    exec (worktreeAddCmd path branch) (Some barePath) w3 = (Throw e, w4) ->
    commands (trace o) = [lit "git worktree prune";
                          worktreeAddCmd path branch;
                          worktreeAddCmd path (lit "main")] /\
    In (fallbackLine branch) (consoleLines (trace o)) /\
    res o = match fst (exec (worktreeAddCmd path (lit "main"))
                            (Some barePath) w4) with
            | Ok _ => Ok (path, CleanWorktree barePath path)
            | Throw e' => Throw e'
            end.
Proof.
  intros branch path o x w2 out w3 e w4. subst branch path o.
  unfold createWorktree, bind, tryCatch, bind, now, fsM, execM, console,
    emit, ret. simpl.
  destruct (dateNow w) as [t w1]. simpl.
  intros E1 E2 E3. rewrite E1. simpl. rewrite E2. simpl. rewrite E3. simpl.
  destruct (exec (worktreeAddCmd (worktreePathAt dir t) (lit "main"))
                 (Some barePath) w4) as [[x5|e5] w5]; simpl; auto.
Qed.

(** C5 as stated fails: the default branch of this store is [master];
    the branch asked for is not in the store; the fallback asks for
    [main], and the creation throws. *)
Lemma createWorktree_default_branch_not_tried :
  let w := WorktreeExamples.masterOnly in
  let o := createWorktree WorktreeExamples.bare WorktreeExamples.dir
                          (Some (lit "feature-x")) w in
  Sim.headBranch w = lit "master" /\
  Sim.mem (lit "feature-x") (Sim.branches w) = false /\
  res o = Throw (lit "fatal: invalid reference: main") /\
  commands (trace o) =
    [lit "git worktree prune";
     worktreeAddCmd (lit "/tmp/agent-bridge/worktrees/wt-m2r1bz7k")
                    (lit "feature-x");
     worktreeAddCmd (lit "/tmp/agent-bridge/worktrees/wt-m2r1bz7k")
                    (lit "main")].
Proof. vm_compute. repeat split. Qed.

(** A store that has [main] and lacks the branch asked for. *)
Lemma createWorktree_falls_back_to_main_witness :
  let o := createWorktree WorktreeExamples.bare WorktreeExamples.dir
                          (Some (lit "feature-x")) WorktreeExamples.mainOnly in
  In (fallbackLine (lit "feature-x")) (consoleLines (trace o)) /\
  res o = Ok (WorktreeExamples.path1,
              CleanWorktree WorktreeExamples.bare WorktreeExamples.path1).
Proof.
  intro o.
  pose proof (@createWorktree_falls_back_to_main Sim.World Sim.host
                WorktreeExamples.bare WorktreeExamples.dir
                (Some (lit "feature-x")) WorktreeExamples.mainOnly
                [] _ [] _ (lit "fatal: invalid reference: feature-x") _
                eq_refl eq_refl eq_refl) as (_ & Hlog & Hres).
  split; [exact Hlog | exact Hres].
Defined.

(* ================================================================== *)
(** * The orchestrator: provider errors and timeouts *)
(* ================================================================== *)

Section ProviderFailure.

Context {W : Type} {host : Host W}.

Lemma runAgent_throws request config startMs cwd (w : W) :
  neverResolves W ->
  (exists e, res (runAgent request config startMs cwd w) = Throw e) /\
  calls isSend (trace (runAgent request config startMs cwd w)) = [].
Proof.
  intro Hnever. unfold runAgent, bind. cbv zeta.
  pose proof (silent_loadMcpServers isSend cwd w) as S1.
  set (o1 := loadMcpServers cwd w) in *. clearbody o1.
  destruct (res o1) as [mcp|e]; cbn [res st trace]; [|eauto].
  match goal with
  | |- context [getProvider ?n ?s] =>
      pose proof (silent_getProvider isSend n s) as S2;
      set (o2 := getProvider n s) in *; clearbody o2
  end.
  destruct (res o2) as [prov|e]; cbn [res st trace];
    [|rewrite calls_app, S1, S2; eauto].
  unfold tryFinally, raceM, emit. cbv zeta.
  match goal with
  | |- context [providerRace ?a ?b ?c ?s] =>
      pose proof (Hnever a b c s) as Hn;
      destruct (providerRace a b c s) as [[r| |] w']
  end; cbn [res st trace fst] in *;
    try (now destruct (Hn r));
    (split; [eauto | count_calls; rewrite S1, S2; reflexivity]).
Qed.

(** When the timer fires before the provider settles, or the provider
    rejects, the callback has status [error]. *)
Lemma timeout_reports_error (request : ExecutionRequest) (w : W) url :
  neverResolves W ->
  emptyPrompt request = false ->
  callbackTarget request = Some url ->
  exists payload,
    calls isSend (trace (executeRequest request w))
    = [CallSendCallback url payload] /\
    cb_status payload = StError.
Proof.
  intros Hnever Hprompt Hurl.
  unfold executeRequest, inFrame, bind, lift at 1 2, now, readWorld.
  simpl. destruct (dateNow w) as [startMs w1]. simpl. rewrite Hprompt.
  unfold tryFinally, tryCatch, bind, lift, call, emit, setCleanup,
    finallyCleanup, getCleanup, bind. simpl.
  set (config := loadBridgeConfig w1).
  set (o1 := setupWorkspace (req_workspace request) config w1).
  pose proof (silent_setupWorkspace isSend (req_workspace request) config w1)
    as S1. fold o1 in S1.
  assert (SC : forall c s, calls isSend (trace (runCleanup c s)) = [])
    by (intros; apply silent_runCleanup).
  assert (SS : forall u pl s, calls isSend (trace (sendCallback u pl s)) = [])
    by (intros; apply silent_sendCallback).
  assert (HE : forall e s, exists payload,
             calls isSend (trace (reportError request startMs e s))
             = [CallSendCallback url payload] /\ cb_status payload = StError).
  { intros e s. unfold reportError, bind, now, console, emit. simpl.
    destruct (dateNow s) as [t s1]. simpl. rewrite Hurl.
    unfold bind, buildErrorPayload, bind, now, ret, call, bind, emit. simpl.
    destruct (dateNow s1) as [t2 s2]. simpl.
    eexists. split; [|shelve].
    match goal with
    | |- context [sendCallback ?u ?pl ?s] => destruct (res (sendCallback u pl s))
    end; count_calls; rewrite SS; reflexivity.
    Unshelve. reflexivity. }
  destruct (res o1) as [handle|e] eqn:E1; simpl.
  - set (o2 := runAgent request config startMs (ws_cwd handle) (st o1)).
    destruct (runAgent_throws request config startMs (ws_cwd handle) (st o1)
                Hnever) as [[e E2] S2]. fold o2 in E2, S2. rewrite E2. simpl.
    destruct (HE e (st o2)) as (payload & HP & Hst).
    exists payload. split; [|exact Hst].
    match goal with
    | |- context [res (runCleanup ?c ?s)] => destruct (res (runCleanup c s))
    end; count_calls; rewrite S1, S2, HP, SC; reflexivity.
  - destruct (HE e (st o1)) as (payload & HP & Hst).
    exists payload. split; [|exact Hst].
    count_calls. rewrite S1, HP. reflexivity.
Qed.

End ProviderFailure.


(* ================================================================== *)
(** * The orchestrator: what a failed setup sends *)
(* ================================================================== *)

Section SetupFailure.

Context {W : Type} {host : Host W}.

(** The [catch] block sends one callback, of status [error], with the
    message caught and zero usage. *)
Lemma reportError_sends request startMs e url (w : W) :
  callbackTarget request = Some url ->
  exists payload,
    calls isSend (trace (reportError request startMs e w))
    = [CallSendCallback url payload] /\
    cb_status payload = StError /\
    cb_error payload = Some e /\
    cb_usage payload = zeroUsage.
Proof.
  intro Hurl. unfold reportError, bind, now, console, emit. simpl.
  destruct (dateNow w) as [t w1]. simpl. rewrite Hurl.
  unfold bind, buildErrorPayload, bind, now, ret, call, bind, emit. simpl.
  destruct (dateNow w1) as [t2 w2]. simpl.
  match goal with
  | |- context [sendCallback ?u ?pl ?s] =>
      pose proof (silent_sendCallback isSend u pl s) as SS;
      exists pl; destruct (res (sendCallback u pl s))
  end; count_calls; rewrite SS; repeat split; reflexivity.
Qed.

(** The trace of an execution whose setup throws. *)
Lemma executeRequest_setup_throws request (w : W) e :
  emptyPrompt request = false ->
  let startMs := fst (dateNow w) in
  let w1 := snd (dateNow w) in
  let o1 := setupWorkspace (req_workspace request) (loadBridgeConfig w1) w1 in
  res o1 = Throw e ->
  trace (executeRequest request w)
  = ECall (CallSetupWorkspace (req_workspace request))
    :: trace o1 ++ trace (reportError request startMs e (st o1)).
Proof.
  intros Hprompt startMs w1 o1. subst startMs w1 o1.
  unfold executeRequest, inFrame, bind, lift at 1 2, now, readWorld.
  simpl. destruct (dateNow w) as [startMs w1]. simpl. rewrite Hprompt.
  unfold tryFinally, tryCatch, bind, lift, call, emit, setCleanup,
    finallyCleanup, getCleanup, bind. simpl.
  set (o1 := setupWorkspace (req_workspace request) (loadBridgeConfig w1) w1).
  clearbody o1. intro E1. rewrite E1. simpl. now rewrite app_nil_r.
Qed.

End SetupFailure.

Lemma validPrompt_not_empty data prompt :
  Http.validPrompt data = Some prompt ->
  truthy prompt = true /\ seqb (trim prompt) [] = false.
Proof.
  unfold Http.validPrompt. destruct (field data (lit "prompt")); try discriminate.
  destruct (truthy s) eqn:T; try discriminate.
  destruct (seqb (trim s) []) eqn:E; try discriminate.
  intros [= <-]. auto.
Qed.

(** C10: [POST /execute] answers the workspace-type error only for a
    workspace object whose [type] is present and is neither ["git"] nor
    ["tempdir"].  A body with a valid prompt whose workspace object has
    no [type] is answered 202 and submitted; the execution of what was
    submitted calls [setupWorkspace], which throws ["Unsupported
    workspace type: undefined"]; no cleanup runs, and the callback, when
    one is asked for, has status [error] and that message. *)
Theorem untyped_workspace_accepted_then_fails :
  (forall uuid data resp sub,
     Http.accept uuid data = Ok (resp, sub) ->
     Http.http_json resp = Http.errorBody Http.invalidTypeMessage ->
     exists ws t,
       field data (lit "workspace") = JObj ws /\
       getProp ws (lit "type") = Some t /\
       t <> JUndefined /\ t <> JStr (lit "git") /\ t <> JStr (lit "tempdir")) /\
  (forall cfg parse uuid health req rawBody data prompt ws,
     Http.http_method req = lit "POST" ->
     Http.http_pathname req = lit "/execute" ->
     Http.authorize cfg req = Ok true ->
     Http.http_body req = Ok rawBody ->
     parse rawBody = Ok data ->
     Http.validPrompt data = Some prompt ->
     field data (lit "workspace") = JObj ws ->
     getProp ws (lit "type") = None ->
     exists resp s,
       Http.handle cfg parse uuid health req = Ok (resp, Some s) /\
       Http.http_status resp = 202%N /\
       Http.sub_workspace s = JObj ws /\
       forall (W : Type) (host : Host W) (r : ExecutionRequest) (w : W),
         Http.represents s r ->
         let o := executeRequest r w in
         req_workspace r = Some (WsOther None) /\
         (forall config w', res (setupWorkspace (req_workspace r) config w')
                            = Throw (lit "Unsupported workspace type: undefined")) /\
         calls isSetup (trace o) = [CallSetupWorkspace (req_workspace r)] /\
         calls isCleanup (trace o) = [] /\
         (forall url, callbackTarget r = Some url ->
            exists payload,
              calls isSend (trace o) = [CallSendCallback url payload] /\
              cb_status payload = StError /\
              cb_error payload
              = Some (lit "Unsupported workspace type: undefined"))).
Proof.
  split.
  - intros uuid data resp sub. unfold Http.accept.
    destruct data; try discriminate;
      match goal with
      | |- context [Http.validPrompt ?d] =>
          destruct (Http.validPrompt d) as [prompt|];
          [ destruct (Http.invalidWorkspaceType d) eqn:Einv | ]
      end; intros [= <- <-]; simpl; try discriminate; intros _;
      unfold Http.invalidWorkspaceType in Einv;
      match type of Einv with
      | context [field ?d ?k] => destruct (field d k) as [| | | | | |ws] eqn:Ef
      end; try discriminate;
      (destruct (getProp ws (lit "type")) as [t|] eqn:Et; [|discriminate]);
      exists ws, t; repeat split; auto; intros ->; try discriminate;
      vm_compute in Einv; discriminate.
  - intros cfg parse uuid health req rawBody data prompt ws
           Hm Hp Hauth Hbody Hparse Hprompt Hws Htype.
    assert (Hinv : Http.invalidWorkspaceType data = false).
    { unfold Http.invalidWorkspaceType. now rewrite Hws, Htype. }
    assert (Hacc : exists resp s,
               Http.accept uuid data = Ok (resp, Some s) /\
               Http.http_status resp = 202%N /\
               Http.sub_workspace s = JObj ws /\
               Http.sub_prompt s = prompt).
    { unfold Http.accept. rewrite Hprompt, Hinv.
      destruct data; try (vm_compute in Hws; discriminate);
        do 2 eexists; (split; [reflexivity|]); simpl; auto. }
    destruct Hacc as (resp & s & Hacc & Hst & Hsw & Hsp).
    exists resp, s. split; [|split; [exact Hst | split; [exact Hsw|]]].
    { unfold Http.handle. rewrite Hm, Hp, Hauth, Hbody, Hparse. exact Hacc. }
    intros W host r w (Hid & Hrp & Hcb & Hrw & Hmeta) o. subst o.
    assert (Hwsr : req_workspace r = Some (WsOther None)).
    { rewrite Hsw in Hrw. unfold Http.asWorkspace in Hrw. simpl in Hrw.
      rewrite Htype in Hrw. now injection Hrw as <-. }
    assert (Hne : emptyPrompt r = false).
    { unfold emptyPrompt. rewrite Hrp, Hsp.
      apply validPrompt_not_empty in Hprompt as [-> ->]. reflexivity. }
    assert (Hthrow : forall config w',
               setupWorkspace (req_workspace r) config w'
               = mkOut (Throw (lit "Unsupported workspace type: undefined"))
                       w' []).
    { intros. rewrite Hwsr. reflexivity. }
    split; [exact Hwsr|]. split; [intros; now rewrite Hthrow|].
    rewrite (@executeRequest_setup_throws W host r w
               (lit "Unsupported workspace type: undefined") Hne)
      by (now rewrite Hthrow).
    rewrite Hthrow. cbn [trace st app].
    split; [|split].
    + cbn [calls isSetup]. f_equal. apply silent_reportError; reflexivity.
    + cbn [calls isCleanup]. apply silent_reportError; reflexivity.
    + intros url Hurl. cbn [calls isSend].
      destruct (@reportError_sends W host r (fst (dateNow w))
                  (lit "Unsupported workspace type: undefined") url
                  (snd (dateNow w)) Hurl) as (payload & HP & Hs & He & _).
      exists payload. auto.
Qed.

(* ================================================================== *)
(** * Properties: the request queue *)
(* ================================================================== *)

Section QueueBound.

Variable R : Type.

Lemma bounded_submit r (s : Queue.State R) :
  bounded s -> bounded (Queue.submit r s).
Proof.
  unfold bounded, Queue.submit. intro H.
  destruct (Queue.active s <? Queue.maxConcurrent s) eqn:E; simpl; [|exact H].
  apply Nat.ltb_lt in E. lia.
Qed.

Lemma bounded_release (s : Queue.State R) :
  bounded s -> bounded (Queue.release s).
Proof. unfold bounded. simpl. lia. Qed.

Lemma bounded_complete o (s : Queue.State R) :
  bounded s -> 0 < Queue.active s -> bounded (Queue.complete o s).
Proof.
  unfold bounded, Queue.complete, Queue.promote. simpl. intros H Hpos.
  destruct (Queue.queued s); simpl; lia.
Qed.

Lemma max_apply a (s : Queue.State R) :
  Queue.maxConcurrent (Queue.apply a s) = Queue.maxConcurrent s.
Proof.
  destruct a as [r|o]; simpl.
  - unfold Queue.submit. now destruct (_ <? _).
  - unfold Queue.complete, Queue.promote. simpl. now destruct (Queue.queued s).
Qed.

Lemma observed_bounded actions : forall s : Queue.State R,
  bounded s -> Queue.feasible s actions ->
  Forall (@bounded R) (Queue.observed s actions).
Proof.
  induction actions as [|a rest IH]; intros s Hb Hf; simpl; [constructor|].
  destruct Hf as [Ha Hrest]. apply Forall_app. split.
  - destruct a as [r|o]; simpl.
    + constructor; [now apply bounded_submit | constructor].
    + constructor; [now apply bounded_release|].
      constructor; [now apply bounded_complete | constructor].
  - apply IH; [|exact Hrest].
    destruct a as [r|o]; simpl;
      [now apply bounded_submit | now apply bounded_complete].
Qed.

(** C2: whatever is submitted and whenever executions complete, the
    active count never exceeds the configured maximum, at no instant;
    and a completion, of either outcome, decrements the active count
    and, when the backlog is not empty, dequeues its head and starts
    it. *)
Theorem active_never_exceeds_maximum (max : nat) (actions : list (Queue.Action R)) :
  Queue.feasible (Queue.init max) actions ->
  Forall (fun s => Queue.active s <= max)
         (Queue.init max :: Queue.observed (Queue.init max) actions) /\
  (forall o (s : Queue.State R),
     Queue.active (Queue.release s) = Queue.active s - 1 /\
     match Queue.queued s with
     | [] => Queue.complete o s = Queue.release s
     | r :: rest =>
         Queue.active (Queue.complete o s) = S (Queue.active s - 1) /\
         Queue.queued (Queue.complete o s) = rest /\
         Queue.started (Queue.complete o s) = Queue.started s ++ [r]
     end).
Proof.
  intro Hf. split.
  - assert (Hmax : forall s acts,
               Queue.maxConcurrent s = max ->
               Forall (fun s' : Queue.State R => Queue.maxConcurrent s' = max)
                      (Queue.observed s acts)).
    { intros s acts. revert s. induction acts as [|a rest IH]; intros s Hs;
        simpl; [constructor|].
      apply Forall_app. split.
      - destruct a as [r|o]; simpl; repeat constructor; simpl.
        + unfold Queue.submit. now destruct (_ <? _).
        + exact Hs.
        + unfold Queue.complete, Queue.promote. simpl.
          now destruct (Queue.queued s).
      - apply IH. now rewrite max_apply. }
    constructor; [simpl; lia|].
    pose proof (@observed_bounded actions (Queue.init max)) as Hb.
    specialize (Hb ltac:(unfold bounded; simpl; lia) Hf).
    specialize (Hmax (Queue.init max) actions eq_refl).
    rewrite Forall_forall in *. intros s Hs.
    specialize (Hb s Hs). specialize (Hmax s Hs). unfold bounded in Hb. lia.
  - intros o s. split; [reflexivity|].
    unfold Queue.complete, Queue.promote. simpl.
    destruct (Queue.queued s); simpl; auto.
Qed.

End QueueBound.

(* ================================================================== *)
(** * The theorems at concrete inputs *)
(* ================================================================== *)


(** A git workspace whose provider succeeds: the worktree's cleanup is
    the one call. *)
Lemma cleanup_exactly_once_witness :
  calls isCleanup (trace (executeRequest Examples.pushRequest Examples.pushedWorld))
  = [CallCleanup (CleanWorktree (lit "/tmp/agent-bridge/repos/owner--repo.git")
                                Examples.worktree)].
Proof.
  pose proof (@cleanup_exactly_once Sim.World Sim.host Examples.pushRequest
                Examples.pushedWorld eq_refl) as H.
  cbv zeta in H. destruct H as [_ H].
  vm_compute in H. vm_compute. exact H.
Defined.

(** A body whose workspace has a [repo] and no [type] is accepted. *)
Lemma untyped_workspace_accepted_then_fails_witness :
  exists resp s,
    Http.handle Examples.openConfig (fun _ => Ok Examples.untypedBody)
                (lit "0b7e") [] Examples.post = Ok (resp, Some s) /\
    Http.http_status resp = 202%N.
Proof.
  destruct (proj2 untyped_workspace_accepted_then_fails
              Examples.openConfig (fun _ => Ok Examples.untypedBody)
              (lit "0b7e") [] Examples.post (lit "{...}") Examples.untypedBody
              (lit "say hello") [(lit "repo", JStr (lit "owner/repo"))]
              eq_refl eq_refl eq_refl eq_refl eq_refl eq_refl eq_refl eq_refl)
    as (resp & s & H1 & H2 & _).
  exists resp, s. split; [exact H1 | exact H2].
Defined.

(** Four submissions at a maximum of two, then completions. *)
Lemma active_never_exceeds_maximum_witness :
  Forall (fun s => Queue.active s <= 2)
         (Queue.init 2 :: Queue.observed (Queue.init 2) Examples.burst).
Proof.
  apply (@active_never_exceeds_maximum nat 2 Examples.burst).
  simpl. repeat split; lia.
Defined.

(* ================================================================== *)
(** * Properties: stepping through a program *)
(* ================================================================== *)

Section WpRules.

Variable S : Type.

Lemma wp_ret A (a : A) (s : S) Q : Q (mkOut (Ok a) s []) -> wp (ret a) s Q.
Proof. exact (fun H => H). Qed.

Lemma wp_throw A e (s : S) (Q : Out S A -> Prop) :
  Q (mkOut (Throw e) s []) -> wp (throw e) s Q.
Proof. exact (fun H => H). Qed.

Lemma wp_bind A B (m : M S A) (f : A -> M S B) s Q :
  wp m s (fun o =>
    match res o with
    | Ok a => wp (f a) (st o) (fun o' => Q (after (trace o) o'))
    | Throw e => Q (mkOut (Throw e) (st o) (trace o))
    end) ->
  wp (bind m f) s Q.
Proof.
  unfold wp, bind, after. destruct (res (m s)); exact (fun H => H).
Qed.

Lemma wp_tryCatch A (m : M S A) h s Q :
  wp m s (fun o =>
    match res o with
    | Ok _ => Q o
    | Throw e => wp (h e) (st o) (fun o' => Q (after (trace o) o'))
    end) ->
  wp (tryCatch m h) s Q.
Proof.
  unfold wp, tryCatch, after. destruct (res (m s)); exact (fun H => H).
Qed.

Lemma wp_tryFinally A (m : M S A) f s Q :
  wp m s (fun o =>
    wp f (st o) (fun o' =>
      Q (mkOut match res o' with Ok _ => res o | Throw e => Throw e end
               (st o') (trace o ++ trace o')))) ->
  wp (tryFinally m f) s Q.
Proof.
  unfold wp, tryFinally. destruct (res (f (st (m s)))); exact (fun H => H).
Qed.

Lemma wp_emit e (s : S) Q : Q (mkOut (Ok tt) s [e]) -> wp (emit e) s Q.
Proof. exact (fun H => H). Qed.

Lemma wp_console c msg (s : S) Q :
  Q (mkOut (Ok tt) s [EConsole c msg]) -> wp (console c msg) s Q.
Proof. exact (fun H => H). Qed.

Lemma wp_call A c (body : M S A) s Q :
  wp body s (fun o => Q (after [ECall c] o)) -> wp (call c body) s Q.
Proof. unfold call. intro H. apply wp_bind. exact H. Qed.

Lemma wp_liftResult A (r : result A) (s : S) Q :
  Q (mkOut r s []) -> wp (liftResult r) s Q.
Proof. destruct r; exact (fun H => H). Qed.

(** Every outcome of a sub-program, known by its equation only. *)
Lemma wp_any A (m : M S A) s (Q : Out S A -> Prop) :
  (forall o, o = m s -> Q o) -> wp m s Q.
Proof. intro H. now apply H. Qed.

Lemma wp_conseq A (m : M S A) s (Q Q' : Out S A -> Prop) :
  wp m s Q -> (forall o, Q o -> Q' o) -> wp m s Q'.
Proof. intros H HQ. now apply HQ. Qed.

End WpRules.

Section WpHost.

Context {W : Type} {host : Host W}.

Lemma wp_now (w : W) Q :
  (forall t w', dateNow w = (t, w') -> Q (mkOut (Ok t) w' [])) -> wp now w Q.
Proof. unfold wp, now. intro H. destruct (dateNow w) as [t w']. now apply H. Qed.

Lemma wp_execM cmd cwd (w : W) Q :
  (forall r w', exec cmd cwd w = (r, w') -> Q (mkOut r w' [EExec cmd cwd])) ->
  wp (execM cmd cwd) w Q.
Proof.
  unfold wp, execM. intro H. destruct (exec cmd cwd w) as [r w']. now apply H.
Qed.

Lemma wp_fsM c (w : W) Q :
  (forall r w', fsCall c w = (r, w') -> Q (mkOut r w' [EFs c])) ->
  wp (fsM c) w Q.
Proof.
  unfold wp, fsM. intro H. destruct (fsCall c w) as [r w']. now apply H.
Qed.

Lemma wp_readWorld A (f : W -> A) (w : W) Q :
  Q (mkOut (Ok (f w)) w []) -> wp (readWorld f) w Q.
Proof. exact (fun H => H). Qed.

Lemma wp_readResult A (f : W -> result A) (w : W) Q :
  Q (mkOut (f w) w []) -> wp (readResult f) w Q.
Proof. exact (fun H => H). Qed.

Lemma wp_fetchM url payload (w : W) Q :
  (forall o w', fetchPost url payload w = (o, w') ->
     Q (mkOut match o with FetchRejected e => Throw e | _ => Ok o end
              w' [EFetch url payload])) ->
  wp (fetchM url payload) w Q.
Proof.
  unfold wp, fetchM. intro H.
  destruct (fetchPost url payload w) as [o w'] eqn:E.
  specialize (H o w' eq_refl). now destruct o.
Qed.

Lemma wp_raceM prov ctx t id (w : W) Q :
  (forall o w', providerRace prov ctx t w = (o, w') ->
     Q (mkOut match o with
              | ProviderResolved r => Ok r
              | ProviderRejected e => Throw e
              | TimerFired => Throw (timeoutMessage t id)
              end w' [ERun prov ctx t])) ->
  wp (raceM prov ctx t id) w Q.
Proof.
  unfold wp, raceM. intro H.
  destruct (providerRace prov ctx t w) as [o w']. now apply H.
Qed.

Lemma wp_lift A (m : M W A) (s : Frame (W:=W)) Q :
  wp m (fst s) (fun o => Q (mkOut (res o) (st o, snd s) (trace o))) ->
  wp (lift m) s Q.
Proof. exact (fun H => H). Qed.

Lemma wp_inFrame A (m : M (Frame (W:=W)) A) (w : W) Q :
  wp m (w, None) (fun o => Q (mkOut (res o) (fst (st o)) (trace o))) ->
  wp (inFrame m) w Q.
Proof. exact (fun H => H). Qed.

End WpHost.

(** Turn a goal about [m s] into [wp m s _]. *)
Ltac wp_start m s :=
  pattern (m s);
  match goal with
  | |- ?Q (m s) => change (wp m s Q)
  end.

(** One step of the program at the head of the goal. *)
Ltac wp_step :=
  lazymatch goal with
  | |- wp (bind _ _) _ _ => apply wp_bind
  | |- wp (tryCatch _ _) _ _ => apply wp_tryCatch
  | |- wp (tryFinally _ _) _ _ => apply wp_tryFinally
  | |- wp (call _ _) _ _ => apply wp_call
  | |- wp (ret _) _ _ => apply wp_ret
  | |- wp (throw _) _ _ => apply wp_throw
  | |- wp (emit _) _ _ => apply wp_emit
  | |- wp (console _ _) _ _ => apply wp_console
  | |- wp (liftResult _) _ _ => apply wp_liftResult
  | |- wp now _ _ => apply wp_now; intros ? ? ?
  | |- wp (execM _ _) _ _ => apply wp_execM; intros ? ? ?
  | |- wp (fsM _) _ _ => apply wp_fsM; intros ? ? ?
  | |- wp (readWorld _) _ _ => apply wp_readWorld
  | |- wp (readResult _) _ _ => apply wp_readResult
  | |- wp (fetchM _ _) _ _ => apply wp_fetchM; intros ? ? ?
  | |- wp (raceM _ _ _ _) _ _ => apply wp_raceM; intros ? ? ?
  | |- wp (lift _) _ _ => apply wp_lift
  | |- wp (inFrame _) _ _ => apply wp_inFrame
  end; cbn [res st trace after fst snd].

(* ================================================================== *)
(** * Properties: what a program never emits *)
(* ================================================================== *)

Section Avoids.

Variable S : Type.
Variable q : Event -> bool.

Lemma avoids_ret A (a : A) : avoids (S:=S) q (ret a).
Proof. intro s; reflexivity. Qed.

Lemma avoids_throw A e : avoids q (@throw S A e).
Proof. intro s; reflexivity. Qed.

Lemma avoids_bind A B (m : M S A) (f : A -> M S B) :
  avoids q m -> (forall a, avoids q (f a)) -> avoids q (bind m f).
Proof.
  intros Hm Hf s. unfold bind.
  destruct (res (m s)) eqn:E; simpl; [|apply Hm].
  rewrite filter_app, Hm, Hf. reflexivity.
Qed.

Lemma avoids_tryCatch A (m : M S A) h :
  avoids q m -> (forall e, avoids q (h e)) -> avoids q (tryCatch m h).
Proof.
  intros Hm Hh s. unfold tryCatch.
  destruct (res (m s)) eqn:E; simpl; [apply Hm|].
  rewrite filter_app, Hm, Hh. reflexivity.
Qed.

Lemma avoids_tryFinally A (m : M S A) f :
  avoids q m -> avoids q f -> avoids q (tryFinally m f).
Proof.
  intros Hm Hf s. unfold tryFinally.
  destruct (res (f (st (m s)))); simpl; rewrite filter_app, Hm, Hf; reflexivity.
Qed.

Lemma avoids_emit e : q e = false -> avoids (S:=S) q (emit e).
Proof. intros H s. simpl. now rewrite H. Qed.

Lemma avoids_console c msg :
  q (EConsole c msg) = false -> avoids (S:=S) q (console c msg).
Proof. apply avoids_emit. Qed.

Lemma avoids_call A c (body : M S A) :
  q (ECall c) = false -> avoids q body -> avoids q (call c body).
Proof.
  intros Hc Hb. unfold call. apply avoids_bind; [|intros _; exact Hb].
  now apply avoids_emit.
Qed.

Lemma avoids_liftResult A (r : result A) : avoids (S:=S) q (liftResult r).
Proof. destruct r; intro s; reflexivity. Qed.

Lemma avoids_forEach A (xs : list A) f :
  (forall x, avoids (S:=S) q (f x)) -> avoids q (forEach xs f).
Proof.
  intro Hf. induction xs as [|x xs IH]; simpl.
  - apply avoids_ret.
  - apply avoids_bind; [apply Hf | intros _; exact IH].
Qed.

End Avoids.

Section AvoidsHost.

Context {W : Type} {host : Host W}.
Variable q : Event -> bool.

Lemma avoids_now : avoids q now.
Proof. intro w. unfold now. destruct (dateNow w). reflexivity. Qed.

Lemma avoids_execM cmd cwd :
  q (EExec cmd cwd) = false -> avoids q (execM cmd cwd).
Proof.
  intros H w. unfold execM. destruct (exec cmd cwd w). simpl. now rewrite H.
Qed.

Lemma avoids_fsM c : q (EFs c) = false -> avoids q (fsM c).
Proof.
  intros H w. unfold fsM. destruct (fsCall c w). simpl. now rewrite H.
Qed.

Lemma avoids_readWorld A (f : W -> A) : avoids q (readWorld f).
Proof. intro w. reflexivity. Qed.

Lemma avoids_readResult A (f : W -> result A) : avoids q (readResult f).
Proof. intro w. reflexivity. Qed.

Lemma avoids_fetchM url payload :
  q (EFetch url payload) = false -> avoids q (fetchM url payload).
Proof.
  intros H w. unfold fetchM.
  destruct (fetchPost url payload w) as [[]]; simpl; now rewrite H.
Qed.

Lemma avoids_raceM prov ctx t id :
  q (ERun prov ctx t) = false -> avoids q (raceM prov ctx t id).
Proof.
  intros H w. unfold raceM. destruct (providerRace prov ctx t w). simpl.
  now rewrite H.
Qed.

Lemma avoids_lift A (m : M W A) : avoids q m -> avoids q (lift m).
Proof. intros Hm s. unfold lift. simpl. apply Hm. Qed.

Lemma avoids_inFrame A (m : M (Frame (W:=W)) A) :
  avoids q m -> avoids q (inFrame m).
Proof. intros Hm w. unfold inFrame. simpl. apply Hm. Qed.

End AvoidsHost.

Create HintDb avoids.
#[global] Hint Resolve avoids_ret avoids_throw avoids_liftResult avoids_now
  avoids_readWorld avoids_readResult : avoids.

(** Walk down a program; the events it may emit are decided by
    computation. *)
Ltac avoid :=
  repeat first
    [ solve [auto with avoids]
    | apply avoids_bind
    | apply avoids_tryCatch
    | apply avoids_tryFinally
    | apply avoids_forEach
    | apply avoids_call
    | apply avoids_console
    | apply avoids_emit
    | apply avoids_execM
    | apply avoids_fsM
    | apply avoids_fetchM
    | apply avoids_raceM
    | apply avoids_lift
    | match goal with
      | |- forall _, _ => intro
      | |- avoids _ (match ?x with _ => _ end) => destruct x
      | |- avoids _ (if ?b then _ else _) => destruct b
      | |- avoids _ (let _ := _ in _) => cbv zeta
      | |- _ = false => reflexivity
      end ].

(* ================================================================== *)
(** * Properties: the regular expression of repoSlug *)
(* ================================================================== *)

Section RegexFacts.

Variable R : Type.

(** A repetition that succeeds has consumed a non-empty run of the
    class and continued on what is left. *)
Lemma plusGreedy_sound cls s (k : jsstring -> option R) x :
  plusGreedy cls s k = Some x ->
  exists pre rest,
    s = pre ++ rest /\ pre <> [] /\ forallb cls pre = true /\ k rest = Some x.
Proof.
  revert x. induction s as [|c r IH]; intros x; simpl; [discriminate|].
  destruct (cls c) eqn:Ec; [|discriminate].
  destruct (plusGreedy cls r k) as [y|] eqn:E.
  - intros [= <-]. destruct (IH y eq_refl) as (pre & rest & -> & _ & Hpre & Hk).
    exists (c :: pre), rest. simpl. rewrite Ec, Hpre. repeat split; auto.
    discriminate.
  - intro Hk. exists [c], r. simpl. rewrite Ec. repeat split; auto.
    discriminate.
Qed.

Lemma plusLazy_sound cls s (k : jsstring -> option R) x :
  plusLazy cls s k = Some x ->
  exists pre rest,
    s = pre ++ rest /\ pre <> [] /\ forallb cls pre = true /\ k rest = Some x.
Proof.
  revert x. induction s as [|c r IH]; intros x; simpl; [discriminate|].
  destruct (cls c) eqn:Ec; [|discriminate].
  destruct (k r) as [y|] eqn:E.
  - intros [= <-]. exists [c], r. simpl. rewrite Ec. repeat split; auto.
    discriminate.
  - intro H. destruct (IH x H) as (pre & rest & -> & _ & Hpre & Hk).
    exists (c :: pre), rest. simpl. rewrite Ec, Hpre. repeat split; auto.
    discriminate.
Qed.

(** The greedy repetition takes the whole run when the continuation
    accepts what follows it. *)
Lemma plusGreedy_longest cls pre rest (k : jsstring -> option R) x :
  pre <> [] -> forallb cls pre = true ->
  match rest with [] => True | c :: _ => cls c = false end ->
  k rest = Some x ->
  plusGreedy cls (pre ++ rest) k = Some x.
Proof.
  intros Hne Hpre Hrest Hk.
  assert (Hstop : plusGreedy cls rest k = None).
  { destruct rest as [|c r]; simpl; [reflexivity | now rewrite Hrest]. }
  induction pre as [|c pre IH]; [congruence|].
  simpl in *. apply andb_true_iff in Hpre as [Hc Hpre]. rewrite Hc.
  destruct pre as [|c' pre'].
  - simpl. now rewrite Hstop.
  - rewrite IH; auto. discriminate.
Qed.

(** The lazy repetition takes the whole run when the continuation
    refuses every earlier stop. *)
Lemma plusLazy_first cls pre rest (k : jsstring -> option R) x :
  pre <> [] -> forallb cls pre = true ->
  (forall p1 p2, pre = p1 ++ p2 -> p1 <> [] -> p2 <> [] ->
                 k (p2 ++ rest) = None) ->
  k rest = Some x ->
  plusLazy cls (pre ++ rest) k = Some x.
Proof.
  intros Hne Hpre Hearly Hk.
  induction pre as [|c pre IH]; [congruence|].
  simpl in *. apply andb_true_iff in Hpre as [Hc Hpre]. rewrite Hc.
  destruct pre as [|c' pre'].
  - simpl. now rewrite Hk.
  - rewrite (Hearly [c] (c' :: pre')) by (auto; discriminate).
    apply IH; auto; [discriminate|].
    intros p1 p2 E H1 H2. apply (Hearly (c :: p1) p2); auto.
    + simpl. now rewrite E.
    + discriminate.
Qed.

End RegexFacts.

Lemma stripPrefix_sound p s rest : stripPrefix p s = Some rest -> s = p ++ rest.
Proof.
  revert s. induction p as [|c p IH]; intros s; simpl.
  - now intros [= ->].
  - destruct s as [|d s]; [discriminate|].
    destruct (N.eqb c d) eqn:E; [|discriminate].
    apply N.eqb_eq in E as ->. intro H. now rewrite (IH _ H).
Qed.

Lemma firstn_consumed (a rest : jsstring) :
  firstn (List.length (a ++ rest) - List.length rest) (a ++ rest) = a.
Proof.
  rewrite length_app. replace (List.length a + List.length rest - List.length rest)%nat
    with (List.length a + 0)%nat by lia.
  rewrite firstn_app_2. simpl. apply app_nil_r.
Qed.

Lemma repoTail_sound t cap0 c :
  run repoTail t cap0 capture = Some c ->
  exists a b suf,
    t = a ++ [slash] ++ b ++ suf /\
    (suf = [] \/ suf = lit ".git") /\
    a <> [] /\ forallb notSlash a = true /\
    b <> [] /\ forallb notSlashDot b = true /\
    c = Some (a ++ [slash] ++ b).
Proof.
  intro H. unfold repoTail in H. cbn [run] in H.
  apply plusGreedy_sound in H as (a & rest1 & -> & Ha & Hacls & H).
  destruct (stripPrefix [slash] rest1) as [rest2|] eqn:E1; [|discriminate].
  apply stripPrefix_sound in E1 as ->.
  apply plusLazy_sound in H as (b & rest3 & -> & Hb & Hbcls & H).
  assert (Hcap : firstn (List.length (a ++ [slash] ++ b ++ rest3) - List.length rest3)
                        (a ++ [slash] ++ b ++ rest3) = a ++ [slash] ++ b).
  { replace (a ++ [slash] ++ b ++ rest3) with ((a ++ [slash] ++ b) ++ rest3)
      by (now rewrite <- !app_assoc).
    apply firstn_consumed. }
  rewrite Hcap in H. unfold capture in H.
  destruct (stripPrefix (lit ".git") rest3) as [rest4|] eqn:E2.
  - apply stripPrefix_sound in E2 as ->.
    destruct rest4 as [|x xs].
    + injection H as <-. exists a, b, (lit ".git"). rewrite app_nil_r.
      repeat split; auto.
    + discriminate.
  - destruct rest3 as [|x xs]; [|discriminate].
    injection H as <-. exists a, b, []. repeat split; auto.
Qed.

Lemma repoRegex_unfold s :
  run repoRegex s None capture =
  match match stripPrefix (lit "github.com/") s with
        | Some rest => run repoTail rest None capture
        | None => None
        end with
  | Some x => Some x
  | None => run repoTail s None capture
  end.
Proof. reflexivity. Qed.

(** What a match of the expression at the front of [s] looks like. *)
Lemma repoRegex_sound s c :
  run repoRegex s None capture = Some c ->
  exists gh a b suf,
    s = gh ++ a ++ [slash] ++ b ++ suf /\
    (suf = [] \/ suf = lit ".git") /\
    a <> [] /\ forallb notSlash a = true /\
    b <> [] /\ forallb notSlashDot b = true /\
    c = Some (a ++ [slash] ++ b).
Proof.
  rewrite repoRegex_unfold.
  destruct (stripPrefix (lit "github.com/") s) as [rest|] eqn:E.
  - destruct (run repoTail rest None capture) as [x|] eqn:E1.
    + intros [= <-]. apply stripPrefix_sound in E as ->.
      apply repoTail_sound in E1 as (a & b & suf & -> & H).
      exists (lit "github.com/"), a, b, suf. auto.
    + intro H. apply repoTail_sound in H as (a & b & suf & -> & H).
      exists [], a, b, suf. auto.
  - intro H. apply repoTail_sound in H as (a & b & suf & -> & H).
    exists [], a, b, suf. auto.
Qed.

Lemma search_unfold s :
  search repoRegex s =
  match run repoRegex s None capture with
  | Some cap => Some cap
  | None => match s with [] => None | _ :: t => search repoRegex t end
  end.
Proof. destruct s; reflexivity. Qed.

Lemma search_sound s c :
  search repoRegex s = Some c ->
  exists pre a b suf,
    s = pre ++ a ++ [slash] ++ b ++ suf /\
    (suf = [] \/ suf = lit ".git") /\
    a <> [] /\ forallb notSlash a = true /\
    b <> [] /\ forallb notSlashDot b = true /\
    c = Some (a ++ [slash] ++ b).
Proof.
  induction s as [|x s IH]; rewrite search_unfold;
    destruct (run repoRegex _ None capture) as [y|] eqn:E.
  - apply repoRegex_sound in E as (gh & a & b & suf & E & _).
    symmetry in E. apply app_eq_nil in E as [_ E].
    apply app_eq_nil in E as [_ E]. discriminate.
  - discriminate.
  - intros [= <-].
    apply repoRegex_sound in E as (gh & a & b & suf & E & H).
    exists gh, a, b, suf. auto.
  - intro H. apply IH in H as (pre & a & b & suf & -> & H).
    exists (x :: pre), a, b, suf. auto.
Qed.

Lemma replaceFirst_slash a by_ b :
  forallb notSlash a = true ->
  replaceFirst [slash] by_ (a ++ slash :: b) = a ++ by_ ++ b.
Proof.
  intro Ha. induction a as [|c a IH].
  - reflexivity.
  - simpl in Ha. apply andb_true_iff in Ha as [Hc Ha].
    unfold notSlash in Hc. apply negb_true_iff in Hc.
    cbn [app replaceFirst stripPrefix]. rewrite N.eqb_sym, Hc.
    now rewrite IH.
Qed.

Lemma notSlashDot_notSlash b :
  forallb notSlashDot b = true -> forallb notSlash b = true.
Proof.
  induction b as [|c b IH]; simpl; [reflexivity|].
  intro H. apply andb_true_iff in H as [Hc Hb]. rewrite IH by exact Hb.
  unfold notSlashDot in Hc. unfold notSlash.
  apply negb_true_iff, orb_false_iff in Hc as [-> _]. reflexivity.
Qed.

(** What [repoSlug] accepts, and what it returns. *)
Lemma repoSlug_parts repo slug :
  repoSlug repo = Ok slug ->
  exists pre a b suf,
    repo = pre ++ a ++ [slash] ++ b ++ suf /\
    (suf = [] \/ suf = lit ".git") /\
    a <> [] /\ forallb notSlash a = true /\
    b <> [] /\ forallb notSlashDot b = true /\
    slug = a ++ lit "--" ++ b /\
    plainSegment slug.
Proof.
  unfold repoSlug.
  destruct (search repoRegex repo) as [[m|]|] eqn:E; try discriminate.
  intros [= <-].
  apply search_sound in E as (pre & a & b & suf & -> & Hs & Ha & Hac & Hb & Hbc & [= ->]).
  exists pre, a, b, suf.
  assert (Eslug : replaceFirst [slash] (lit "--") (a ++ slash :: b)
                  = a ++ lit "--" ++ b) by now apply replaceFirst_slash.
  rewrite Eslug. unfold plainSegment. repeat split; auto.
  - destruct a; [congruence | discriminate].
  - rewrite !forallb_app, Hac, (notSlashDot_notSlash _ Hbc). reflexivity.
  - apply seqb_neq. intro H. apply (f_equal (@List.length N)) in H.
    rewrite !length_app in H. simpl in H.
    destruct a; [congruence|]. simpl in H. lia.
  - apply seqb_neq. intro H. apply (f_equal (@List.length N)) in H.
    rewrite !length_app in H. simpl in H.
    destruct a; [congruence|]. destruct b; [congruence|]. simpl in H. lia.
Qed.

(** X1: every repository string that [repoSlug] accepts ends with an
    owner part without a slash, one slash, and a name part without a
    slash or a dot, optionally followed by [.git]; the slug is the owner,
    two dashes and the name, and it is a single path segment (not empty,
    no slash, neither [.] nor [..]). *)
Theorem repoSlug_shape repo slug :
  repoSlug repo = Ok slug ->
  exists pre a b suf,
    repo = pre ++ a ++ [slash] ++ b ++ suf /\
    (suf = [] \/ suf = lit ".git") /\
    a <> [] /\ forallb notSlash a = true /\
    b <> [] /\ forallb notSlashDot b = true /\
    slug = a ++ lit "--" ++ b /\
    plainSegment slug.
Proof. exact (@repoSlug_parts repo slug). Qed.

Lemma notSlashDot_head b :
  b <> [] -> forallb notSlashDot b = true ->
  forall rest, stripPrefix (lit ".git") (b ++ rest) = None.
Proof.
  intros Hne Hb rest. destruct b as [|c b]; [congruence|].
  simpl in Hb. apply andb_true_iff in Hb as [Hc _].
  unfold notSlashDot in Hc. apply negb_true_iff, orb_false_iff in Hc as [_ Hc].
  change (lit ".git") with (dot :: lit "git"). cbn [app stripPrefix].
  rewrite N.eqb_sym in Hc. now rewrite Hc.
Qed.

(** The tail of the expression accepts [owner/repo] and
    [owner/repo.git], and captures [owner/repo]. *)
Lemma repoTail_accepts owner repo suf cap0 :
  owner <> [] -> forallb notSlash owner = true ->
  repo <> [] -> forallb notSlashDot repo = true ->
  suf = [] \/ suf = lit ".git" ->
  run repoTail (owner ++ [slash] ++ repo ++ suf) cap0 capture
  = Some (Some (owner ++ [slash] ++ repo)).
Proof.
  intros Ho Hoc Hr Hrc Hsuf. unfold repoTail. cbn [run].
  apply plusGreedy_longest; auto.
  { reflexivity. }
  change ([slash] ++ repo ++ suf) with (slash :: repo ++ suf).
  cbn [stripPrefix]. rewrite N.eqb_refl.
  replace (List.length (owner ++ slash :: repo ++ suf))
    with (List.length ((owner ++ [slash] ++ repo) ++ suf))
    by (now rewrite <- !app_assoc).
  apply plusLazy_first; auto.
  - intros p1 p2 -> H1 H2.
    rewrite forallb_app in Hrc. apply andb_true_iff in Hrc as [_ Hp2].
    rewrite <- app_assoc, (notSlashDot_head H2 Hp2).
    destruct p2; [congruence | reflexivity].
  - assert (Hcap : firstn (List.length ((owner ++ [slash] ++ repo) ++ suf)
                           - List.length suf) (owner ++ slash :: repo ++ suf)
                   = owner ++ [slash] ++ repo).
    { replace (owner ++ slash :: repo ++ suf)
        with ((owner ++ [slash] ++ repo) ++ suf) by (now rewrite <- !app_assoc).
      apply firstn_consumed. }
    rewrite Hcap. destruct Hsuf as [-> | ->]; reflexivity.
Qed.

Lemma forallb_notSlash_In t : forallb notSlash t = true -> ~ In slash t.
Proof.
  induction t as [|c t IH]; simpl; [tauto|].
  intro H. apply andb_true_iff in H as [Hc Ht]. intros [-> | Hin].
  - unfold notSlash in Hc. now rewrite N.eqb_refl in Hc.
  - now apply IH.
Qed.

Lemma repoTail_needs_slash t cap0 :
  forallb notSlash t = true -> run repoTail t cap0 capture = None.
Proof.
  intro Ht. destruct (run repoTail t cap0 capture) as [c|] eqn:E; [|reflexivity].
  apply repoTail_sound in E as (a & b & suf & -> & _).
  apply forallb_notSlash_In in Ht. exfalso. apply Ht.
  apply in_or_app. right. now left.
Qed.

(** The first slash of a string splits it in one way. *)
Lemma first_slash_unique x x' y y' :
  forallb notSlash x = true -> forallb notSlash x' = true ->
  x ++ slash :: y = x' ++ slash :: y' -> x = x' /\ y = y'.
Proof.
  revert x'. induction x as [|c x IH]; intros [|c' x'] Hx Hx' E; simpl in *.
  - injection E as ->. auto.
  - injection E as <- _. apply andb_true_iff in Hx' as [Hc _].
    unfold notSlash in Hc. now rewrite N.eqb_refl in Hc.
  - injection E as -> _. apply andb_true_iff in Hx as [Hc _].
    unfold notSlash in Hc. now rewrite N.eqb_refl in Hc.
  - injection E as -> E. apply andb_true_iff in Hx as [_ Hx].
    apply andb_true_iff in Hx' as [_ Hx'].
    destruct (IH x' Hx Hx' E) as [-> ->]. auto.
Qed.

Lemma last_slash_unique x x' y y' :
  forallb notSlash y = true -> forallb notSlash y' = true ->
  x ++ slash :: y = x' ++ slash :: y' -> x = x' /\ y = y'.
Proof.
  intros Hy Hy' E. apply (f_equal (@rev N)) in E.
  rewrite !rev_app_distr in E. simpl in E. rewrite <- !app_assoc in E.
  simpl in E.
  apply first_slash_unique in E; try (now rewrite forallb_rev).
  destruct E as [E1 E2]. apply (f_equal (@rev N)) in E1, E2.
  rewrite !rev_involutive in E1, E2. auto.
Qed.

(** A reference of one slash at the front of the search. *)
Lemma repoRegex_accepts owner repo suf :
  owner <> [] -> forallb notSlash owner = true ->
  repo <> [] -> forallb notSlashDot repo = true ->
  suf = [] \/ suf = lit ".git" ->
  run repoRegex (owner ++ [slash] ++ repo ++ suf) None capture
  = Some (Some (owner ++ [slash] ++ repo)).
Proof.
  intros Ho Hoc Hr Hrc Hsuf. rewrite repoRegex_unfold.
  rewrite (@repoTail_accepts owner repo suf None Ho Hoc Hr Hrc Hsuf).
  destruct (stripPrefix (lit "github.com/") (owner ++ [slash] ++ repo ++ suf))
    as [rest|] eqn:E; [|reflexivity].
  apply stripPrefix_sound in E.
  change (lit "github.com/" ++ rest) with (lit "github.com" ++ slash :: rest) in E.
  apply first_slash_unique in E as [_ <-]; auto.
  rewrite repoTail_needs_slash; [reflexivity|].
  rewrite forallb_app, (notSlashDot_notSlash _ Hrc).
  destruct Hsuf as [-> | ->]; reflexivity.
Qed.

(** X2: for an owner and a name without a slash, [repoSlug] accepts
    [owner/name] exactly when the owner is not empty and the name is a
    non-empty run without dots, optionally followed by [.git]; the slug
    is then the owner, two dashes and that run. *)
Theorem repoSlug_owner_name owner name slug :
  forallb notSlash owner = true -> forallb notSlash name = true ->
  (repoSlug (owner ++ [slash] ++ name) = Ok slug <->
   owner <> [] /\
   exists b, b <> [] /\ forallb notSlashDot b = true /\
             (name = b \/ name = b ++ lit ".git") /\
             slug = owner ++ lit "--" ++ b).
Proof.
  intros Ho Hn.
  assert (Hyes : forall b suf,
             owner <> [] -> b <> [] -> forallb notSlashDot b = true ->
             suf = [] \/ suf = lit ".git" ->
             repoSlug (owner ++ [slash] ++ b ++ suf) = Ok (owner ++ lit "--" ++ b)).
  { intros b suf Hone Hb Hbc Hsuf. unfold repoSlug. rewrite search_unfold.
    rewrite repoRegex_accepts by assumption.
    change (owner ++ [slash] ++ b) with (owner ++ slash :: b).
    now rewrite replaceFirst_slash. }
  split.
  - intro H. pose proof H as H0.
    apply repoSlug_parts in H as (pre & a & b & suf & E & Hsuf & Ha & Hac & Hb & Hbc & _).
    replace (pre ++ a ++ [slash] ++ b ++ suf)
      with ((pre ++ a) ++ slash :: (b ++ suf)) in E
      by (now rewrite <- !app_assoc).
    apply last_slash_unique in E as [E1 E2]; auto.
    2:{ rewrite forallb_app, (notSlashDot_notSlash _ Hbc).
        destruct Hsuf as [-> | ->]; reflexivity. }
    assert (Hone : owner <> []).
    { intros ->. destruct pre; [|discriminate]. simpl in E1. congruence. }
    split; [exact Hone|]. exists b. repeat split; auto.
    + destruct Hsuf as [-> | ->]; [left | right]; auto. now rewrite app_nil_r in E2.
    + rewrite E2 in H0. rewrite (Hyes b suf) in H0 by assumption.
      now injection H0.
  - intros (Hone & b & Hb & Hbc & [-> | ->] & ->).
    + rewrite <- (app_nil_r b) at 1. apply Hyes; auto.
    + apply Hyes; auto.
Qed.

Lemma search_skip c t :
  run repoRegex (c :: t) None capture = None ->
  search repoRegex (c :: t) = search repoRegex t.
Proof. intro H. rewrite search_unfold, H. reflexivity. Qed.

(** A GitHub URL [https://github.com/owner/repo] whose owner has no
    slash and whose repository name has neither slash nor dot, with or
    without the [.git] suffix, has the slug [owner--repo]. *)
Lemma repoSlug_github_accepts owner repo suf :
  owner <> [] -> forallb notSlash owner = true ->
  repo <> [] -> forallb notSlashDot repo = true ->
  suf = [] \/ suf = lit ".git" ->
  repoSlug (lit "https://github.com/" ++ owner ++ [slash] ++ repo ++ suf)
  = Ok (owner ++ lit "--" ++ repo).
Proof.
  intros Ho Hoc Hr Hrc Hsuf. unfold repoSlug.
  set (t := owner ++ [slash] ++ repo ++ suf).
  change (lit "https://github.com/" ++ t)
    with (104 :: 116 :: 116 :: 112 :: 115 :: 58 :: 47 :: 47 :: lit "github.com/" ++ t)%N.
  do 8 (rewrite search_skip by (clearbody t; vm_compute; reflexivity)).
  rewrite search_unfold, repoRegex_unfold, stripPrefix_app.
  subst t. rewrite (@repoTail_accepts owner repo suf None) by assumption.
  change (owner ++ [slash] ++ repo) with (owner ++ slash :: repo).
  now rewrite replaceFirst_slash.
Qed.

(* ================================================================== *)
(** * Properties: callback.ts *)
(* ================================================================== *)

(** X4: [sendCallback] never throws, posts exactly once to the given
    URL with the given payload, runs no child process and no file-system
    call, and writes an error line exactly when the POST was not answered
    with an ok response. *)
Theorem sendCallback_posts_once {W : Type} {host : Host W}
        (url : jsstring) (payload : CallbackPayload) (w : W) :
  let o := sendCallback url payload w in
  res o = Ok tt /\
  filter isFetch (trace o) = [EFetch url payload] /\
  filter isTouch (trace o) = [] /\
  (errorLines (trace o) = [] <->
   exists status body w',
     fetchPost url payload w = (FetchResponse true status body, w')).
Proof.
  intro o. subst o. wp_start (sendCallback url payload) w.
  unfold sendCallback. wp_step. wp_step. wp_step.
  destruct o as [e|[] status body]; cbn [res st trace after app].
  - wp_step. cbn. repeat split; try reflexivity; [discriminate|].
    intros (s & b & w1 & E). rewrite H in E. discriminate.
  - wp_step. cbn. repeat split; try reflexivity. intros _. eauto.
  - wp_step. cbn. repeat split; try reflexivity; [discriminate|].
    intros (s & b & w1 & E). rewrite H in E. discriminate.
Qed.

(* ================================================================== *)
(** * Properties: workspace.ts, the cleanup closures *)
(* ================================================================== *)

(** X5: the cleanup of a worktree first runs [git worktree remove
    --force]; when that succeeds nothing else runs.  When it fails the
    directory is removed with [rmSync] and [git worktree prune] follows,
    and the cleanup then ends as the prune does; a failing [rmSync]
    ends the cleanup before the prune. *)
Theorem worktree_cleanup_falls_back {W : Type} {host : Host W}
        (barePath path : jsstring) (w : W) :
  let o := runCleanup (CleanWorktree barePath path) w in
  match exec (removeCmd path) (Some barePath) w with
  | (Ok _, _) =>
      res o = Ok tt /\ commands (trace o) = [removeCmd path] /\
      fsCalls (trace o) = []
  | (Throw _, w1) =>
      fsCalls (trace o) = [RmRecursiveForce path] /\
      match fsCall (RmRecursiveForce path) w1 with
      | (Throw e, _) => res o = Throw e /\ commands (trace o) = [removeCmd path]
      | (Ok _, w2) =>
          commands (trace o) = [removeCmd path; lit "git worktree prune"] /\
          res o = match fst (exec (lit "git worktree prune") (Some barePath) w2) with
                  | Ok _ => Ok tt
                  | Throw e => Throw e
                  end
      end
  end.
Proof.
  intro o. subst o. wp_start (runCleanup (CleanWorktree barePath path)) w.
  unfold runCleanup. fold (removeCmd path).
  wp_step. wp_step. wp_step. wp_step. wp_step.
  rewrite H. destruct r as [out|e]; cbn [res st trace after app].
  - wp_step. cbn. auto.
  - wp_step. wp_step. rewrite H0.
    destruct r as [x|e2]; cbn [res st trace after app]; [|cbn; auto].
    wp_step. wp_step. rewrite H1.
    destruct r as [x2|e3]; cbn [res st trace after app fst].
    + wp_step. cbn. auto.
    + cbn. auto.
Qed.

(* ================================================================== *)
(** * Properties: workspace.ts, the bare store *)
(* ================================================================== *)

(** X6: for a git workspace whose repository string [repoSlug]
    rejects, [setupWorkspace] throws that error before anything else: no
    directory is made, no command runs, the world is unchanged. *)
Theorem invalid_repo_touches_nothing {W : Type} {host : Host W}
        (repo : jsstring) (branch : option jsstring) (overlays : option bool)
        (config : BridgeConfig) (w : W) e :
  repoSlug repo = Throw e ->
  setupWorkspace (Some (WsGit repo branch overlays)) config w
  = mkOut (Throw e) w [].
Proof.
  intro H. unfold setupWorkspace, ensureBareClone, bind at 1 2.
  rewrite H. reflexivity.
Qed.

Lemma slug_git_plain slug : plainSegment slug -> plainSegment (slug ++ lit ".git").
Proof.
  intros (Hne & Hs & _). unfold plainSegment. repeat split.
  - destruct slug; [congruence | discriminate].
  - now rewrite forallb_app, Hs.
  - apply seqb_neq. intro H. apply (f_equal (@List.length N)) in H.
    rewrite length_app in H. simpl in H. lia.
  - apply seqb_neq. intro H. apply (f_equal (@List.length N)) in H.
    rewrite length_app in H. simpl in H. lia.
Qed.

(** X7: once the repositories directory is made, [ensureBareClone]
    keeps the bare store in its directory [<slug>.git], and runs exactly
    one git command: [git fetch] inside the store when the store exists, [git
    clone --bare] of the repository's URL otherwise; it returns the path
    of the store when that command succeeds and throws its error
    otherwise. *)
Theorem ensureBareClone_fetches_or_clones {W : Type} {host : Host W}
        (repo reposDir slug : jsstring) (w : W) x w1 :
  repoSlug repo = Ok slug ->
  fsCall (MkdirRecursive reposDir) w = (Ok x, w1) ->
  let barePath := Path.join reposDir (slug ++ lit ".git") in
  let o := ensureBareClone repo reposDir w in
  lastSegment barePath = slug ++ lit ".git" /\
  execs (trace o)
  = (if existsSync barePath w1 then [(gitFetchCmd, Some barePath)]
     else [(cloneCmd repo barePath, None)]) /\
  res o = match fst (if existsSync barePath w1
                     then exec gitFetchCmd (Some barePath) w1
                     else exec (cloneCmd repo barePath) None w1) with
          | Ok _ => Ok barePath
          | Throw e => Throw e
          end.
Proof.
  intros Hslug Hmk barePath o. subst o. split.
  { apply repoSlug_parts in Hslug as (_ & _ & _ & _ & _ & _ & _ & _ & _ & _ & _ & Hp).
    destruct (join_plain_last reposDir (slug_git_plain Hp)) as (q & Hq & Eq).
    subst barePath. rewrite Eq. apply lastSegment_app; [exact Hq|].
    apply (slug_git_plain Hp). }
  unfold barePath. clear barePath.
  wp_start (ensureBareClone repo reposDir) w.
  unfold ensureBareClone. rewrite Hslug. fold (cloneUrl repo).
  wp_step. wp_step. wp_step. wp_step.
  rewrite Hmk in H. injection H as <- <-. cbn [res st trace after app].
  wp_step. wp_step. wp_step.
  destruct (existsSync _ w1); cbn [res st trace after app].
  - wp_step. wp_step. wp_step. rewrite H.
    destruct r; cbn [res st trace after app fst]; [wp_step|]; cbn; auto.
  - match goal with
    | |- context [execM ?c None] => change c with (cloneCmd repo (Path.join reposDir (slug ++ lit ".git")))
    end.
    wp_step. wp_step. wp_step. rewrite H.
    destruct r; cbn [res st trace after app fst]; [wp_step|]; cbn; auto.
Qed.

Lemma execs_app tr1 tr2 : execs (tr1 ++ tr2) = execs tr1 ++ execs tr2.
Proof.
  induction tr1 as [|e tr1 IH]; simpl; [reflexivity|].
  destruct e; simpl; now rewrite IH.
Qed.

Lemma fsCalls_app tr1 tr2 : fsCalls (tr1 ++ tr2) = fsCalls tr1 ++ fsCalls tr2.
Proof.
  induction tr1 as [|e tr1 IH]; simpl; [reflexivity|].
  destruct e; simpl; now rewrite IH.
Qed.

(* ================================================================== *)
(** * Properties: workspace.ts, verifyGitPush and setupWorkspace *)
(* ================================================================== *)

(** X8: [verifyGitPush] touches no file and runs the [git log] line in
    the worktree, followed by [git ls-remote] in the worktree exactly
    when the log line succeeded and listed no commit. *)
Theorem verifyGitPush_reads_only {W : Type} {host : Host W}
        (cwd branch : jsstring) (w : W) :
  let o := verifyGitPush cwd branch w in
  fsCalls (trace o) = [] /\
  execs (trace o)
  = (gitLogCmd branch, Some cwd)
    :: match fst (exec (gitLogCmd branch) (Some cwd) w) with
       | Ok out => match commitLines out with
                   | [] => [(lsRemoteCmd branch, Some cwd)]
                   | _ :: _ => []
                   end
       | Throw _ => []
       end.
Proof.
  intro o. subst o. wp_start (verifyGitPush cwd branch) w.
  unfold verifyGitPush. wp_step. wp_step. wp_step. rewrite H.
  destruct r as [out|e]; cbn [res st trace after app fst].
  - destruct (commitLines out) as [|l ls]; cbn [List.length Nat.ltb Nat.leb].
    + wp_step. wp_step.
      destruct r as [ref|e]; cbn [res st trace after app].
      * destruct (negb (truthy (trim ref))); wp_step; wp_step; wp_step; cbn; auto.
      * wp_step. wp_step. wp_step. cbn. auto.
    + wp_step. wp_step. wp_step. cbn. auto.
  - wp_step. wp_step. wp_step. cbn. auto.
Qed.

(** X9: when the setup of a git workspace returns a handle, the last
    two commands it ran set [user.name] and [user.email] inside the
    directory of the handle, and the cleanup of the handle removes that
    same directory as a worktree. *)
Theorem git_setup_configures_identity {W : Type} {host : Host W}
        (repo : jsstring) (branch : option jsstring) (overlays : option bool)
        (config : BridgeConfig) (w : W) handle :
  let o := setupWorkspace (Some (WsGit repo branch overlays)) config w in
  res o = Ok handle ->
  (exists before,
     execs (trace o)
     = before ++ [(configNameCmd, Some (ws_cwd handle));
                  (configEmailCmd, Some (ws_cwd handle))]) /\
  (exists barePath, ws_cleanup handle = CleanWorktree barePath (ws_cwd handle)).
Proof.
  intro o. subst o.
  wp_start (setupWorkspace (Some (WsGit repo branch overlays)) config) w.
  unfold setupWorkspace. fold configNameCmd configEmailCmd.
  wp_step. apply wp_any. intros o1 E1.
  destruct (res o1) as [barePath|e]; [|discriminate].
  wp_step. apply wp_any. intros o2 E2.
  destruct (res o2) as [[path c]|e] eqn:R2; [|discriminate].
  rewrite E2 in R2. apply createWorktree_path in R2 as [_ ->].
  cbn [fst snd]. wp_step.
  apply wp_any. intros o3 E3.
  destruct (res o3) as [[]|e]; [|discriminate].
  wp_step. wp_step.
  destruct r as [x|e]; cbn [res st trace after app]; [|discriminate].
  wp_step. wp_step.
  destruct r as [x2|e]; cbn [res st trace after app]; [|discriminate].
  wp_step. intros [= <-]. cbn [ws_cwd ws_cleanup]. split; [|eauto].
  exists (execs (trace o1) ++ execs (trace o2) ++ execs (trace o3)).
  rewrite !execs_app. cbn [execs]. now rewrite <- !app_assoc.
Qed.

Lemma seeding_writes_all {W : Type} {host : Host W} (dir : jsstring)
      (files : list (jsstring * jsstring)) :
  fsReliable W ->
  forall w : W,
    let o := forEach files
               (fun f =>
                  let fullPath := Path.join dir (fst f) in
                  fsM (MkdirRecursive (Path.dirname fullPath)) ;;
                  fsM (WriteFile fullPath (snd f)) ;;
                  ret tt) w in
    res o = Ok tt /\ fsCalls (trace o) = flat_map (seedCalls dir) files /\
    execs (trace o) = [].
Proof.
  intro Hfs. induction files as [|f files IH]; intros w o; subst o.
  - cbn. auto.
  - cbn [forEach flat_map].
    match goal with
    | |- context [bind ?m ?k w] => wp_start (bind m k) w
    end.
    wp_step. cbv zeta. wp_step. wp_step.
    destruct (Hfs (MkdirRecursive (Path.dirname (Path.join dir (fst f)))) w)
      as (x & w1 & E1).
    rewrite E1 in H. injection H as <- <-. cbn [res st trace after app].
    wp_step. wp_step.
    destruct (Hfs (WriteFile (Path.join dir (fst f)) (snd f)) w1)
      as (x2 & w2 & E2).
    rewrite E2 in H. injection H as <- <-. cbn [res st trace after app].
    wp_step. apply wp_any. intros o E. subst o.
    destruct (IH w2) as (R & F & X). cbv zeta in R, F, X.
    rewrite R. cbn [res st trace after app fsCalls execs seedCalls].
    rewrite F, X. auto.
Qed.

(** X10: when the file system does not fail, the setup of a tempdir
    workspace with seed files makes the directory with [mkdtempSync]
    under the system's temporary directory, then for every seed file, in
    order, makes the parent directory of [join(dir, name)] and writes
    the content at [join(dir, name)]; it runs no command, and returns
    the new directory with the cleanup that removes it.  The name is not
    checked: [join] resolves the [..] segments of a name, so such a file
    is written outside the new directory. *)
Theorem tempdir_seeds_every_file {W : Type} {host : Host W}
        (files : list (jsstring * jsstring)) (config : BridgeConfig)
        (w : W) dir w1 :
  fsReliable W ->
  fsCall (Mkdtemp (Path.join (osTmpdir w) (lit "bridge-"))) w = (Ok dir, w1) ->
  let o := setupWorkspace (Some (WsTempdir (Some files))) config w in
  res o = Ok {| ws_cwd := dir; ws_cleanup := CleanTempdir dir |} /\
  fsCalls (trace o)
  = Mkdtemp (Path.join (osTmpdir w) (lit "bridge-"))
    :: flat_map (seedCalls dir) files /\
  execs (trace o) = [].
Proof.
  intros Hfs Hmk o. subst o.
  wp_start (setupWorkspace (Some (WsTempdir (Some files))) config) w.
  unfold setupWorkspace. wp_step. wp_step. wp_step. wp_step.
  rewrite Hmk in H. injection H as <- <-. cbn [res st trace after app].
  wp_step. wp_step. wp_step. wp_step.
  apply wp_any. intros o E. subst o.
  destruct (@seeding_writes_all W host dir files Hfs w1) as (R & F & X).
  cbv zeta in R, F, X. rewrite R.
  wp_step. wp_step.
  cbn [fsCalls execs app].
  rewrite !fsCalls_app, !execs_app, F, X. cbn. now rewrite !app_nil_r.
Qed.

Lemma copying_all {W : Type} {host : Host W} (src dst : jsstring)
      (entries : list jsstring) :
  fsReliable W ->
  forall w : W,
    let o := forEach entries
               (fun entry =>
                  fsM (CpRecursive (Path.join src entry) (Path.join dst entry)) ;;
                  ret tt) w in
    res o = Ok tt /\
    fsCalls (trace o)
    = map (fun e => CpRecursive (Path.join src e) (Path.join dst e)) entries.
Proof.
  intro Hfs. induction entries as [|x xs IH]; intros w o; subst o.
  - cbn. auto.
  - cbn [forEach map].
    match goal with
    | |- context [bind ?m ?k w] => wp_start (bind m k) w
    end.
    wp_step. wp_step. wp_step.
    destruct (Hfs (CpRecursive (Path.join src x) (Path.join dst x)) w)
      as (y & w1 & E1).
    rewrite E1 in H. injection H as <- <-. cbn [res st trace after app].
    wp_step. apply wp_any. intros o E. subst o.
    destruct (IH w1) as (R & F). cbv zeta in R, F.
    rewrite R. cbn [res st trace after app fsCalls]. rewrite F. auto.
Qed.

(** X11: with [overlays: false] the setup of a git workspace copies
    nothing.  [injectOverlays] makes no writing file-system call (after
    its [existsSync]) when the repository has no overlay directory, and otherwise (when the file
    system does not fail) copies every entry of that directory, in
    order, to the same name in the worktree. *)
Theorem overlays_copied_or_skipped {W : Type} {host : Host W} :
  (forall repo branch config,
     avoids isCopy
       (setupWorkspace (W:=W) (Some (WsGit repo branch (Some false))) config)) /\
  (forall worktreePath repo overlaysDir slug (w : W),
     repoSlug repo = Ok slug ->
     existsSync (Path.join overlaysDir slug) w = false ->
     let o := injectOverlays worktreePath repo overlaysDir w in
     res o = Ok tt /\ fsCalls (trace o) = [] /\ execs (trace o) = []) /\
  (forall worktreePath repo overlaysDir slug (w : W) entries,
     fsReliable W ->
     repoSlug repo = Ok slug ->
     existsSync (Path.join overlaysDir slug) w = true ->
     readdirSync (Path.join overlaysDir slug) w = Ok entries ->
     let o := injectOverlays worktreePath repo overlaysDir w in
     res o = Ok tt /\
     fsCalls (trace o)
     = map (fun e => CpRecursive (Path.join (Path.join overlaysDir slug) e)
                                 (Path.join worktreePath e)) entries).
Proof.
  split; [|split].
  - intros repo branch config.
    unfold setupWorkspace, ensureBareClone, createWorktree. avoid.
  - intros wt repo dir slug w Hslug Hex o. subst o.
    unfold injectOverlays. rewrite Hslug.
    unfold bind, liftResult, ret, readWorld. cbn. rewrite Hex. cbn. auto.
  - intros wt repo dir slug w entries Hfs Hslug Hex Hrd o. subst o.
    wp_start (injectOverlays wt repo dir) w.
    unfold injectOverlays. rewrite Hslug.
    wp_step. wp_step. wp_step. wp_step. rewrite Hex. cbn [negb].
    wp_step. wp_step. wp_step. wp_step. rewrite Hrd.
    cbn [res st trace after app].
    apply wp_any. intros o E. subst o.
    destruct (@copying_all W host (Path.join dir slug) wt entries Hfs w)
      as (R & F). cbv zeta in R, F.
    split; [exact R|]. cbn [fsCalls]. exact F.
Qed.

(* ================================================================== *)
(** * Properties: bridge.ts, the shape of one execution *)
(* ================================================================== *)

Section Execution.

Context {W : Type} {host : Host W}.

(** The trace of an execution whose prompt is empty. *)
Lemma executeRequest_empty_prompt request (w : W) :
  emptyPrompt request = true ->
  exists payload w2,
    cb_id payload = req_id request /\
    cb_metadata payload = req_metadata request /\
    trace (executeRequest request w)
    = EConsole Err (lit "[Bridge] " ++ lit "Empty prompt received for request "
                    ++ req_id request)
      :: match callbackTarget request with
         | Some url =>
             ECall (CallSendCallback url payload)
             :: trace (sendCallback url payload w2)
         | None => []
         end.
Proof.
  intros Hprompt.
  wp_start (executeRequest request) w. unfold executeRequest.
  wp_step. wp_step. wp_step. wp_step.
  wp_step. wp_step. rewrite Hprompt. cbv zeta.
  wp_step. wp_step. wp_step.
  destruct (callbackTarget request) as [url|].
  - wp_step. wp_step. unfold buildErrorPayload. wp_step. wp_step. wp_step.
    wp_step. wp_step. apply wp_any. intros o ->.
    cbn [res st trace after app].
    eexists _, _. split; [|split]; [| |rewrite ?app_nil_r; reflexivity];
      reflexivity.
  - wp_step. exists (Build_CallbackPayload (req_id request) StError 0%Z
                       zeroUsage None None (req_metadata request)), w.
    cbn. auto.
Qed.

(** The trace of an execution whose setup returns a handle: the setup,
    the agent, the [catch] block when the agent threw, and the cleanup
    of the handle. *)
Lemma executeRequest_setup_returns request (w : W) handle :
  emptyPrompt request = false ->
  let startMs := fst (dateNow w) in
  let w1 := snd (dateNow w) in
  let config := loadBridgeConfig w1 in
  let o1 := setupWorkspace (req_workspace request) config w1 in
  res o1 = Ok handle ->
  let o2 := runAgent request config startMs (ws_cwd handle) (st o1) in
  let o3 := match res o2 with
            | Ok _ => mkOut (Ok tt) (st o2) []
            | Throw e => reportError request startMs e (st o2)
            end in
  trace (executeRequest request w)
  = ECall (CallSetupWorkspace (req_workspace request))
    :: trace o1 ++ trace o2 ++ trace o3
       ++ ECall (CallCleanup (ws_cleanup handle))
          :: trace (runCleanup (ws_cleanup handle) (st o3)).
Proof.
  intros Hprompt startMs w1 config o1 H1 o2 o3.
  subst startMs w1 config o1 o2 o3.
  wp_start (executeRequest request) w. unfold executeRequest.
  wp_step. wp_step. wp_step. wp_step. rewrite H in *. cbn [fst snd] in *.
  wp_step. wp_step. rewrite Hprompt.
  wp_step. wp_step. wp_step. wp_step. wp_step.
  wp_step. apply wp_any. intros o ->. rewrite H1. cbn [res st trace after app].
  wp_step. unfold setCleanup at 1. unfold wp at 1. cbn [res st trace fst snd].
  wp_step. apply wp_any. intros o ->.
  destruct (res (runAgent _ _ _ _ _)) as [[]|e]; cbn [res st trace after app].
  - unfold finallyCleanup. wp_step. unfold getCleanup at 1. unfold wp at 1.
    cbn [res st trace fst snd]. wp_step. wp_step. apply wp_any. intros o ->.
    cbn [res st trace after app]. now rewrite <- !app_assoc.
  - wp_step. apply wp_any. intros o ->. cbn [res st trace after app].
    unfold finallyCleanup. wp_step. unfold getCleanup at 1. unfold wp at 1.
    cbn [res st trace fst snd]. wp_step. wp_step. apply wp_any. intros o ->.
    cbn [res st trace after app]. now rewrite <- !app_assoc.
Qed.

(** ** What the parts of an execution never emit *)

Section Quiet.

Variable q : Event -> bool.
Hypothesis Hconsole : forall c msg, q (EConsole c msg) = false.
Hypothesis Hcall : forall c, q (ECall c) = false.
Hypothesis Hexec : forall cmd cwd, q (EExec cmd cwd) = false.
Hypothesis Hfs : forall c, q (EFs c) = false.
Hypothesis Hfetch : forall url p, q (EFetch url p) = false.

#[local] Hint Resolve Hconsole Hcall Hexec Hfs Hfetch : avoids.

Lemma avoids_setupWorkspace ws config :
  avoids (S:=W) q (setupWorkspace ws config).
Proof.
  unfold setupWorkspace, ensureBareClone, createWorktree, injectOverlays.
  avoid.
Qed.

Lemma avoids_runCleanup c : avoids (S:=W) q (runCleanup c).
Proof. unfold runCleanup. avoid. Qed.

Lemma avoids_loadMcpServers cwd : avoids (S:=W) q (loadMcpServers cwd).
Proof. unfold loadMcpServers. avoid. Qed.

Lemma avoids_getProvider name : avoids (S:=W) q (getProvider name).
Proof. unfold getProvider. avoid. Qed.

Lemma avoids_verifyGitPush cwd branch :
  avoids (S:=W) q (verifyGitPush cwd branch).
Proof. unfold verifyGitPush. avoid. Qed.

Lemma avoids_sendCallback url payload :
  avoids (S:=W) q (sendCallback url payload).
Proof. unfold sendCallback. avoid. Qed.

Lemma avoids_report request startMs cwd providerResult :
  avoids (S:=W) q (report request startMs cwd providerResult).
Proof.
  unfold report. avoid.
Qed.

Lemma avoids_reportError request startMs e :
  avoids (S:=W) q (reportError request startMs e).
Proof.
  unfold reportError, buildErrorPayload. avoid.
Qed.

End Quiet.

(** ** The callback of an execution *)

Lemma posted_cons request e tr :
  isFetch e = false -> posted request tr -> posted request (e :: tr).
Proof.
  unfold posted. intros He H. cbn [filter]. rewrite He. exact H.
Qed.

Lemma posted_app_l request tr1 tr2 :
  filter isFetch tr1 = [] -> posted request tr2 -> posted request (tr1 ++ tr2).
Proof.
  unfold posted. intros H1 H. rewrite filter_app, H1. exact H.
Qed.

Lemma posted_app_r request tr1 tr2 :
  posted request tr1 -> filter isFetch tr2 = [] -> posted request (tr1 ++ tr2).
Proof.
  unfold posted. intros H H2. rewrite filter_app, H2, app_nil_r. exact H.
Qed.

Lemma sendCallback_fetches url payload (w : W) :
  res (sendCallback url payload w) = Ok tt /\
  filter isFetch (trace (sendCallback url payload w)) = [EFetch url payload].
Proof.
  wp_start (sendCallback url payload) w.
  unfold sendCallback. wp_step. wp_step. wp_step.
  destruct o as [e|[] status body]; cbn [res st trace after app];
    wp_step; cbn; auto.
Qed.

Lemma report_posts request startMs cwd providerResult (w : W) :
  let o := report request startMs cwd providerResult w in
  res o = Ok tt /\ posted request (trace o).
Proof.
  intro o. subst o. wp_start (report request startMs cwd providerResult) w.
  unfold report. wp_step. wp_step. cbv zeta. wp_step.
  assert (Hend : forall msg (w1 : W),
    wp match callbackTarget request with
       | Some url =>
           call (CallSendCallback url
                   {| cb_id := req_id request;
                      cb_status := match msg with
                                   | Some _ => StError | None => StSuccess end;
                      cb_durationMs := (Z.of_N t - Z.of_N startMs)%Z;
                      cb_usage := pr_usage providerResult;
                      cb_result := pr_output providerResult;
                      cb_error := msg;
                      cb_metadata := req_metadata request |})
                (sendCallback url
                   {| cb_id := req_id request;
                      cb_status := match msg with
                                   | Some _ => StError | None => StSuccess end;
                      cb_durationMs := (Z.of_N t - Z.of_N startMs)%Z;
                      cb_usage := pr_usage providerResult;
                      cb_result := pr_output providerResult;
                      cb_error := msg;
                      cb_metadata := req_metadata request |})
       | None => ret tt
       end w1
       (fun o => res o = Ok tt /\ posted request (trace o))).
  { intros msg w1. unfold posted.
    destruct (callbackTarget request) as [url|].
    - wp_step. apply wp_any. intros o ->. cbn [res st trace after app].
      match goal with
      | |- context [sendCallback ?u ?p ?s] =>
          destruct (sendCallback_fetches u p s) as [R F]
      end.
      rewrite R. split; [reflexivity|]. cbn [filter isFetch]. rewrite F.
      eexists. split; [reflexivity|]. split; reflexivity.
    - wp_step. cbn. auto. }
  destruct (pushCheckBranch request) as [branch|].
  - wp_step. wp_step. apply wp_any. intros o ->.
    destruct (verifyGitPush_total cwd branch w') as [v Hv].
    pose proof (@avoids_verifyGitPush isFetch ltac:(reflexivity)
                  ltac:(reflexivity) cwd branch w') as Fv.
    rewrite Hv. cbn [res st trace after app].
    destruct (pushed v); cbn [negb].
    + wp_step. cbn [res st trace after app].
      eapply wp_conseq; [exact (Hend None _)|]. cbv beta. intros o [R P].
      cbn [res st trace after app]. split; [exact R|].
      apply posted_cons; [reflexivity|]. apply posted_app_l; [|exact P].
      now rewrite filter_app, Fv.
    + cbv zeta. wp_step. wp_step. wp_step. cbn [res st trace after app].
      eapply wp_conseq; [exact (Hend (Some (pushVerificationError branch v)) _)|].
      cbv beta. intros o [R P].
      cbn [res st trace after app]. split; [exact R|].
      apply posted_cons; [reflexivity|]. apply posted_app_l; [|exact P].
      now rewrite !filter_app, Fv.
  - wp_step. cbn [res st trace after app].
    eapply wp_conseq; [exact (Hend None _)|]. cbv beta. intros o [R P].
    cbn [res st trace after app]. auto.
Qed.

Lemma reportError_posts request startMs e (w : W) :
  let o := reportError request startMs e w in
  res o = Ok tt /\ posted request (trace o).
Proof.
  intro o. subst o. wp_start (reportError request startMs e) w.
  unfold reportError, posted. wp_step. wp_step. wp_step. wp_step.
  destruct (callbackTarget request) as [url|].
  - unfold buildErrorPayload. wp_step. wp_step. wp_step. wp_step. wp_step.
    apply wp_any. intros o ->. cbn [res st trace after app].
    match goal with
    | |- context [sendCallback ?u ?p ?s] =>
        destruct (sendCallback_fetches u p s) as [R F]
    end.
    rewrite R. split; [reflexivity|]. cbn [filter isFetch app]. rewrite F.
    eexists. split; [reflexivity|]. split; reflexivity.
  - wp_step. cbn. auto.
Qed.

Lemma runAgent_posts request config startMs cwd (w : W) :
  let o := runAgent request config startMs cwd w in
  (res o = Ok tt /\ posted request (trace o)) \/
  ((exists e, res o = Throw e) /\ filter isFetch (trace o) = []).
Proof.
  intro o. subst o. wp_start (runAgent request config startMs cwd) w.
  unfold runAgent. wp_step. apply wp_any. intros o1 E1.
  pose proof (@avoids_loadMcpServers isFetch cwd w) as F1. rewrite <- E1 in F1.
  clear E1. destruct (res o1) as [mcp|e]; [|right; cbn; eauto].
  cbv zeta. wp_step. apply wp_any. intros o2 E2.
  match type of E2 with
  | _ = getProvider ?n ?s =>
      pose proof (@avoids_getProvider isFetch n s) as F2
  end.
  rewrite <- E2 in F2. clear E2.
  destruct (res o2) as [prov|e]; [|right; cbn; rewrite filter_app, F1, F2; eauto].
  wp_step. wp_step. wp_step. wp_step.
  destruct o as [r|e|]; cbn [res st trace after app];
    try solve [right; rewrite !filter_app, F1, F2; cbn; eauto].
  apply wp_any. intros o ->.
  destruct (report_posts request startMs cwd r w') as [R P]. cbv zeta in R, P.
  left. rewrite R. split; [reflexivity|].
  apply posted_app_l; [exact F1|]. apply posted_app_l; [exact F2|].
  apply posted_cons; [reflexivity|]. apply posted_cons; [reflexivity|].
  exact P.
Qed.

(** X12: every execution, whichever path it takes, posts exactly one
    callback when the request has a truthy [callbackUrl] -- to that URL,
    with the id and the metadata of the request -- and posts nothing
    otherwise. *)
Theorem one_callback_per_execution request (w : W) :
  posted request (trace (executeRequest request w)).
Proof.
  destruct (emptyPrompt request) eqn:Hp.
  - destruct (executeRequest_empty_prompt request w Hp)
      as (payload & w2 & Hid & Hmeta & ->).
    apply posted_cons; [reflexivity|]. unfold posted.
    destruct (callbackTarget request) as [url|]; [|reflexivity].
    cbn [filter isFetch].
    destruct (sendCallback_fetches url payload w2) as [_ ->]. eauto.
  - set (startMs := fst (dateNow w)). set (w1 := snd (dateNow w)).
    set (config := loadBridgeConfig w1).
    pose proof (@avoids_setupWorkspace isFetch ltac:(reflexivity)
                  ltac:(reflexivity) ltac:(reflexivity)
                  (req_workspace request) config w1) as F1.
    destruct (res (setupWorkspace (req_workspace request) config w1))
      as [handle|e] eqn:E1.
    + rewrite (executeRequest_setup_returns request w Hp E1).
      fold startMs w1 config.
      set (o1 := setupWorkspace (req_workspace request) config w1) in *.
      apply posted_cons; [reflexivity|]. apply posted_app_l; [exact F1|].
      rewrite app_assoc. apply posted_app_r.
      * destruct (runAgent_posts request config startMs (ws_cwd handle) (st o1))
          as [[R P]|[[e R] F]]; cbv zeta in *; rewrite R.
        -- cbn [trace]. now rewrite app_nil_r.
        -- apply posted_app_l; [exact F|]. apply reportError_posts.
      * cbn [filter isFetch].
        apply (@avoids_runCleanup isFetch); reflexivity.
    + rewrite (executeRequest_setup_throws request w Hp E1).
      fold startMs w1 config.
      apply posted_cons; [reflexivity|]. apply posted_app_l; [exact F1|].
      apply reportError_posts.
Qed.

(** ** The provider of an execution *)

Lemma effectiveProvider_eq request config :
  match req_agent request with
  | Some {| agent_provider := Some p |} => p
  | _ => cfg_defaultProvider config
  end = effectiveProvider request config.
Proof.
  unfold effectiveProvider. destruct (req_agent request) as [[[p|] ? ? ? ?]|];
    reflexivity.
Qed.

Lemma effectiveTimeout_eq request config :
  match req_agent request with
  | Some {| agent_timeoutMs := Some t |} => t
  | _ => cfg_timeout config
  end = effectiveTimeout request config.
Proof.
  unfold effectiveTimeout. destruct (req_agent request) as [[? ? ? [t|] ?]|];
    reflexivity.
Qed.

Lemma runAgent_runs request config startMs cwd (w : W) :
  let o := runAgent request config startMs cwd w in
  (filter isRun (trace o) = [] /\ filter isClearTimeout (trace o) = [] /\
   exists e, res o = Throw e) \/
  (exists ctx,
     filter isRun (trace o)
     = [ERun (effectiveProvider request config) ctx
             (effectiveTimeout request config)] /\
     filter isClearTimeout (trace o) = [EClearTimeout] /\
     contextOf request cwd ctx).
Proof.
  intro o. subst o. wp_start (runAgent request config startMs cwd) w.
  unfold runAgent. rewrite effectiveProvider_eq, effectiveTimeout_eq.
  wp_step. apply wp_any. intros o1 E1.
  pose proof (@avoids_loadMcpServers isRun cwd w) as F1.
  pose proof (@avoids_loadMcpServers isClearTimeout cwd w) as G1.
  rewrite <- E1 in F1, G1. clear E1.
  destruct (res o1) as [mcp|e]; [|left; cbn; eauto].
  cbv zeta. wp_step. unfold getProvider. wp_step. wp_step.
  destruct (existsb _ _); wp_step;
    [|left; cbn; rewrite !app_nil_r, F1, G1; eauto].
  wp_step. wp_step. wp_step. wp_step.
  assert (HR : forall r w2,
             filter isRun (trace (report request startMs cwd r w2)) = [])
    by (intros; apply avoids_report; reflexivity).
  assert (HC : forall r w2,
             filter isClearTimeout (trace (report request startMs cwd r w2)) = [])
    by (intros; apply avoids_report; reflexivity).
  destruct o as [r|e|]; cbn [res st trace after app];
    [apply wp_any; intros o ->|..];
    cbn [res st trace after app]; right; eexists;
    rewrite !filter_app, ?F1, ?G1; cbn [filter isRun isClearTimeout app];
    rewrite ?HR, ?HC;
    (split; [reflexivity|split; [reflexivity|]]);
    unfold contextOf; cbn; auto.
Qed.

(** X13: an execution runs the provider at most once.  When it does,
    the prompt was not empty and the setup had returned a handle; the
    provider is the one named by the request, or else the configured
    default, raced against the request's [timeoutMs], or else the
    configured timeout; its context carries the directory of the handle
    and the prompt, id and agent of the request; and the timer is cleared
    exactly once.  When the provider is not run, no timer is cleared. *)
Theorem provider_runs_at_most_once request (w : W) :
  let tr := trace (executeRequest request w) in
  let w1 := snd (dateNow w) in
  let config := loadBridgeConfig w1 in
  (filter isRun tr = [] /\ filter isClearTimeout tr = []) \/
  (exists ctx handle,
     filter isRun tr
     = [ERun (effectiveProvider request config) ctx
             (effectiveTimeout request config)] /\
     filter isClearTimeout tr = [EClearTimeout] /\
     emptyPrompt request = false /\
     res (setupWorkspace (req_workspace request) config w1) = Ok handle /\
     contextOf request (ws_cwd handle) ctx).
Proof.
  intros tr w1 config. subst tr.
  assert (HE : forall (q : Event -> bool) e s,
             (q = isRun \/ q = isClearTimeout) ->
             filter q (trace (reportError request (fst (dateNow w)) e s)) = []).
  { intros q e s [-> | ->]; apply avoids_reportError; reflexivity. }
  assert (HS : forall (q : Event -> bool) ws cfg s,
             (q = isRun \/ q = isClearTimeout) ->
             filter q (trace (setupWorkspace ws cfg s)) = []).
  { intros q ws cfg s [-> | ->]; apply avoids_setupWorkspace; reflexivity. }
  assert (HC : forall (q : Event -> bool) c (s : W),
             (q = isRun \/ q = isClearTimeout) ->
             filter q (trace (runCleanup c s)) = []).
  { intros q c s [-> | ->]; apply avoids_runCleanup; reflexivity. }
  destruct (emptyPrompt request) eqn:Hp.
  - left.
    destruct (executeRequest_empty_prompt request w Hp)
      as (payload & w2 & _ & _ & ->).
    destruct (callbackTarget request) as [url|]; cbn [filter isRun isClearTimeout];
      [|auto].
    split; apply avoids_sendCallback; reflexivity.
  - destruct (res (setupWorkspace (req_workspace request) config w1))
      as [handle|e] eqn:E1.
    + rewrite (executeRequest_setup_returns request w Hp E1).
      fold w1 config.
      pose proof (HS isRun (req_workspace request) config w1 (or_introl eq_refl))
        as S1.
      pose proof (HS isClearTimeout (req_workspace request) config w1
                     (or_intror eq_refl)) as S2.
      set (o1 := setupWorkspace (req_workspace request) config w1) in *.
      cbn [filter isRun isClearTimeout]. rewrite !filter_app.
      cbn [filter isRun isClearTimeout].
      rewrite S1, S2, !HC by auto. cbn [app].
      destruct (runAgent_runs request config (fst (dateNow w)) (ws_cwd handle)
                  (st o1)) as [(R & C & e & T)|(ctx & R & C & X)];
        cbv zeta in *.
      * left. rewrite R, C, T, !HE by auto. auto.
      * right. exists ctx, handle. rewrite R, C.
        destruct (res (runAgent _ _ _ _ _)); cbn [trace];
          rewrite ?HE by auto; cbn; auto.
    + left. rewrite (executeRequest_setup_throws request w Hp E1).
      fold w1 config. cbn [filter isRun isClearTimeout].
      rewrite !filter_app, !HS, !HE by auto. auto.
Qed.

(** ** Child processes and the file system *)

Section Housekeeping.

Variable q : Event -> bool.
Hypothesis Hconsole : forall c msg, q (EConsole c msg) = false.
Hypothesis Hcall : forall c, q (ECall c) = false.
Hypothesis Hfetch : forall url p, q (EFetch url p) = false.
Hypothesis Hrun : forall prov ctx t, q (ERun prov ctx t) = false.
Hypothesis Hclear : q EClearTimeout = false.

#[local] Hint Resolve Hconsole Hcall Hfetch Hrun Hclear : avoids.

Lemma avoids_report_unverified request startMs cwd providerResult :
  pushCheckBranch request = None ->
  avoids (S:=W) q (report request startMs cwd providerResult).
Proof.
  intro H. unfold report. rewrite H. avoid.
Qed.

Lemma avoids_runAgent_unverified request config startMs cwd :
  pushCheckBranch request = None ->
  avoids (S:=W) q (runAgent request config startMs cwd).
Proof.
  intro H. unfold runAgent. apply avoids_bind; [apply avoids_loadMcpServers|].
  intro mcp. cbv zeta. apply avoids_bind; [apply avoids_getProvider|].
  intro prov. apply avoids_bind.
  - apply avoids_tryFinally; [apply avoids_raceM|apply avoids_emit]; auto.
  - intro r. now apply avoids_report_unverified.
Qed.

(** An execution without push verification emits an event of [q] only
    in its setup and in its cleanup. *)
Lemma executeRequest_avoids request (w : W) :
  pushCheckBranch request = None ->
  (forall config, avoids (S:=W) q (setupWorkspace (req_workspace request) config)) ->
  (forall config (w1 : W) handle,
     res (setupWorkspace (req_workspace request) config w1) = Ok handle ->
     avoids (S:=W) q (runCleanup (ws_cleanup handle))) ->
  filter q (trace (executeRequest request w)) = [].
Proof.
  intros Hpush Hsetup Hcleanup.
  assert (HE : forall e s,
             filter q (trace (reportError request (fst (dateNow w)) e s)) = []).
  { intros e s. apply avoids_reportError; auto. }
  destruct (emptyPrompt request) eqn:Hp.
  - destruct (executeRequest_empty_prompt request w Hp)
      as (payload & w2 & _ & _ & ->).
    cbn [filter]. rewrite Hconsole.
    destruct (callbackTarget request) as [url|]; [|reflexivity].
    cbn [filter]. rewrite Hcall. apply avoids_sendCallback; auto.
  - set (w1 := snd (dateNow w)). set (config := loadBridgeConfig w1).
    pose proof (Hsetup config w1) as S1.
    destruct (res (setupWorkspace (req_workspace request) config w1))
      as [handle|e] eqn:E1.
    + rewrite (executeRequest_setup_returns request w Hp E1).
      fold w1 config. pose proof (Hcleanup config w1 handle E1) as C1.
      set (o1 := setupWorkspace (req_workspace request) config w1) in *.
      cbn [filter]. rewrite Hcall, !filter_app, S1.
      cbn [filter]. rewrite Hcall, C1.
      rewrite (avoids_runAgent_unverified request config (fst (dateNow w))
                 (ws_cwd handle) Hpush (st o1)).
      destruct (res (runAgent _ _ _ _ _)); cbn [trace]; rewrite ?HE;
        reflexivity.
    + rewrite (executeRequest_setup_throws request w Hp E1).
      fold w1 config. cbn [filter]. rewrite Hcall, filter_app, S1, HE.
      reflexivity.
Qed.

End Housekeeping.

Lemma pushCheckBranch_git request :
  (forall repo branch overlays,
     req_workspace request <> Some (WsGit repo branch overlays)) ->
  pushCheckBranch request = None.
Proof.
  unfold pushCheckBranch. intro H.
  destruct (req_workspace request) as [[repo [b|] o| |]|]; try reflexivity.
  now destruct (H repo (Some b) o).
Qed.

(** The cleanup that [setupWorkspace] returns for a workspace that is
    not git-backed. *)
Lemma setupWorkspace_cleanup ws config (w : W) handle :
  res (setupWorkspace ws config w) = Ok handle ->
  match ws with
  | None => ws_cleanup handle = CleanNothing
  | Some (WsTempdir _) => ws_cleanup handle = CleanTempdir (ws_cwd handle)
  | Some (WsOther _) => False
  | Some (WsGit _ _ _) => True
  end.
Proof.
  destruct ws as [[repo b o|files|t]|]; [trivial| | |].
  - wp_start (setupWorkspace (Some (WsTempdir files)) config) w.
    unfold setupWorkspace. wp_step. wp_step. wp_step. wp_step.
    destruct r as [dir|e]; cbn [res st trace after app]; [|discriminate].
    wp_step. wp_step. wp_step.
    destruct files as [files|].
    + wp_step. apply wp_any. intros o ->.
      destruct (res (forEach _ _ _)); cbn [res st trace after app];
        [|discriminate].
      wp_step. wp_step. now intros [= <-].
    + wp_step. wp_step. now intros [= <-].
  - unfold setupWorkspace. cbn. discriminate.
  - unfold setupWorkspace, bind, readWorld, ret. cbn. now intros [= <-].
Qed.

(** X15: the bridge's own [exec] (workspace.ts 18) runs for git
    workspaces only: in an execution whose workspace is not git-backed
    no command is executed, and in an execution without a workspace
    none of the writing calls of [node:fs] ([mkdirSync], [mkdtempSync],
    [writeFileSync], [cpSync], [rmSync]) is made either.  The reads of
    [.mcp.json] ([existsSync], [readFileSync]) and what the provider
    does inside [run] are not among the events counted. *)
Theorem only_git_workspaces_run_commands request (w : W) :
  (forall repo branch overlays,
     req_workspace request <> Some (WsGit repo branch overlays)) ->
  filter isExec (trace (executeRequest request w)) = [] /\
  (req_workspace request = None ->
   filter isFs (trace (executeRequest request w)) = []).
Proof.
  intro Hws. pose proof (pushCheckBranch_git request Hws) as Hpush. split.
  - apply executeRequest_avoids; try reflexivity; try exact Hpush.
    + intro config. destruct (req_workspace request) as [[repo b o|files|t]|].
      * now destruct (Hws repo b o).
      * unfold setupWorkspace. avoid.
      * unfold setupWorkspace. avoid.
      * unfold setupWorkspace. avoid.
    + intros config w1 handle E.
      pose proof (setupWorkspace_cleanup _ _ _ E) as K.
      destruct (req_workspace request) as [[repo b o|files|t]|].
      * now destruct (Hws repo b o).
      * rewrite K. unfold runCleanup. avoid.
      * destruct K.
      * rewrite K. unfold runCleanup. avoid.
  - intro Hnone. apply executeRequest_avoids; try reflexivity; try exact Hpush.
    + intro config. rewrite Hnone. unfold setupWorkspace. avoid.
    + intros config w1 handle E. rewrite Hnone in E.
      pose proof (setupWorkspace_cleanup _ _ _ E) as K. cbv beta iota in K.
      rewrite K. unfold runCleanup. avoid.
Qed.

(** X16: when the prompt is not empty and [setupWorkspace] throws, the
    execution removes nothing:
    its trace has no [git worktree remove] and no [rmSync], whatever the
    setup had already created. *)
Theorem failed_setup_removes_nothing request (w : W) e :
  emptyPrompt request = false ->
  let w1 := snd (dateNow w) in
  res (setupWorkspace (req_workspace request) (loadBridgeConfig w1) w1)
  = Throw e ->
  filter isRemoval (trace (executeRequest request w)) = [].
Proof.
  intros Hp w1 E1.
  rewrite (executeRequest_setup_throws request w Hp E1). fold w1.
  assert (S1 : forall ws config,
             avoids (S:=W) isRemoval (setupWorkspace ws config)).
  { intros ws config.
    unfold setupWorkspace, ensureBareClone, createWorktree, injectOverlays.
    avoid. }
  cbn [filter isRemoval]. rewrite filter_app, S1.
  apply avoids_reportError; reflexivity.
Qed.

(** ** The MCP servers of an execution *)

Lemma getProp_spread a b k :
  getProp (spread a b) k
  = match getProp b k with
    | Some v => Some v
    | None => getProp a k
    end.
Proof.
  unfold spread. induction a as [|[k' v] a IH]; cbn [filter app fst].
  - now destruct (getProp b k).
  - destruct (getProp b k') as [v'|] eqn:Eb; cbn [app getProp].
    + rewrite IH. destruct (seqb k' k) eqn:Ek; [|reflexivity].
      apply seqb_eq in Ek. subst k'. now rewrite Eb.
    + rewrite IH. destruct (seqb k' k) eqn:Ek; [|reflexivity].
      apply seqb_eq in Ek. subst k'. now rewrite Eb.
Qed.

(** X14: when the workspace's [.mcp.json] is absent or gives an object
    of servers, the MCP servers that the provider receives are those of
    the workspace overridden by those of the request: for every
    name, the request's server when it has one, the workspace's
    otherwise. *)
Theorem request_mcp_servers_take_precedence
        request config startMs cwd (w : W) overlay prov ctx t :
  res (loadMcpServers cwd w) = Ok (JObj overlay) ->
  In (ERun prov ctx t) (trace (runAgent request config startMs cwd w)) ->
  forall k,
    getProp (ctx_mcpServers ctx) k
    = match getProp (requestMcp request) k with
      | Some v => Some v
      | None => getProp overlay k
      end.
Proof.
  intros Hmcp. wp_start (runAgent request config startMs cwd) w.
  unfold runAgent. wp_step. apply wp_any. intros o1 E1.
  pose proof (@avoids_loadMcpServers isRun cwd w) as F1.
  rewrite <- E1 in F1, Hmcp. clear E1. rewrite Hmcp.
  assert (N1 : forall x, In x (trace o1) -> isRun x = false).
  { intros x Hx. destruct (isRun x) eqn:Ex; [|reflexivity].
    assert (Hin : In x (filter isRun (trace o1))) by (apply filter_In; auto).
    rewrite F1 in Hin. destruct Hin. }
  cbv zeta. wp_step. unfold getProvider. wp_step. wp_step.
  destruct (existsb _ _); wp_step.
  - wp_step. wp_step. wp_step. wp_step.
    assert (HR : forall r w2 x,
               In x (trace (report request startMs cwd r w2)) ->
               isRun x = false).
    { intros r w2 x Hx. destruct (isRun x) eqn:Ex; [|reflexivity].
      assert (Hin : In x (filter isRun (trace (report request startMs cwd r w2))))
        by (apply filter_In; auto).
      rewrite avoids_report in Hin by reflexivity. destruct Hin. }
    destruct o as [r|e|]; cbn [res st trace after app];
      [apply wp_any; intros o ->; cbn [res st trace after app]|..];
      rewrite ?in_app_iff; cbn [In];
      intros Hin k;
      repeat match goal with
             | H : _ \/ _ |- _ => destruct H
             | H : False |- _ => destruct H
             | H : In _ (trace o1) |- _ => apply N1 in H; discriminate
             | H : In _ (trace (report _ _ _ _ _)) |- _ =>
                 apply HR in H; discriminate
             | H : EClearTimeout = ERun _ _ _ |- _ => discriminate
             | H : ERun _ _ _ = ERun _ _ _ |- _ => injection H as <- <- <-
             end;
      cbn [ctx_mcpServers]; apply getProp_spread.
  - rewrite ?in_app_iff. cbn [In]. intros Hin. exfalso.
    repeat match goal with
           | H : _ \/ _ |- _ => destruct H
           | H : False |- _ => destruct H
           | H : In _ (trace o1) |- _ => apply N1 in H; discriminate
           end.
Qed.

End Execution.

(* ================================================================== *)
(** * Properties: http.ts, the bearer token *)
(* ================================================================== *)

Lemma utf8_ascii s : ascii7 s = true -> Http.utf8 s = s.
Proof.
  induction s as [|c s IH]; [reflexivity|]. cbn [ascii7 forallb].
  intros [Hc Hs]%andb_true_iff. cbn [Http.utf8]. rewrite Hc.
  f_equal. now apply IH.
Qed.

(** The first byte of a code unit that is not ASCII has its high bit
    set. *)
Lemma utf8_high c r :
  (c <? 128)%N = false ->
  exists b rest, Http.utf8 (c :: r) = b :: rest /\ (128 <= b)%N.
Proof.
  intro Hc. cbn [Http.utf8]. rewrite Hc.
  assert (Hadd : forall a b, (128 <= a -> 128 <= a + b)%N).
  { intros a b Ha. eapply N.le_trans; [exact Ha|apply N.le_add_r]. }
  destruct (c <? 2048)%N;
    [eexists _, _; split; [reflexivity|apply Hadd; lia]|].
  destruct ((55296 <=? c) && (c <=? 56319))%N.
  - destruct r as [|d r']; [eexists _, _; split; [reflexivity|lia]|].
    destruct ((56320 <=? d) && (d <=? 57343))%N;
      eexists _, _; (split; [reflexivity|first [lia|apply Hadd; lia]]).
  - destruct ((56320 <=? c) && (c <=? 57343))%N;
      eexists _, _; (split; [reflexivity|first [lia|apply Hadd; lia]]).
Qed.

Lemma utf8_ascii_inv expected :
  ascii7 expected = true ->
  forall token, Http.utf8 token = expected -> token = expected.
Proof.
  induction expected as [|e es IH]; intros Ha token H.
  - destruct token as [|c r]; [reflexivity|].
    destruct (c <? 128)%N eqn:Hc.
    + cbn [Http.utf8] in H. rewrite Hc in H. discriminate.
    + destruct (utf8_high c r Hc) as (b & rest & E & _).
      rewrite E in H. discriminate.
  - cbn [ascii7 forallb] in Ha. apply andb_true_iff in Ha as [He Hes].
    destruct token as [|c r]; [discriminate|].
    destruct (c <? 128)%N eqn:Hc.
    + cbn [Http.utf8] in H. rewrite Hc in H. injection H as -> H.
      f_equal. now apply IH.
    + destruct (utf8_high c r Hc) as (b & rest & E & Hb).
      rewrite E in H. injection H as -> _.
      apply N.ltb_lt in He. lia.
Qed.

(** X17: against an expected token of ASCII characters,
    [verifyBearerToken] answers [true] exactly for the header [Bearer ]
    followed by that token. *)
Theorem bearer_token_accepted_iff auth expected :
  ascii7 expected = true ->
  Http.verifyBearerToken auth expected = Ok true
  <-> auth = Some (lit "Bearer " ++ expected).
Proof.
  intro Ha. unfold Http.verifyBearerToken, Http.timingSafeEqual. split.
  - destruct auth as [a|]; [|discriminate].
    destruct (stripPrefix (lit "Bearer ") a) as [token|] eqn:E; [|discriminate].
    apply stripPrefix_sound in E. subst a.
    destruct (Nat.eqb (List.length token) (List.length expected));
      [|discriminate].
    cbn [negb].
    destruct (Nat.eqb (List.length (Http.utf8 token))
                      (List.length (Http.utf8 expected))); [|discriminate].
    intros [= H]. apply seqb_eq in H. rewrite (utf8_ascii expected Ha) in H.
    now rewrite (utf8_ascii_inv Ha token H).
  - intros ->. rewrite stripPrefix_app, !Nat.eqb_refl. cbn [negb].
    now rewrite seqb_refl.
Qed.

(** X18: when the presented token has as many UTF-16 code units as the
    expected one and a different number of UTF-8 bytes,
    [verifyBearerToken] throws the error of [timingSafeEqual] instead of
    answering [false], and the handler of [POST /execute] throws with
    it. *)
Theorem bearer_token_check_can_throw token expected :
  List.length token = List.length expected ->
  List.length (Http.utf8 token) <> List.length (Http.utf8 expected) ->
  Http.verifyBearerToken (Some (lit "Bearer " ++ token)) expected
  = Throw (lit "Input buffers must have the same byte length") /\
  forall cfg parse uuid health req,
    Http.httpNoAuth cfg = false ->
    Http.httpBearerToken cfg = Some expected ->
    Http.http_method req = lit "POST" ->
    Http.http_pathname req = lit "/execute" ->
    Http.http_authorization req = Some (lit "Bearer " ++ token) ->
    Http.handle cfg parse uuid health req
    = Throw (lit "Input buffers must have the same byte length").
Proof.
  intros Hlen Hbytes.
  assert (V : Http.verifyBearerToken (Some (lit "Bearer " ++ token)) expected
              = Throw (lit "Input buffers must have the same byte length")).
  { unfold Http.verifyBearerToken, Http.timingSafeEqual.
    rewrite stripPrefix_app, Hlen, Nat.eqb_refl. cbn [negb].
    apply Nat.eqb_neq in Hbytes. now rewrite Hbytes. }
  split; [exact V|].
  intros cfg parse uuid health req Hno Htok Hm Hp Hauth.
  unfold Http.handle, Http.authorize. rewrite Hm, Hp, Hno, Htok, Hauth.
  cbn [seqb]. change (seqb (lit "POST") (lit "GET")) with false.
  cbn [andb]. rewrite !seqb_refl. cbn [andb].
  destruct expected as [|c expected].
  - destruct token; [|discriminate]. now destruct Hbytes.
  - cbn [truthy]. now rewrite V.
Qed.

(* ================================================================== *)
(** * Properties: http.ts, the handler *)
(* ================================================================== *)

(** X19: whenever the handler answers, it answers 202 exactly when it
    submits a request; it answers 401 only when authentication is on;
    and a submitted request came by [POST /execute], was authorised, and
    carries the valid prompt and the workspace of a body that parsed and
    whose workspace type was not rejected, under the id of the body or
    else a fresh one. *)
Theorem handle_submits_iff_accepted cfg parse uuid health req resp sub :
  Http.handle cfg parse uuid health req = Ok (resp, sub) ->
  (Http.http_status resp = 202%N <-> sub <> None) /\
  (Http.http_status resp = 401%N -> Http.httpNoAuth cfg = false) /\
  forall s, sub = Some s ->
    Http.http_method req = lit "POST" /\
    Http.http_pathname req = lit "/execute" /\
    Http.authorize cfg req = Ok true /\
    exists raw data,
      Http.http_body req = Ok raw /\ parse raw = Ok data /\
      Http.validPrompt data = Some (Http.sub_prompt s) /\
      Http.invalidWorkspaceType data = false /\
      Http.sub_id s = match Http.stringField data (lit "id") with
                      | Some i => i
                      | None => uuid
                      end /\
      Http.sub_workspace s = field data (lit "workspace").
Proof.
  unfold Http.handle.
  destruct (seqb (Http.http_method req) (lit "GET")
            && seqb (Http.http_pathname req) (lit "/health")).
  { intros [= <- <-]. cbn. repeat split; try discriminate; try congruence. }
  destruct (seqb (Http.http_method req) (lit "POST")
            && seqb (Http.http_pathname req) (lit "/execute")) eqn:Hroute.
  2:{ intros [= <- <-]. cbn. repeat split; try discriminate; try congruence. }
  apply andb_true_iff in Hroute as [Hm Hp].
  apply seqb_eq in Hm, Hp.
  destruct (Http.authorize cfg req) as [[|]|e] eqn:Hauth; [| |discriminate].
  2:{ intros [= <- <-]. cbn. split; [|split].
      - split; [discriminate|congruence].
      - intros _. unfold Http.authorize in Hauth.
        destruct (Http.httpNoAuth cfg); [discriminate|reflexivity].
      - discriminate. }
  destruct (Http.http_body req) as [raw|e] eqn:Hbody.
  2:{ intros [= <- <-]. cbn. repeat split; try discriminate; try congruence. }
  destruct (parse raw) as [data|e] eqn:Hparse.
  2:{ intros [= <- <-]. cbn. repeat split; try discriminate; try congruence. }
  unfold Http.accept.
  assert (Hacc :
    match Http.validPrompt data with
    | Some prompt =>
        if Http.invalidWorkspaceType data
        then Ok (Http.json 400 (Http.errorBody Http.invalidTypeMessage), None)
        else
          Ok (Http.json 202
                [(lit "id",
                  JStr match Http.stringField data (lit "id") with
                       | Some i => i | None => uuid end);
                 (lit "status", JStr (lit "accepted"))],
              Some {| Http.sub_id := match Http.stringField data (lit "id") with
                                     | Some i => i | None => uuid end;
                      Http.sub_prompt := prompt;
                      Http.sub_callbackUrl :=
                        Http.stringField data (lit "callbackUrl");
                      Http.sub_workspace := field data (lit "workspace");
                      Http.sub_agent := field data (lit "agent");
                      Http.sub_metadata :=
                        match field data (lit "metadata") with
                        | JObj m => Some m
                        | _ => None
                        end |})
    | None =>
        Ok (Http.json 400
              (Http.errorBody
                 (lit "Field 'prompt' is required and must be a non-empty string")),
            None)
    end = Ok (resp, sub) ->
    (Http.http_status resp = 202%N <-> sub <> None) /\
    (Http.http_status resp = 401%N -> Http.httpNoAuth cfg = false) /\
    forall s, sub = Some s ->
      Http.http_method req = lit "POST" /\
      Http.http_pathname req = lit "/execute" /\
      Ok true = Ok true /\
      exists raw0 data0,
        Ok raw = Ok raw0 /\ parse raw0 = Ok data0 /\
        Http.validPrompt data0 = Some (Http.sub_prompt s) /\
        Http.invalidWorkspaceType data0 = false /\
        Http.sub_id s = match Http.stringField data0 (lit "id") with
                        | Some i => i
                        | None => uuid
                        end /\
        Http.sub_workspace s = field data0 (lit "workspace")).
  { destruct (Http.validPrompt data) as [prompt|] eqn:Hprompt.
    - destruct (Http.invalidWorkspaceType data) eqn:Hws.
      + intros [= <- <-]. cbn.
        repeat split; try discriminate; try congruence.
      + intros [= <- <-]. cbn. split; [|split].
        * split; [discriminate|reflexivity].
        * discriminate.
        * intros s [= <-]. cbn.
          repeat split; try assumption.
          exists raw, data. repeat split; assumption.
    - intros [= <- <-]. cbn. repeat split; try discriminate; try congruence. }
  destruct data; try exact Hacc; discriminate.
Qed.

(* ================================================================== *)
(** * Properties: http.ts, readBody *)
(* ================================================================== *)

Lemma settled_stays events s r :
  body_settled s = Some r ->
  body_settled (fold_left onStreamEvent events s) = Some r.
Proof.
  revert s. induction events as [|ev events IH]; intros s H; [exact H|].
  cbn [fold_left]. apply IH.
  destruct ev as [chunk| |e]; cbn [onStreamEvent]; unfold settle.
  - destruct (MAX_BODY_BYTES <? _)%N; cbn; rewrite ?H; cbn; auto.
  - now rewrite H.
  - now rewrite H.
Qed.

Lemma pendingInv_step s ev : pendingInv s -> pendingInv (onStreamEvent s ev).
Proof.
  unfold pendingInv. destruct s as [size chunks settled].
  destruct ev as [chunk| |e]; cbn [onStreamEvent]; unfold settle;
    cbn [body_size body_chunks body_settled].
  - destruct (MAX_BODY_BYTES <? _)%N eqn:L;
      destruct settled as [[body|e]|]; cbn [body_size body_chunks body_settled];
      auto.
    intros [Hs Hle]. apply N.ltb_ge in L. split; [|exact L].
    rewrite concat_app, length_app. cbn [concat]. rewrite app_nil_r. lia.
  - destruct settled as [[body|e]|]; cbn [body_size body_chunks body_settled];
      auto.
    intros [Hs Hle]. lia.
  - destruct settled as [[body|e0]|]; cbn [body_size body_chunks body_settled];
      auto.
Qed.

Lemma pendingInv_fold events s :
  pendingInv s -> pendingInv (fold_left onStreamEvent events s).
Proof.
  revert s. induction events as [|ev events IH]; intros s H; [exact H|].
  cbn [fold_left]. apply IH. now apply pendingInv_step.
Qed.

Lemma data_within chunks s :
  body_settled s = None ->
  (body_size s + N.of_nat (List.length (concat chunks)) <= MAX_BODY_BYTES)%N ->
  fold_left onStreamEvent (map SData chunks) s
  = {| body_size := body_size s + N.of_nat (List.length (concat chunks));
       body_chunks := body_chunks s ++ chunks;
       body_settled := None |}.
Proof.
  revert s. induction chunks as [|c chunks IH]; intros s Hs Hle.
  - cbn. rewrite N.add_0_r, app_nil_r. destruct s; cbn in *. now subst.
  - cbn [map fold_left onStreamEvent].
    cbn [concat] in Hle. rewrite length_app in Hle.
    destruct (MAX_BODY_BYTES <? _)%N eqn:L; [apply N.ltb_lt in L; lia|].
    rewrite IH; cbn [body_size body_chunks body_settled]; [|exact Hs|lia].
    f_equal.
    + cbn [concat]. rewrite length_app. lia.
    + now rewrite <- app_assoc.
Qed.

Lemma data_beyond chunks s :
  body_settled s = None ->
  (MAX_BODY_BYTES < body_size s + N.of_nat (List.length (concat chunks)))%N ->
  (body_size s <= MAX_BODY_BYTES)%N ->
  body_settled (fold_left onStreamEvent (map SData chunks) s)
  = Some (Throw (lit "Body too large")).
Proof.
  revert s. induction chunks as [|c chunks IH]; intros s Hs Hlt Hle.
  - cbn in Hlt. lia.
  - cbn [map fold_left onStreamEvent].
    cbn [concat] in Hlt. rewrite length_app in Hlt.
    destruct (MAX_BODY_BYTES <? _)%N eqn:L.
    + apply settled_stays. unfold settle. cbn. now rewrite Hs.
    + apply N.ltb_ge in L. apply IH; cbn; [exact Hs|lia|exact L].
Qed.

(** X20: a body that [readBody] resolves never has more than
    1,048,576 bytes; and a stream of data chunks followed by its end
    resolves with the concatenation of the chunks when they hold at most
    that many bytes, and is rejected as too large otherwise. *)
Theorem readBody_limit :
  (forall events body,
     readBody events = Some (Ok body) ->
     (N.of_nat (List.length body) <= MAX_BODY_BYTES)%N) /\
  (forall chunks,
     readBody (map SData chunks ++ [SEnd])
     = Some (if (N.of_nat (List.length (concat chunks)) <=? MAX_BODY_BYTES)%N
             then Ok (concat chunks)
             else Throw (lit "Body too large"))).
Proof.
  split.
  - intros events body H. unfold readBody in H.
    pose proof (@pendingInv_fold events
                  {| body_size := 0; body_chunks := []; body_settled := None |})
      as I.
    unfold pendingInv in I at 2. rewrite H in I. apply I.
    unfold pendingInv. cbn. split; [reflexivity|]. unfold MAX_BODY_BYTES. lia.
  - intro chunks. unfold readBody. rewrite fold_left_app.
    destruct (N.of_nat (List.length (concat chunks)) <=? MAX_BODY_BYTES)%N eqn:L.
    + apply N.leb_le in L. rewrite data_within; cbn; auto.
    + apply N.leb_gt in L. cbn [fold_left onStreamEvent]. unfold settle.
      assert (E : body_settled
                    (fold_left onStreamEvent (map SData chunks)
                       {| body_size := 0; body_chunks := [];
                          body_settled := None |})
                  = Some (Throw (lit "Body too large"))).
      { apply data_beyond; cbn [body_size body_settled];
          [reflexivity|lia|unfold MAX_BODY_BYTES; lia]. }
      rewrite E. exact E.
Qed.

(* ================================================================== *)
(** * Properties: from the transports to the orchestrator *)
(* ================================================================== *)

(** An execution whose prompt is not empty calls [setupWorkspace] once,
    on the workspace of the request. *)
Lemma setup_called_once {W : Type} {host : Host W} request (w : W) :
  emptyPrompt request = false ->
  calls isSetup (trace (executeRequest request w))
  = [CallSetupWorkspace (req_workspace request)].
Proof.
  intro Hp.
  set (w1 := snd (dateNow w)). set (config := loadBridgeConfig w1).
  pose proof (silent_setupWorkspace isSetup (req_workspace request) config w1)
    as S1.
  assert (HE : forall e s,
             calls isSetup
               (trace (reportError request (fst (dateNow w)) e s)) = []).
  { intros e s. apply silent_reportError. reflexivity. }
  destruct (res (setupWorkspace (req_workspace request) config w1))
    as [handle|e] eqn:E1.
  - rewrite (executeRequest_setup_returns request w Hp E1).
    fold w1 config.
    set (o1 := setupWorkspace (req_workspace request) config w1) in *.
    cbn [calls isSetup]. rewrite !calls_app, S1. cbn [calls isSetup app].
    rewrite (silent_runCleanup isSetup).
    rewrite (@silent_runAgent W host isSetup request
               ltac:(reflexivity) ltac:(reflexivity)).
    destruct (res (runAgent _ _ _ _ _)); cbn [trace calls]; rewrite ?HE;
      reflexivity.
  - rewrite (executeRequest_setup_throws request w Hp E1).
    fold w1 config. cbn [calls isSetup]. rewrite calls_app, S1, HE.
    reflexivity.
Qed.

(* ================================================================== *)
(** * Properties: pusher.ts *)
(* ================================================================== *)

Lemma getProp_app a b k :
  getProp (a ++ b) k
  = match getProp a k with
    | Some v => Some v
    | None => getProp b k
    end.
Proof.
  induction a as [|[k' v] a IH]; cbn [app getProp]; [reflexivity|].
  now destruct (seqb k' k).
Qed.

Lemma getProp_copyTruthy sdk k k2 target key :
  seqb k2 key = false ->
  getProp (Pusher.copyTruthy sdk k k2 target) key = getProp target key.
Proof.
  intro H. unfold Pusher.copyTruthy. destruct (jsTruthy _); [|reflexivity].
  rewrite getProp_app. cbn [getProp]. rewrite H. now destruct (getProp target key).
Qed.

Lemma getProp_copyDefined sdk k target key :
  seqb k key = false ->
  getProp (Pusher.copyDefined sdk k target) key = getProp target key.
Proof.
  intro H. unfold Pusher.copyDefined.
  destruct (field sdk k); try reflexivity;
    rewrite getProp_app; cbn [getProp]; rewrite H;
    now destruct (getProp target key).
Qed.

Lemma getProp_attach k o target key :
  seqb k key = false ->
  getProp (Pusher.attach k o target) key = getProp target key.
Proof.
  intro H. unfold Pusher.attach. destruct o; [reflexivity|].
  rewrite getProp_app. cbn [getProp]. rewrite H. now destruct (getProp target key).
Qed.

Lemma getProp_attach_self k o target :
  getProp target k = None ->
  getProp (Pusher.attach k o target) k
  = match o with [] => None | _ :: _ => Some (JObj o) end.
Proof.
  intro H. unfold Pusher.attach. destruct o; [exact H|].
  rewrite getProp_app, H. cbn [getProp]. now rewrite seqb_refl.
Qed.

(** The keys that the agent of a legacy request never has. *)
Lemma legacyAgent_defaults sdk :
  field (Pusher.legacyAgent sdk) (lit "provider") = JUndefined /\
  field (Pusher.legacyAgent sdk) (lit "mcpServers") = JUndefined /\
  field (Pusher.legacyAgent sdk) (lit "tools") = JUndefined /\
  field (field (Pusher.legacyAgent sdk) (lit "limits")) (lit "timeoutMs")
  = JUndefined.
Proof.
  unfold Pusher.legacyAgent. cbv zeta.
  match goal with
  | |- context [match ?a with [] => JUndefined | _ :: _ => JObj ?a end] =>
      set (agent := a)
  end.
  assert (Hkey : forall key,
             seqb (lit "env") key = false ->
             seqb (lit "disallowedTools") key = false ->
             seqb (lit "outputFormat") key = false ->
             seqb (lit "systemPrompt") key = false ->
             seqb (lit "model") key = false ->
             seqb (lit "limits") key = false ->
             seqb (lit "providerConfig") key = false ->
             getProp agent key = None).
  { intros key H1 H2 H3 H4 H5 H6 H7. unfold agent.
    rewrite !getProp_attach, !getProp_copyTruthy by assumption. reflexivity. }
  assert (Hlimits : field (JObj agent) (lit "limits") = JUndefined \/
                    exists limits,
                      field (JObj agent) (lit "limits") = JObj limits /\
                      getProp limits (lit "timeoutMs") = None).
  { unfold agent. cbn [field].
    rewrite getProp_attach by reflexivity.
    rewrite getProp_attach_self
      by (rewrite !getProp_copyTruthy by reflexivity; reflexivity).
    destruct (Pusher.copyDefined sdk (lit "maxBudgetUsd") _) as [|x l'] eqn:El.
    - now left.
    - right. eexists. split; [reflexivity|].
      rewrite <- El. rewrite !getProp_copyDefined by reflexivity.
      reflexivity. }
  assert (Hfield : forall key,
             getProp agent key = None ->
             field match agent with [] => JUndefined | _ :: _ => JObj agent end
                   key = JUndefined).
  { intros key H. destruct agent; [reflexivity|]. cbn [field]. now rewrite H. }
  repeat split; try (apply Hfield, Hkey; reflexivity).
  destruct agent as [|y agent'] eqn:Ea; [reflexivity|].
  destruct Hlimits as [->|(limits & -> & Hl)]; [reflexivity|].
  cbn [field]. now rewrite Hl.
Qed.

(** X22: a legacy Pusher event (no [workspace], no [agent]) with a
    non-empty [repo] string is normalised to a git workspace on that
    repository and on the event's branch, always with overlays; and its
    agent never names a provider, MCP servers or a timeout, so that it
    runs with the configured defaults. *)
Theorem pusher_legacy_request uuid data repo :
  jsTruthy (field (JObj data) (lit "workspace"))
  || jsTruthy (field (JObj data) (lit "agent")) = false ->
  Http.stringField (JObj data) (lit "repo") = Some repo ->
  truthy repo = true ->
  let s := Pusher.normalizeRequest uuid data in
  Http.asWorkspace (Http.sub_workspace s)
  = Some (Some (WsGit repo (Http.stringField (JObj data) (lit "branch"))
                      (Some true))) /\
  field (Http.sub_agent s) (lit "provider") = JUndefined /\
  field (Http.sub_agent s) (lit "mcpServers") = JUndefined /\
  field (field (Http.sub_agent s) (lit "limits")) (lit "timeoutMs")
  = JUndefined.
Proof.
  intros Hnew Hrepo Ht s. subst s. unfold Pusher.normalizeRequest.
  cbv zeta. rewrite Hnew, Hrepo, Ht. cbn [Http.sub_workspace Http.sub_agent].
  split.
  - destruct (Http.stringField (JObj data) (lit "branch")); reflexivity.
  - destruct (Pusher.plainObject _) as [sdk|]; [|auto].
    destruct (legacyAgent_defaults (JObj sdk)) as (A & B & _ & C). auto.
Qed.

(** X23: a prompt of white space only is submitted by the Pusher
    handler, while [POST /execute] answers it with 400; in the
    orchestrator it is an empty prompt. *)
Theorem whitespace_prompt_by_transport uuid data p :
  field (JObj data) (lit "prompt") = JStr p ->
  truthy p = true ->
  trim p = [] ->
  (exists s, Pusher.onRunEvent uuid data = Some s /\ Http.sub_prompt s = p) /\
  Http.accept uuid (JObj data)
  = Ok (Http.json 400
          (Http.errorBody
             (lit "Field 'prompt' is required and must be a non-empty string")),
        None) /\
  forall r, req_prompt r = p -> emptyPrompt r = true.
Proof.
  intros Hf Ht Htrim. split; [|split].
  - unfold Pusher.onRunEvent. rewrite Hf, Ht. eexists. split; [reflexivity|].
    unfold Pusher.normalizeRequest. cbv zeta. rewrite Hf.
    now destruct (_ || _).
  - unfold Http.accept, Http.validPrompt. rewrite Hf, Ht, Htrim. reflexivity.
  - intros r Hr. unfold emptyPrompt. rewrite Hr, Ht, Htrim. reflexivity.
Qed.

(* ================================================================== *)
(** * Properties: providers/claude-code.ts *)
(* ================================================================== *)

Section ProviderRun.

Variable stringify : JsValue -> jsstring.

Lemma collect_from messages result0 :
  pr_status result0 = StSuccess -> pr_error result0 = None ->
  let r := fold_left (fun result message =>
                        if ClaudeCode.isResult message
                        then ClaudeCode.resultOf stringify message
                        else result) messages result0 in
  pr_status r = StSuccess /\ pr_error r = None.
Proof.
  revert result0. induction messages as [|m ms IH]; intros r0 Hs He; cbn.
  - auto.
  - destruct (ClaudeCode.isResult m); apply IH; auto.
Qed.

(** X24: whatever the stream of SDK messages, the result of the Claude
    Code provider has status [success] and no error text; it is the
    zero-usage result when the stream has no [result] message, and
    otherwise the result built from the last [result] message. *)
Theorem provider_result_is_success :
  (forall messages,
     pr_status (ClaudeCode.collect stringify messages) = StSuccess /\
     pr_error (ClaudeCode.collect stringify messages) = None) /\
  (forall messages,
     forallb (fun m => negb (ClaudeCode.isResult m)) messages = true ->
     ClaudeCode.collect stringify messages = ClaudeCode.initialResult) /\
  (forall before message later,
     ClaudeCode.isResult message = true ->
     forallb (fun m => negb (ClaudeCode.isResult m)) later = true ->
     ClaudeCode.collect stringify (before ++ message :: later)
     = ClaudeCode.resultOf stringify message).
Proof.
  assert (Hskip : forall later r0,
             forallb (fun m => negb (ClaudeCode.isResult m)) later = true ->
             fold_left (fun result message =>
                          if ClaudeCode.isResult message
                          then ClaudeCode.resultOf stringify message
                          else result) later r0 = r0).
  { induction later as [|m ms IH]; intros r0 H; [reflexivity|].
    cbn [forallb] in H. apply andb_true_iff in H as [Hm Hms].
    cbn [fold_left]. destruct (ClaudeCode.isResult m); [discriminate|].
    now apply IH. }
  split; [|split].
  - intro messages. now apply collect_from.
  - intros messages H. unfold ClaudeCode.collect. now apply Hskip.
  - intros before message later Hm Hlater. unfold ClaudeCode.collect.
    rewrite fold_left_app. cbn [fold_left]. rewrite Hm. now apply Hskip.
Qed.

End ProviderRun.

Lemma dedupe_In xs x : In x (ClaudeCode.dedupe xs) <-> In x xs.
Proof.
  induction xs as [|y ys IH]; cbn [ClaudeCode.dedupe In]; [tauto|].
  rewrite filter_In, IH, negb_true_iff, seqb_neq. split.
  - intros [H|[H _]]; auto.
  - intros [H|H]; [auto|].
    destruct (seqb y x) eqn:E; [apply seqb_eq in E; auto|].
    apply seqb_neq in E. auto.
Qed.

Lemma NoDup_filter {A} (f : A -> bool) xs : NoDup xs -> NoDup (filter f xs).
Proof.
  induction 1 as [|x xs Hx Hnd IH]; cbn; [constructor|].
  destruct (f x); [|exact IH]. constructor; [|exact IH].
  rewrite filter_In. tauto.
Qed.

Lemma dedupe_NoDup xs : NoDup (ClaudeCode.dedupe xs).
Proof.
  induction xs as [|y ys IH]; cbn [ClaudeCode.dedupe]; constructor.
  - rewrite filter_In, negb_true_iff, seqb_neq. tauto.
  - now apply NoDup_filter.
Qed.

Lemma dedupe_NoDup_id xs : NoDup xs -> ClaudeCode.dedupe xs = xs.
Proof.
  induction 1 as [|x xs Hx Hnd IH]; cbn [ClaudeCode.dedupe]; [reflexivity|].
  rewrite IH. f_equal. apply forallb_filter_id. apply forallb_forall.
  intros y Hy. apply negb_true_iff, seqb_neq. congruence.
Qed.

(** X25: the disallowed tools given to the SDK have no duplicates and
    are exactly the bridge's non-interactive defaults together with the
    caller's; the defaults (when they do not repeat) come first, followed
    by tools of the caller that are not among them. *)
Theorem disallowed_tools_merge nonInteractive caller :
  let merged := ClaudeCode.disallowedTools nonInteractive caller in
  NoDup merged /\
  (forall tool, In tool merged <-> In tool nonInteractive \/ In tool caller) /\
  (NoDup nonInteractive ->
   exists rest, merged = nonInteractive ++ rest /\
                forall tool, In tool rest ->
                             In tool caller /\ ~ In tool nonInteractive).
Proof.
  intro merged. subst merged. unfold ClaudeCode.disallowedTools.
  split; [apply dedupe_NoDup|]. split.
  - intro tool. now rewrite dedupe_In, in_app_iff.
  - induction nonInteractive as [|x xs IH]; intro Hnd.
    + exists (ClaudeCode.dedupe caller). cbn [app]. split; [reflexivity|].
      intros tool H. apply (proj1 (dedupe_In _ _)) in H. auto.
    + inversion Hnd as [|? ? Hx Hxs]; subst.
      destruct (IH Hxs) as (rest & E & Hrest).
      cbn [app ClaudeCode.dedupe]. rewrite E, filter_app.
      exists (filter (fun y => negb (seqb x y)) rest). split.
      * f_equal. f_equal. apply forallb_filter_id. apply forallb_forall.
        intros y Hy. apply negb_true_iff, seqb_neq. congruence.
      * intros tool [Ht Hne]%filter_In.
        apply negb_true_iff, seqb_neq in Hne.
        destruct (Hrest tool Ht) as [Hc Hn]. split; [exact Hc|].
        cbn [In]. tauto.
Qed.

(* ================================================================== *)
(** * Properties: config.ts, the cache of the environment *)
(* ================================================================== *)

Lemma get_set_same key e cache : Config.get (Config.set key e cache) key = Some e.
Proof. unfold Config.set. cbn [Config.get]. now rewrite seqb_refl. Qed.

Lemma get_filter_other key k' cache :
  k' <> key ->
  Config.get (filter (fun kv => negb (seqb (fst kv) key)) cache) k'
  = Config.get cache k'.
Proof.
  intro Hne. induction cache as [|[k e] cache IH]; [reflexivity|].
  cbn [filter fst]. destruct (seqb k key) eqn:E; cbn [negb Config.get].
  - apply seqb_eq in E. subst k.
    assert (seqb key k' = false) as -> by (apply seqb_neq; congruence).
    exact IH.
  - now rewrite IH.
Qed.

Lemma get_set_other key e cache k' :
  k' <> key -> Config.get (Config.set key e cache) k' = Config.get cache k'.
Proof.
  intro Hne. unfold Config.set. cbn [Config.get].
  assert (seqb key k' = false) as -> by (apply seqb_neq; congruence).
  now apply get_filter_other.
Qed.

(** X26: after [envCached] has read a key from the environment at
    time [t0], every read of that key before [t0 + 60000] returns the
    value read then, whatever the environment has become, and leaves the
    cache as it is; a read at or after [t0 + 60000] returns the value of
    the environment of that moment; and the entries of other keys are
    untouched. *)
Theorem envCached_ttl env0 env1 t0 t1 key fallback cache :
  Config.stale cache key t0 ->
  let first := Config.envCached env0 t0 key fallback cache in
  fst first = Config.orElse (env0 key) fallback /\
  ((t1 < t0 + Config.ENV_CACHE_TTL)%N ->
   Config.envCached env1 t1 key fallback (snd first)
   = (Config.orElse (env0 key) fallback, snd first)) /\
  ((t0 + Config.ENV_CACHE_TTL <= t1)%N ->
   fst (Config.envCached env1 t1 key fallback (snd first))
   = Config.orElse (env1 key) fallback) /\
  (forall other, other <> key ->
     Config.get (snd first) other = Config.get cache other).
Proof.
  intros Hstale first.
  assert (E : first
              = (Config.orElse (env0 key) fallback,
                 Config.set key {| Config.entry_value := env0 key;
                                   Config.expiresAt :=
                                     (t0 + Config.ENV_CACHE_TTL)%N |} cache)).
  { subst first. unfold Config.envCached, Config.stale in *.
    destruct (Config.get cache key) as [c|]; [|reflexivity].
    apply N.ltb_ge in Hstale. now rewrite Hstale. }
  rewrite E. cbn [fst snd]. split; [reflexivity|]. split; [|split].
  - intro Hlt. unfold Config.envCached. rewrite get_set_same.
    cbn [Config.expiresAt Config.entry_value].
    apply N.ltb_lt in Hlt. now rewrite Hlt.
  - intro Hge. unfold Config.envCached. rewrite get_set_same.
    cbn [Config.expiresAt Config.entry_value].
    apply N.ltb_ge in Hge. now rewrite Hge.
  - intros other Hne. now apply get_set_other.
Qed.

(* ================================================================== *)
(** * More theorems at concrete inputs *)
(* ================================================================== *)

Lemma sim_fs_reliable : fsReliable Sim.World.
Proof. intros c w. destruct c; eexists _, _; reflexivity. Qed.

(** [acme/widgets.git] gives a slug that is one path segment. *)
Lemma repoSlug_shape_witness :
  repoSlug (lit "acme/widgets.git") = Ok (lit "acme--widgets") /\
  plainSegment (lit "acme--widgets").
Proof.
  assert (H : repoSlug (lit "acme/widgets.git") = Ok (lit "acme--widgets"))
    by (vm_compute; reflexivity).
  split; [exact H|].
  destruct (@repoSlug_shape (lit "acme/widgets.git") (lit "acme--widgets") H)
    as (pre & a & b & suf & _ & _ & _ & _ & _ & _ & _ & Hp).
  exact Hp.
Defined.

(** The owner [acme] and the name [widgets.git]. *)
Lemma repoSlug_owner_name_witness :
  repoSlug (lit "acme" ++ [slash] ++ lit "widgets.git")
  = Ok (lit "acme--widgets").
Proof.
  apply (proj2 (@repoSlug_owner_name (lit "acme") (lit "widgets.git")
                  (lit "acme--widgets") eq_refl eq_refl)).
  split; [discriminate|]. exists (lit "widgets").
  split; [discriminate|]. split; [reflexivity|].
  split; [right; reflexivity|reflexivity].
Defined.

(** A repository name without a slash. *)
Lemma invalid_repo_touches_nothing_witness :
  setupWorkspace (Some (WsGit (lit "widgets") None None)) Sim.defaultConfig
                 MoreExamples.world
  = mkOut (Throw (lit "Invalid repository: widgets")) MoreExamples.world [].
Proof.
  apply (@invalid_repo_touches_nothing Sim.World Sim.host).
  vm_compute. reflexivity.
Defined.

(** A repository that has no bare store yet is cloned. *)
Lemma ensureBareClone_fetches_or_clones_witness :
  execs (trace (ensureBareClone (lit "owner/repo") MoreExamples.reposDir
                                WorktreeExamples.mainOnly))
  = [(cloneCmd (lit "owner/repo") WorktreeExamples.bare, None)].
Proof.
  pose proof (@ensureBareClone_fetches_or_clones Sim.World Sim.host
                (lit "owner/repo") MoreExamples.reposDir (lit "owner--repo")
                WorktreeExamples.mainOnly []
                (Sim.setPaths [MoreExamples.reposDir] WorktreeExamples.mainOnly)
                ltac:(vm_compute; reflexivity) ltac:(vm_compute; reflexivity))
    as H.
  cbv zeta in H. destruct H as (_ & H & _).
  vm_compute in H. vm_compute. exact H.
Defined.

(** The worktree of [feature-x] in a store that has the branch. *)
Lemma git_setup_configures_identity_witness :
  exists before,
    execs (trace (setupWorkspace
                    (Some (WsGit (lit "owner/repo") (Some (lit "feature-x")) None))
                    Sim.defaultConfig Examples.pushedWorld))
    = before ++ [(configNameCmd, Some WorktreeExamples.path1);
                 (configEmailCmd, Some WorktreeExamples.path1)].
Proof.
  exact (proj1 (@git_setup_configures_identity Sim.World Sim.host
                  (lit "owner/repo") (Some (lit "feature-x")) None
                  Sim.defaultConfig Examples.pushedWorld
                  {| ws_cwd := WorktreeExamples.path1;
                     ws_cleanup := CleanWorktree WorktreeExamples.bare
                                                 WorktreeExamples.path1 |}
                  ltac:(vm_compute; reflexivity))).
Defined.

(** The request's [tracker] server reaches the provider. *)
Lemma request_mcp_servers_take_precedence_witness :
  getProp (ctx_mcpServers MoreExamples.mcpContext) (lit "tracker")
  = match getProp (requestMcp MoreExamples.mcpRequest) (lit "tracker") with
    | Some v => Some v
    | None => getProp [] (lit "tracker")
    end.
Proof.
  apply (@request_mcp_servers_take_precedence Sim.World Sim.host
           MoreExamples.mcpRequest Sim.defaultConfig 0%N (lit "/srv/bridge")
           MoreExamples.world [] (lit "claude-code") MoreExamples.mcpContext
           60000%N).
  - vm_compute. reflexivity.
  - vm_compute. left. reflexivity.
Defined.

(** Neither [feature-x] nor [main] exists in the store: the setup
    throws after the clone. *)
Lemma failed_setup_removes_nothing_witness :
  filter isRemoval (trace (executeRequest Examples.pushRequest
                                          WorktreeExamples.masterOnly)) = [].
Proof.
  apply (@failed_setup_removes_nothing Sim.World Sim.host Examples.pushRequest
           WorktreeExamples.masterOnly (lit "fatal: invalid reference: main")).
  - reflexivity.
  - vm_compute. reflexivity.
Defined.

(** The header [Bearer s3cret] against the token [s3cret]. *)
Lemma bearer_token_accepted_iff_witness :
  Http.verifyBearerToken (Some (lit "Bearer " ++ MoreExamples.secret))
                         MoreExamples.secret = Ok true.
Proof.
  apply (proj2 (@bearer_token_accepted_iff
                  (Some (lit "Bearer " ++ MoreExamples.secret))
                  MoreExamples.secret eq_refl)).
  reflexivity.
Defined.

(** The token [é] against the expected [e]: one code unit each, two
    bytes against one. *)
Lemma bearer_token_check_can_throw_witness :
  Http.verifyBearerToken (Some (lit "Bearer " ++ [233%N])) (lit "e")
  = Throw (lit "Input buffers must have the same byte length").
Proof.
  apply (@bearer_token_check_can_throw [233%N] (lit "e")).
  - reflexivity.
  - vm_compute. discriminate.
Defined.

(** The body of [Examples.untypedBody], without authentication. *)
Lemma handle_submits_iff_accepted_witness :
  Http.authorize Examples.openConfig Examples.post = Ok true.
Proof.
  pose proof (fun resp sub =>
                @handle_submits_iff_accepted Examples.openConfig
                  (fun _ => Ok Examples.untypedBody) (lit "0b7e") []
                  Examples.post resp sub) as H.
  vm_compute (Http.handle _ _ _ _ _) in H.
  destruct (H _ _ eq_refl) as (_ & _ & H3).
  destruct (H3 _ eq_refl) as (_ & _ & Hauth & _). exact Hauth.
Defined.

(** A legacy event with a repository and a branch. *)
Lemma pusher_legacy_request_witness :
  Http.asWorkspace
    (Http.sub_workspace (Pusher.normalizeRequest (lit "0b7e")
                                                 MoreExamples.legacyEvent))
  = Some (Some (WsGit (lit "owner/repo") (Some (lit "release")) (Some true))).
Proof.
  exact (proj1 (@pusher_legacy_request (lit "0b7e") MoreExamples.legacyEvent
                  (lit "owner/repo") eq_refl eq_refl eq_refl)).
Defined.

(** A prompt of a space and a tab. *)
Lemma whitespace_prompt_by_transport_witness :
  exists s,
    Pusher.onRunEvent (lit "0b7e") MoreExamples.blankEvent = Some s /\
    Http.sub_prompt s = [32%N; 9%N].
Proof.
  exact (proj1 (@whitespace_prompt_by_transport (lit "0b7e")
                  MoreExamples.blankEvent [32%N; 9%N]
                  eq_refl eq_refl ltac:(vm_compute; reflexivity))).
Defined.

(** [BRIDGE_TIMEOUT] is changed after the first read: one millisecond
    before the entry expires the old value is still served. *)
Lemma envCached_ttl_witness :
  Config.envCached MoreExamples.envAfter 59999%N (lit "BRIDGE_TIMEOUT") None
    (snd (Config.envCached MoreExamples.envBefore 0%N (lit "BRIDGE_TIMEOUT")
                           None []))
  = (Some (lit "1000"),
     snd (Config.envCached MoreExamples.envBefore 0%N (lit "BRIDGE_TIMEOUT")
                           None [])).
Proof.
  exact (proj1 (proj2 (@envCached_ttl MoreExamples.envBefore
                         MoreExamples.envAfter 0%N 59999%N
                         (lit "BRIDGE_TIMEOUT") None [] I))
           eq_refl).
Defined.

(* ================================================================== *)
(** * Properties: bridge.ts, an execution that reaches its provider *)
(* ================================================================== *)

Section Settled.

Context {W : Type} {host : Host W}.

(** [loadMcpServers] only reads. *)
Lemma loadMcpServers_reads cwd (w : W) :
  st (loadMcpServers cwd w) = w /\ trace (loadMcpServers cwd w) = [].
Proof.
  unfold loadMcpServers, bind, readWorld, readResult, liftResult, ret, throw.
  cbn.
  destruct (existsSync _ w); cbn; [|auto].
  destruct (readFileSync _ w) as [text|e]; cbn; [|auto].
  destruct (jsonParse text) as [raw|e]; cbn; [|auto].
  destruct raw; cbn; auto;
    try match goal with
        | |- context [match ?x with _ => _ end] => destruct x; cbn; auto
        end.
Qed.

(** What [runAgent] does once the host has answered. *)
Lemma runAgent_settles request config startMs cwd (w : W) overlayMcp o w3 :
  res (loadMcpServers cwd w) = Ok overlayMcp ->
  existsb (seqb (effectiveProvider request config)) (providerNames w) = true ->
  providerRace (effectiveProvider request config)
               (providerContext request cwd overlayMcp)
               (effectiveTimeout request config) w = (o, w3) ->
  let run := [ERun (effectiveProvider request config)
                   (providerContext request cwd overlayMcp)
                   (effectiveTimeout request config);
              EClearTimeout] in
  runAgent request config startMs cwd w
  = match o with
    | ProviderResolved r => after run (report request startMs cwd r w3)
    | ProviderRejected e => mkOut (Throw e) w3 run
    | TimerFired =>
        mkOut (Throw (timeoutMessage (effectiveTimeout request config)
                                     (req_id request))) w3 run
    end.
Proof.
  intros Hmcp Hprov Hrace run. subst run.
  destruct (loadMcpServers_reads cwd w) as [Hst Htr].
  wp_start (runAgent request config startMs cwd) w.
  unfold runAgent. rewrite effectiveProvider_eq, effectiveTimeout_eq.
  fold (requestMcp request).
  wp_step. apply wp_any. intros o1 ->. rewrite Hmcp, Hst, Htr. cbv zeta.
  fold (providerContext request cwd overlayMcp).
  wp_step. unfold getProvider. wp_step. wp_step. rewrite Hprov. wp_step.
  wp_step. wp_step. wp_step. rewrite Hrace in H. injection H as <- <-.
  wp_step.
  destruct o as [r|e|]; cbn [res st trace after app]; [|reflexivity..].
  apply wp_any. intros o2 ->. reflexivity.
Qed.

(** The trace of an execution that reaches its provider: the setup, the
    run and its timer, then the report of the result or the [catch]
    block, and the cleanup of the handle. *)
Lemma executeRequest_settles request (w : W) handle o w3 :
  settles request w handle o w3 ->
  let startMs := fst (dateNow w) in
  let w1 := snd (dateNow w) in
  let config := loadBridgeConfig w1 in
  let o1 := setupWorkspace (req_workspace request) config w1 in
  exists overlayMcp,
    res (loadMcpServers (ws_cwd handle) (st o1)) = Ok overlayMcp /\
    let tail :=
      match o with
      | ProviderResolved r => report request startMs (ws_cwd handle) r w3
      | ProviderRejected e => reportError request startMs e w3
      | TimerFired =>
          reportError request startMs
            (timeoutMessage (effectiveTimeout request config) (req_id request))
            w3
      end in
    trace (executeRequest request w)
    = ECall (CallSetupWorkspace (req_workspace request))
      :: trace o1
      ++ [ERun (effectiveProvider request config)
               (providerContext request (ws_cwd handle) overlayMcp)
               (effectiveTimeout request config);
          EClearTimeout]
      ++ trace tail
      ++ ECall (CallCleanup (ws_cleanup handle))
         :: trace (runCleanup (ws_cleanup handle) (st tail)).
Proof.
  intros (Hp & Hs) startMs w1 config o1. cbv zeta in Hs.
  fold w1 config o1 in Hs. destruct Hs as (H1 & mcp & Hmcp & Hprov & Hrace).
  exists mcp. split; [exact Hmcp|]. intro tail.
  rewrite (executeRequest_setup_returns request w Hp H1).
  fold startMs w1 config o1.
  rewrite (runAgent_settles request config startMs (ws_cwd handle) (st o1)
             Hmcp Hprov Hrace).
  subst tail. destruct o as [r|e|]; cbn [res st trace after app].
  - destruct (report_posts request startMs (ws_cwd handle) r w3) as [R _].
    cbv zeta in R. rewrite R. cbn [trace st]. reflexivity.
  - reflexivity.
  - reflexivity.
Qed.


(** The events of a settled execution that [q] selects are those of
    what follows the race, when [q] selects no call marker and nothing
    that the setup, the run or the cleanup emit. *)
Lemma filter_settled (q : Event -> bool) request (w : W) handle o w3 :
  settles request w handle o w3 ->
  (forall c, q (ECall c) = false) ->
  (forall c msg, q (EConsole c msg) = false) ->
  (forall cmd cwd, q (EExec cmd cwd) = false) ->
  (forall c, q (EFs c) = false) ->
  (forall prov ctx t, q (ERun prov ctx t) = false) ->
  q EClearTimeout = false ->
  let startMs := fst (dateNow w) in
  let config := loadBridgeConfig (snd (dateNow w)) in
  filter q (trace (executeRequest request w))
  = filter q
      (trace match o with
             | ProviderResolved r => report request startMs (ws_cwd handle) r w3
             | ProviderRejected e => reportError request startMs e w3
             | TimerFired =>
                 reportError request startMs
                   (timeoutMessage (effectiveTimeout request config)
                                   (req_id request)) w3
             end).
Proof.
  intros Hs Hcall Hconsole Hexec Hfs Hrun Hclear startMs config.
  destruct (executeRequest_settles Hs) as (mcp & _ & E).
  cbv zeta in E. rewrite E. fold startMs config.
  cbn [filter]. rewrite Hcall, !filter_app.
  rewrite (@avoids_setupWorkspace W host q Hconsole Hexec Hfs).
  cbn [filter app]. rewrite Hrun, Hclear, Hcall.
  rewrite (@avoids_runCleanup W host q Hconsole Hexec Hfs).
  cbn [app]. now rewrite app_nil_r.
Qed.


(* ================================================================== *)
(** * Properties: bridge.ts, push verification in an execution *)
(* ================================================================== *)

(** [runAgent] stops before the provider, or reaches the race. *)
Lemma runAgent_cases request config startMs cwd (w : W) :
  trace (runAgent request config startMs cwd w) = [] \/
  exists overlayMcp o w3,
    res (loadMcpServers cwd w) = Ok overlayMcp /\
    existsb (seqb (effectiveProvider request config)) (providerNames w) = true /\
    providerRace (effectiveProvider request config)
                 (providerContext request cwd overlayMcp)
                 (effectiveTimeout request config) w = (o, w3).
Proof.
  destruct (loadMcpServers_reads cwd w) as [Hst Htr].
  destruct (res (loadMcpServers cwd w)) as [mcp|e] eqn:Hmcp.
  - destruct (existsb (seqb (effectiveProvider request config))
                      (providerNames w)) eqn:Hprov.
    + right.
      destruct (providerRace (effectiveProvider request config)
                  (providerContext request cwd mcp)
                  (effectiveTimeout request config) w) as [o w3] eqn:Hrace.
      exists mcp, o, w3. auto.
    + left. wp_start (runAgent request config startMs cwd) w.
      unfold runAgent. rewrite effectiveProvider_eq.
      wp_step. apply wp_any. intros o1 ->. rewrite Hmcp, Hst, Htr. cbv zeta.
      wp_step. unfold getProvider. wp_step. wp_step. rewrite Hprov. wp_step.
      reflexivity.
  - left. wp_start (runAgent request config startMs cwd) w.
    unfold runAgent. wp_step. apply wp_any. intros o1 ->.
    rewrite Hmcp, Htr. reflexivity.
Qed.

(** The counted calls of a settled execution, other than its setup and
    its cleanup, are those of what follows the race. *)
Lemma calls_settled (p : Call -> bool) request (w : W) handle o w3 :
  settles request w handle o w3 ->
  (forall ws, p (CallSetupWorkspace ws) = false) ->
  (forall c, p (CallCleanup c) = false) ->
  let startMs := fst (dateNow w) in
  let config := loadBridgeConfig (snd (dateNow w)) in
  calls p (trace (executeRequest request w))
  = calls p
      (trace match o with
             | ProviderResolved r => report request startMs (ws_cwd handle) r w3
             | ProviderRejected e => reportError request startMs e w3
             | TimerFired =>
                 reportError request startMs
                   (timeoutMessage (effectiveTimeout request config)
                                   (req_id request)) w3
             end).
Proof.
  intros Hs Hsetup Hcleanup startMs config.
  destruct (executeRequest_settles Hs) as (mcp & _ & E).
  cbv zeta in E. rewrite E. fold startMs config.
  cbn [calls]. rewrite Hsetup, !calls_app.
  rewrite (silent_setupWorkspace p). cbn [calls app].
  rewrite Hcleanup, (silent_runCleanup p). cbn [app]. now rewrite app_nil_r.
Qed.

(** An execution that verifies a push has reached the provider's
    result. *)
Lemma verification_needs_result request (w : W) :
  calls isVerify (trace (executeRequest request w)) = [] \/
  exists handle r w3,
    settles request w handle (ProviderResolved r) w3 /\
    calls isVerify (trace (executeRequest request w))
    = calls isVerify
        (trace (report request (fst (dateNow w)) (ws_cwd handle) r w3)).
Proof.
  assert (HE : forall e s,
             calls isVerify
               (trace (reportError request (fst (dateNow w)) e s)) = []).
  { intros e s. apply silent_reportError. reflexivity. }
  destruct (emptyPrompt request) eqn:Hp.
  { left. destruct (executeRequest_empty_prompt request w Hp)
      as (payload & w2 & _ & _ & ->).
    cbn [calls]. destruct (callbackTarget request) as [url|]; [|reflexivity].
    cbn [calls isVerify]. apply silent_sendCallback. }
  set (w1 := snd (dateNow w)). set (config := loadBridgeConfig w1).
  pose proof (silent_setupWorkspace isVerify (req_workspace request) config w1)
    as S1.
  destruct (res (setupWorkspace (req_workspace request) config w1))
    as [handle|e] eqn:E1.
  2:{ left. rewrite (executeRequest_setup_throws request w Hp E1).
      fold w1 config. cbn [calls isVerify]. now rewrite calls_app, S1, HE. }
  destruct (runAgent_cases request config (fst (dateNow w)) (ws_cwd handle)
              (st (setupWorkspace (req_workspace request) config w1)))
    as [Hnil|(mcp & o & w3 & Hmcp & Hprov & Hrace)].
  { left. rewrite (executeRequest_setup_returns request w Hp E1).
    fold w1 config. rewrite Hnil.
    cbn [calls isVerify app]. rewrite !calls_app, S1.
    cbn [calls isVerify app]. rewrite (silent_runCleanup isVerify).
    destruct (res (runAgent _ _ _ _ _)); cbn [trace calls]; rewrite ?HE;
      reflexivity. }
  assert (Hs : settles request w handle o w3).
  { split; [exact Hp|]. cbv zeta. fold w1 config. split; [exact E1|].
    exists mcp. auto. }
  pose proof (calls_settled isVerify Hs ltac:(reflexivity) ltac:(reflexivity))
    as C. cbv zeta in C.
  destruct o as [r|e|].
  - right. exists handle, r, w3. auto.
  - left. now rewrite C, HE.
  - left. now rewrite C, HE.
Qed.

(** The callback of [report] after a verification that failed. *)
Lemma report_downgrades request startMs cwd r (w : W) b v url :
  pushCheckBranch request = Some b ->
  res (verifyGitPush cwd b (snd (dateNow w))) = Ok v ->
  pushed v = false ->
  callbackTarget request = Some url ->
  exists payload,
    filter isFetch (trace (report request startMs cwd r w))
    = [EFetch url payload] /\
    cb_status payload = StError /\
    cb_error payload = Some (pushVerificationError b v) /\
    cb_usage payload = pr_usage r /\
    cb_result payload = pr_output r.
Proof.
  intros Hb Hv Hpushed Hurl.
  wp_start (report request startMs cwd r) w.
  unfold report. rewrite Hb, Hurl. wp_step. wp_step. rewrite H in Hv.
  cbn [snd] in Hv. cbv zeta. wp_step. wp_step. wp_step.
  apply wp_any. intros ov ->.
  pose proof (@avoids_verifyGitPush W host isFetch ltac:(reflexivity)
                ltac:(reflexivity) cwd b w') as Fv.
  rewrite Hv, Hpushed. cbn [negb res st trace after app].
  wp_step. wp_step. wp_step. wp_step.
  apply wp_any. intros os ->. cbn [res st trace after app].
  match goal with
  | |- context [sendCallback ?u ?p ?s] =>
      destruct (sendCallback_fetches u p s) as [_ F]
  end.
  cbn [filter isFetch]. rewrite !filter_app, Fv.
  cbn [filter isFetch app]. rewrite F.
  eexists. split; [reflexivity|]. repeat split.
Qed.

(** C4, as the code has it: an execution verifies the push of a branch
    only when the workspace is git-backed, that branch was requested, is
    not empty and is not the literal [main], [metadata.expectBranchPush]
    is [true], and the provider has returned a result; and when these
    hold it verifies that branch exactly once, in the directory of the
    workspace.  When the verification reports [pushed: false], the
    callback posted has status [error], the diagnostic as its error
    text, and the usage counters and output of the provider's result. *)
Theorem push_verification_in_execution request (w : W) :
  (forall cwd b,
     In (ECall (CallVerifyGitPush cwd b)) (trace (executeRequest request w)) ->
     verificationRequested request b /\
     exists handle r w3,
       settles request w handle (ProviderResolved r) w3 /\
       cwd = ws_cwd handle) /\
  (forall handle r w3 b,
     settles request w handle (ProviderResolved r) w3 ->
     verificationRequested request b ->
     calls isVerify (trace (executeRequest request w))
     = [CallVerifyGitPush (ws_cwd handle) b] /\
     forall v url,
       res (verifyGitPush (ws_cwd handle) b (snd (dateNow w3))) = Ok v ->
       pushed v = false ->
       callbackTarget request = Some url ->
       exists payload,
         filter isFetch (trace (executeRequest request w))
         = [EFetch url payload] /\
         cb_status payload = StError /\
         cb_error payload = Some (pushVerificationError b v) /\
         cb_usage payload = pr_usage r /\
         cb_result payload = pr_output r).
Proof.
  pose proof (@verification_in_report W host request) as (Honly & Hreport).
  split.
  - intros cwd b Hin. split; [exact (Honly w cwd b Hin)|].
    assert (Hc : In (CallVerifyGitPush cwd b)
                    (calls isVerify (trace (executeRequest request w))))
      by (apply calls_In; [exact Hin|reflexivity]).
    destruct (verification_needs_result request w)
      as [Hnil|(handle & r & w3 & Hs & E)].
    + rewrite Hnil in Hc. destruct Hc.
    + exists handle, r, w3. split; [exact Hs|].
      rewrite E in Hc.
      destruct (Hreport (fst (dateNow w)) (ws_cwd handle) r w3)
        as (Hyes & _ & _). cbv zeta in Hyes.
      rewrite (Hyes b (Honly w cwd b Hin)) in Hc.
      destruct Hc as [[= -> ]|[]]. reflexivity.
  - intros handle r w3 b Hs Hb.
    destruct (Hreport (fst (dateNow w)) (ws_cwd handle) r w3) as (Hyes & _ & _).
    cbv zeta in Hyes. split.
    + rewrite (calls_settled isVerify Hs) by reflexivity. now apply Hyes.
    + intros v url Hv Hpushed Hurl.
      rewrite (filter_settled isFetch Hs) by reflexivity.
      apply report_downgrades; auto. now apply pushCheckBranch_spec.
Qed.

(* ================================================================== *)
(** * Properties: bridge.ts, the empty prompt *)
(* ================================================================== *)

(** The trace of an execution whose prompt is empty, with the payload of
    its callback. *)
Lemma executeRequest_guarded request (w : W) :
  emptyPrompt request = true ->
  exists payload w2,
    cb_status payload = StError /\
    cb_usage payload = zeroUsage /\
    cb_error payload
    = Some (lit "Empty prompt received for request " ++ req_id request) /\
    cb_result payload = None /\
    cb_id payload = req_id request /\
    cb_metadata payload = req_metadata request /\
    trace (executeRequest request w)
    = EConsole Err (lit "[Bridge] " ++ lit "Empty prompt received for request "
                    ++ req_id request)
      :: match callbackTarget request with
         | Some url =>
             ECall (CallSendCallback url payload)
             :: trace (sendCallback url payload w2)
         | None => []
         end.
Proof.
  intros Hprompt.
  wp_start (executeRequest request) w. unfold executeRequest.
  wp_step. wp_step. wp_step. wp_step.
  wp_step. wp_step. rewrite Hprompt. cbv zeta.
  wp_step. wp_step. wp_step.
  destruct (callbackTarget request) as [url|].
  - wp_step. wp_step. unfold buildErrorPayload. wp_step. wp_step. wp_step.
    wp_step. wp_step. apply wp_any. intros o ->.
    cbn [res st trace after app].
    eexists _, _. repeat split; rewrite ?app_nil_r; reflexivity.
  - wp_step.
    exists (Build_CallbackPayload (req_id request) StError 0%Z zeroUsage None
              (Some (lit "Empty prompt received for request " ++ req_id request))
              (req_metadata request)), w.
    cbn. repeat split.
Qed.

(** C7: a prompt that is empty after trimming short-circuits the
    execution.  [setupWorkspace] is not called, no cleanup runs, the
    provider is not run, no command is executed and no file is written.
    With a callback URL, exactly one POST goes to that URL, through the
    one call of [sendCallback]; its payload has status [error], every
    usage counter zero, the message of the guard, and the id and
    metadata of the request.  Without one, nothing is posted. *)
Theorem empty_prompt_error_callback (request : ExecutionRequest) (w : W) :
  trim (req_prompt request) = [] ->
  let tr := trace (executeRequest request w) in
  calls isSetup tr = [] /\
  calls isCleanup tr = [] /\
  filter isRun tr = [] /\
  untouched tr /\
  match callbackTarget request with
  | Some url =>
      exists payload,
        filter isFetch tr = [EFetch url payload] /\
        calls isSend tr = [CallSendCallback url payload] /\
        cb_status payload = StError /\
        cb_usage payload = zeroUsage /\
        cb_error payload
        = Some (lit "Empty prompt received for request " ++ req_id request) /\
        cb_id payload = req_id request /\
        cb_metadata payload = req_metadata request
  | None => filter isFetch tr = [] /\ calls isSend tr = []
  end.
Proof.
  intros Htrim tr. subst tr.
  assert (Hempty : emptyPrompt request = true).
  { unfold emptyPrompt. rewrite Htrim. cbn. apply orb_true_r. }
  destruct (executeRequest_guarded request w Hempty)
    as (payload & w2 & Hst & Hus & Her & _ & Hid & Hmeta & ->).
  destruct (callbackTarget request) as [url|].
  - pose proof (silent_sendCallback isSetup url payload w2) as S1.
    pose proof (silent_sendCallback isCleanup url payload w2) as S2.
    pose proof (silent_sendCallback isSend url payload w2) as S3.
    pose proof (untouched_sendCallback url payload w2) as U.
    destruct (sendCallback_fetches url payload w2) as [_ F].
    pose proof (@avoids_sendCallback W host isRun ltac:(reflexivity)
                  ltac:(reflexivity) url payload w2) as R.
    cbn [calls isSetup isCleanup isSend filter isRun isFetch].
    rewrite S1, S2, S3, F, R.
    split; [reflexivity|]. split; [reflexivity|]. split; [reflexivity|].
    split.
    + intros ev [<-|[<-|Hin]]; [exact I|exact I|now apply U].
    + exists payload. repeat split; assumption.
  - cbn. repeat split. intros ev [<-|[]]. exact I.
Qed.

End Settled.

(* ================================================================== *)
(** * Properties: from the HTTP handler to the orchestrator *)
(* ================================================================== *)

(** X21: the prompt of a request that the HTTP handler submitted never
    meets the empty-prompt guard of the orchestrator: every execution
    request that carries it, whatever its other fields, calls
    [setupWorkspace] exactly once, on its workspace. *)
Theorem http_prompt_reaches_setup {W : Type} {host : Host W}
        cfg parse uuid health req resp s r (w : W) :
  Http.handle cfg parse uuid health req = Ok (resp, Some s) ->
  req_prompt r = Http.sub_prompt s ->
  emptyPrompt r = false /\
  calls isSetup (trace (executeRequest r w))
  = [CallSetupWorkspace (req_workspace r)].
Proof.
  intros Hh Hprompt.
  assert (Hp : emptyPrompt r = false).
  { unfold Http.handle in Hh.
    destruct (_ && _) in Hh; [discriminate|].
    destruct (_ && _) in Hh; [|discriminate].
    destruct (Http.authorize cfg req) as [[|]|] in Hh; try discriminate.
    destruct (Http.http_body req) as [raw|] in Hh; [|discriminate].
    destruct (parse raw) as [data|] in Hh; [|discriminate].
    assert (Hv : Http.validPrompt data = Some (Http.sub_prompt s)).
    { unfold Http.accept in Hh.
      destruct (Http.validPrompt data) as [prompt|] eqn:Hv.
      - destruct (Http.invalidWorkspaceType data);
          destruct data; try discriminate; now injection Hh as _ <-.
      - destruct data; discriminate. }
    destruct (validPrompt_not_empty data Hv) as [T E].
    unfold emptyPrompt. rewrite Hprompt, T, E. reflexivity. }
  split; [exact Hp|]. now apply setup_called_once.
Qed.

(* ================================================================== *)
(** * Properties: repoSlug on GitHub URLs *)
(* ================================================================== *)

Lemma notSlash_git : forallb notSlash (lit ".git") = true.
Proof. reflexivity. Qed.

(** X3: for an owner and a name without a slash, [repoSlug] accepts the
    URL [https://github.com/<owner>/<name>] exactly when the owner is
    not empty and the name is a non-empty run without dots, optionally
    followed by [.git]; the slug is then the owner, two dashes and that
    run, and the scheme and the host are not part of it.  A name with a
    dot elsewhere is rejected. *)
Theorem repoSlug_github_url_iff owner name slug :
  forallb notSlash owner = true -> forallb notSlash name = true ->
  (repoSlug (lit "https://github.com/" ++ owner ++ [slash] ++ name) = Ok slug
   <->
   owner <> [] /\
   exists b, b <> [] /\ forallb notSlashDot b = true /\
             (name = b \/ name = b ++ lit ".git") /\
             slug = owner ++ lit "--" ++ b).
Proof.
  intros Ho Hn.
  assert (Hyes : forall b suf,
             owner <> [] -> b <> [] -> forallb notSlashDot b = true ->
             suf = [] \/ suf = lit ".git" ->
             repoSlug (lit "https://github.com/" ++ owner ++ [slash] ++ b ++ suf)
             = Ok (owner ++ lit "--" ++ b)).
  { intros b suf Hne Hb Hbc Hsuf. now apply repoSlug_github_accepts. }
  split.
  - intro H. pose proof H as H0.
    apply repoSlug_parts in H
      as (pre & a & b & suf & E & Hsuf & Ha & Hac & Hb & Hbc & _ & _).
    assert (Hbs : forallb notSlash (b ++ suf) = true).
    { rewrite forallb_app, (notSlashDot_notSlash _ Hbc).
      destruct Hsuf as [->| ->]; reflexivity. }
    assert (E' : (lit "https://github.com/" ++ owner) ++ slash :: name
                 = (pre ++ a) ++ slash :: (b ++ suf)).
    { rewrite <- !app_assoc. exact E. }
    apply last_slash_unique in E' as [Ex Ey]; [|exact Hn|exact Hbs].
    assert (Hne : owner <> []).
    { intros ->. rewrite app_nil_r in Ex.
      destruct (exists_last Ha) as (a' & c & ->).
      rewrite forallb_app in Hac. apply andb_true_iff in Hac as [_ Hc].
      change (lit "https://github.com/")
        with (lit "https://github.com" ++ [slash]) in Ex.
      rewrite app_assoc in Ex. apply app_inj_tail in Ex as [_ <-].
      discriminate. }
    split; [exact Hne|]. exists b.
    split; [exact Hb|]. split; [exact Hbc|]. split.
    + destruct Hsuf as [->| ->]; [left; now rewrite app_nil_r in Ey|right; exact Ey].
    + rewrite Ey in H0. rewrite (Hyes b suf Hne Hb Hbc Hsuf) in H0.
      now injection H0.
  - intros (Hne & b & Hb & Hbc & [->| ->] & ->).
    + rewrite <- (app_nil_r b) at 1. apply Hyes; auto.
    + apply Hyes; auto.
Qed.

(* ================================================================== *)
(** * Properties: verifyGitPush in the worktrees of the bridge *)
(* ================================================================== *)

(** C6, where the code departs from it: in a worktree that the bridge
    itself made -- of a bare clone, which has no remote-tracking
    references -- [origin/feature-x] does not resolve, [git log] fails,
    and the [|| echo] of the command line hides the failure.  Whatever
    commits the worktree holds that were never pushed, [verifyGitPush]
    answers from [git ls-remote] alone: the branch exists on the remote,
    so the answer is [pushed: true] with no commit listed, and the
    execution is reported as a success. *)
Theorem unpushed_commits_reported_as_pushed (commits : list jsstring) :
  let w0 := Scenarios.ahead commits in
  let o := setupWorkspace (Some Scenarios.featureWorkspace)
                          Sim.defaultConfig w0 in
  res o = Ok {| ws_cwd := Scenarios.worktree0;
                ws_cleanup := CleanWorktree WorktreeExamples.bare
                                            Scenarios.worktree0 |} /\
  Sim.unpushed (st o) = commits /\
  Sim.tracking (st o) = [] /\
  res (verifyGitPush Scenarios.worktree0 (lit "feature-x") (st o))
  = Ok {| pushed := true; unpushedCommits := [] |} /\
  exists payload,
    filter isFetch (trace (executeRequest Examples.pushRequest w0))
    = [EFetch Examples.url payload] /\
    cb_status payload = StSuccess /\
    cb_error payload = None.
Proof.
  cbv zeta. split; [vm_compute; reflexivity|].
  split; [vm_compute; reflexivity|].
  split; [vm_compute; reflexivity|].
  split; [vm_compute; reflexivity|].
  eexists. split; [vm_compute; reflexivity|]. split; reflexivity.
Qed.

(* ================================================================== *)
(** * Executions at concrete inputs *)
(* ================================================================== *)

(** C4 as stated fails: what the code compares the branch with is the
    name [main], not the default branch of the repository.  Where the
    default branch is [master], a request for [master] has its push
    verified; where it is [develop], a request for the branch [main] has
    not. *)
Lemma default_branch_is_not_what_is_compared :
  (Sim.headBranch Scenarios.masterWorld = lit "master" /\
   calls isVerify (trace (executeRequest Scenarios.masterRequest
                                         Scenarios.masterWorld))
   = [CallVerifyGitPush Scenarios.worktree1 (lit "master")]) /\
  (Sim.headBranch Scenarios.developWorld = lit "develop" /\
   expectBranchPush Scenarios.mainRequest = true /\
   calls isVerify (trace (executeRequest Scenarios.mainRequest
                                         Scenarios.developWorld))
   = []).
Proof. vm_compute. repeat split. Qed.

(** The branch asked for is not on the remote: the callback is
    downgraded and keeps the provider's usage. *)
Lemma push_verification_in_execution_witness :
  exists payload,
    filter isFetch (trace (executeRequest Examples.pushRequest
                                          Examples.unpushedWorld))
    = [EFetch Examples.url payload] /\
    cb_status payload = StError /\
    cb_error payload
    = Some (lit "Git push verification failed: branch " ++ dq
            ++ lit "feature-x" ++ dq
            ++ lit " has unpushed changes: (branch not on remote)") /\
    cb_usage payload = pr_usage Sim.okResult /\
    cb_result payload = pr_output Sim.okResult.
Proof.
  set (w1 := snd (dateNow Examples.unpushedWorld)).
  set (w3 := st (setupWorkspace (req_workspace Examples.pushRequest)
                                Sim.defaultConfig w1)).
  apply (proj2 (proj2 (@push_verification_in_execution Sim.World Sim.host
                         Examples.pushRequest Examples.unpushedWorld)
                  {| ws_cwd := Examples.worktree;
                     ws_cleanup := CleanWorktree WorktreeExamples.bare
                                                 Examples.worktree |}
                  Sim.okResult w3 (lit "feature-x")
                  ltac:(repeat split; try (vm_compute; reflexivity);
                        exists (JObj []); repeat split; vm_compute; reflexivity)
                  ltac:(exists (lit "owner/repo"), None,
                          [(lit "expectBranchPush", JBool true)];
                        repeat split; try reflexivity; discriminate))
           (notPushed [branchNotOnRemote]) Examples.url).
  - vm_compute. reflexivity.
  - reflexivity.
  - reflexivity.
Defined.


(** A prompt of a space, a tab, a line feed and a no-break space. *)
Lemma empty_prompt_error_callback_witness :
  exists payload,
    filter isFetch (trace (executeRequest Examples.blankRequest
                                          Examples.pushedWorld))
    = [EFetch Examples.url payload] /\
    cb_status payload = StError /\
    cb_usage payload = zeroUsage.
Proof.
  destruct (@empty_prompt_error_callback Sim.World Sim.host
              Examples.blankRequest Examples.pushedWorld
              ltac:(vm_compute; reflexivity))
    as (_ & _ & _ & _ & payload & F & _ & S & U & _).
  exists payload. auto.
Defined.

(** [https://github.com/acme/widgets.git] *)
Lemma repoSlug_github_url_iff_witness :
  repoSlug (lit "https://github.com/" ++ lit "acme" ++ [slash]
            ++ lit "widgets.git")
  = Ok (lit "acme--widgets").
Proof.
  apply (proj2 (@repoSlug_github_url_iff (lit "acme") (lit "widgets.git")
                  (lit "acme--widgets") eq_refl eq_refl)).
  split; [discriminate|]. exists (lit "widgets").
  split; [discriminate|]. split; [reflexivity|].
  split; [right; reflexivity|reflexivity].
Defined.

(** The body of [Examples.untypedBody] reaches [setupWorkspace] with a
    workspace of no type. *)
Lemma http_prompt_reaches_setup_witness :
  calls isSetup (trace (executeRequest MoreExamples.untypedRequest
                                       MoreExamples.world))
  = [CallSetupWorkspace (Some (WsOther None))].
Proof.
  pose proof (fun resp s =>
                @http_prompt_reaches_setup Sim.World Sim.host
                  Examples.openConfig (fun _ => Ok Examples.untypedBody)
                  (lit "0b7e") [] Examples.post resp s
                  MoreExamples.untypedRequest MoreExamples.world) as H.
  vm_compute (Http.handle _ _ _ _ _) in H.
  apply (H _ _ eq_refl). reflexivity.
Defined.

(** A temporary directory with two seed files: the second one is written
    next to the new directory, not below it. *)
Lemma tempdir_seeds_every_file_witness :
  fsCalls (trace (setupWorkspace (Some (WsTempdir (Some Scenarios.seedFiles)))
                                 Sim.defaultConfig MoreExamples.world))
  = [Mkdtemp (lit "/tmp/bridge-");
     MkdirRecursive (lit "/tmp/bridge-m2r1bz7k/notes");
     WriteFile (lit "/tmp/bridge-m2r1bz7k/notes/todo.md") (lit "- ship it");
     MkdirRecursive (lit "/tmp/bridge-escape");
     WriteFile (lit "/tmp/bridge-escape/e.txt") (lit "outside")].
Proof.
  pose proof (@tempdir_seeds_every_file Sim.World Sim.host
                Scenarios.seedFiles Sim.defaultConfig MoreExamples.world
                MoreExamples.tempdir
                (Sim.setPaths [MoreExamples.tempdir] MoreExamples.world)
                sim_fs_reliable ltac:(vm_compute; reflexivity)) as H.
  cbv zeta in H. destruct H as (_ & H & _).
  vm_compute in H. vm_compute. exact H.
Defined.

(** A request without a workspace. *)
Lemma only_git_workspaces_run_commands_witness :
  filter isExec (trace (executeRequest Scenarios.plainRequest
                                       Scenarios.slowWorld)) = [].
Proof.
  refine (proj1 (@only_git_workspaces_run_commands Sim.World Sim.host
                   Scenarios.plainRequest Scenarios.slowWorld _)).
  intros repo branch overlays. discriminate.
Defined.
